(** * aws-lambda-graphql: DynamoDB connection and subscription managers

    A shallow embedding of [dist/DynamoDBConnectionManager.js],
    [dist/DynamoDBRangeSubscriptionManager.js] and [DynamoDBEventStore.js],
    together with a model of the key-value store they talk to, and the
    properties of the two managers and of the event store.

    Layout:
    - [Js]       JavaScript values as the managers handle them (JSON data);
    - [Dynamo]   attribute values, [marshall] / [unmarshall], tables, the
                 commands the managers send and what the store does with them;
    - [Helpers]  the repository's [helpers], modelled from the specification;
    - [Subscriptions]  DynamoDBRangeSubscriptionManager;
    - [Connections]    DynamoDBConnectionManager;
    - [Events]         DynamoDBEventStore;
    - the vocabulary of the properties and the worlds they are tried in;
    - the properties: of the store, of the bulk deletes, of each manager,
      of the event store. *)

From Stdlib Require Import ZArith Sorted.
From Stdlib Require OrderedTypeEx.
From stdpp Require Import base tactics option list strings pretty gmap.

Set Warnings "-register-all".

Local Open Scope Z_scope.

(* ===================================================================== *)
(** * JavaScript values *)
(* ===================================================================== *)

Module Js.

(** Values are JSON data: what a parsed client message or an unmarshalled
    store row contains.  Numbers are the integral ones (epoch seconds,
    status codes).  [undefined] is not a value stored inside an object: a
    property that would hold it is absent, and reading a property yields an
    [option]. *)
Inductive JsVal : Type :=
| JNull
| JBool (b : bool)
| JNum (n : Z)
| JStr (s : string)
| JArr (items : list JsVal)
| JObj (props : list (string * JsVal)).

(** The result of an expression that may be [undefined]. *)
Abbreviation JsRef := (option JsVal).

Section JsVal_induction.
Variable P : JsVal → Prop.
Hypothesis Hnull : P JNull.
Hypothesis Hbool : ∀ b, P (JBool b).
Hypothesis Hnum : ∀ n, P (JNum n).
Hypothesis Hstr : ∀ s, P (JStr s).
Hypothesis Harr : ∀ items, Forall P items → P (JArr items).
Hypothesis Hobj : ∀ props, Forall (λ kv, P kv.2) props → P (JObj props).

Fixpoint JsVal_nested_ind (v : JsVal) : P v :=
  match v with
  | JNull => Hnull
  | JBool b => Hbool b
  | JNum n => Hnum n
  | JStr s => Hstr s
  | JArr items =>
      Harr items
        ((fix go (l : list JsVal) : Forall P l :=
            match l with
            | [] => Forall_nil_2 P
            | x :: l' => Forall_cons_2 P x l' (JsVal_nested_ind x) (go l')
            end) items)
  | JObj props =>
      Hobj props
        ((fix go (l : list (string * JsVal)) : Forall (λ kv, P kv.2) l :=
            match l with
            | [] => Forall_nil_2 _
            | kv :: l' =>
                Forall_cons_2 (λ kv, P kv.2) kv l'
                  (JsVal_nested_ind kv.2) (go l')
            end) props)
  end.
End JsVal_induction.

(** Association lists keyed by strings: the properties of an object, the
    attributes of an item.  The first binding of a name is the one read. *)
Fixpoint assoc {A} (name : string) (l : list (string * A)) : option A :=
  match l with
  | [] => None
  | (k, v) :: l' => if String.eqb k name then Some v else assoc name l'
  end.

(** [o.name], for [o] an object; a primitive has no such property. *)
Definition prop (name : string) (o : JsVal) : JsRef :=
  match o with
  | JObj props => assoc name props
  | _ => None
  end.

(** [Object.assign(target, source)] on property lists: properties of
    [source] overwrite those of [target] in place, new ones are appended. *)
Fixpoint assign1 {A} (target : list (string * A)) (k : string) (v : A)
  : list (string * A) :=
  match target with
  | [] => [(k, v)]
  | (k', v') :: t =>
      if String.eqb k' k then (k', v) :: t else (k', v') :: assign1 t k v
  end.

Definition Object_assign {A} (target source : list (string * A))
  : list (string * A) :=
  foldl (λ acc kv, assign1 acc kv.1 kv.2) target source.

(** ToBoolean. *)
Definition truthy (v : JsVal) : bool :=
  match v with
  | JNull => false
  | JBool b => b
  | JNum n => negb (n =? 0)%Z
  | JStr s => negb (String.eqb s "")
  | JArr _ | JObj _ => true
  end.

(** ToString, as a template literal applies it. *)
Fixpoint toString (v : JsVal) : string :=
  match v with
  | JNull => "null"
  | JBool true => "true"
  | JBool false => "false"
  | JNum n => pretty n
  | JStr s => s
  | JArr items =>
      (fix join (l : list JsVal) : string :=
         match l with
         | [] => ""
         | [x] => match x with JNull => "" | _ => toString x end
         | x :: l' =>
             (match x with JNull => "" | _ => toString x end)
               +:+ "," +:+ join l'
         end) items
  | JObj _ => "[object Object]"
  end.

Definition template (r : JsRef) : string :=
  match r with
  | None => "undefined"
  | Some v => toString v
  end.

(** [typeof]. *)
Definition typeof (r : JsRef) : string :=
  match r with
  | None => "undefined"
  | Some (JBool _) => "boolean"
  | Some (JNum _) => "number"
  | Some (JStr _) => "string"
  | Some JNull | Some (JArr _) | Some (JObj _) => "object"
  end.

End Js.

(* ===================================================================== *)
(** * The key-value store *)
(* ===================================================================== *)

Module Dynamo.
Import Js.

(** ** Attribute values and marshalling

    The store holds items whose attributes are tagged values.  The managers
    build them with [marshall] and read them back with [unmarshall]
    (from the SDK's util-dynamodb). *)
Inductive AttributeValue : Type :=
| AV_S (s : string)
| AV_N (n : Z)
| AV_BOOL (b : bool)
| AV_NULL
| AV_L (items : list AttributeValue)
| AV_M (attrs : list (string * AttributeValue)).

Definition Item := list (string * AttributeValue).

Section AttributeValue_induction.
Variable P : AttributeValue → Prop.
Hypothesis Hs : ∀ s, P (AV_S s).
Hypothesis Hn : ∀ n, P (AV_N n).
Hypothesis Hbool : ∀ b, P (AV_BOOL b).
Hypothesis Hnull : P AV_NULL.
Hypothesis Hl : ∀ items, Forall P items → P (AV_L items).
Hypothesis Hm : ∀ attrs, Forall (λ kv, P kv.2) attrs → P (AV_M attrs).

Fixpoint AttributeValue_nested_ind (a : AttributeValue) : P a :=
  match a with
  | AV_S s => Hs s
  | AV_N n => Hn n
  | AV_BOOL b => Hbool b
  | AV_NULL => Hnull
  | AV_L items =>
      Hl items
        ((fix go (l : list AttributeValue) : Forall P l :=
            match l with
            | [] => Forall_nil_2 P
            | x :: l' =>
                Forall_cons_2 P x l' (AttributeValue_nested_ind x) (go l')
            end) items)
  | AV_M attrs =>
      Hm attrs
        ((fix go (l : Item) : Forall (λ kv, P kv.2) l :=
            match l with
            | [] => Forall_nil_2 _
            | kv :: l' =>
                Forall_cons_2 (λ kv, P kv.2) kv l'
                  (AttributeValue_nested_ind kv.2) (go l')
            end) attrs)
  end.
End AttributeValue_induction.

(** [convertToAttr]: a native value to its tagged form. *)
Fixpoint convertToAttr (v : JsVal) : AttributeValue :=
  match v with
  | JNull => AV_NULL
  | JBool b => AV_BOOL b
  | JNum n => AV_N n
  | JStr s => AV_S s
  | JArr items => AV_L (map convertToAttr items)
  | JObj props => AV_M (map (λ kv, (kv.1, convertToAttr kv.2)) props)
  end.

(** [convertToNative]: a tagged value back to a native one. *)
Fixpoint convertToNative (a : AttributeValue) : JsVal :=
  match a with
  | AV_S s => JStr s
  | AV_N n => JNum n
  | AV_BOOL b => JBool b
  | AV_NULL => JNull
  | AV_L items => JArr (map convertToNative items)
  | AV_M attrs => JObj (map (λ kv, (kv.1, convertToNative kv.2)) attrs)
  end.

(** An attribute value is itself a JavaScript object, [{S: "x"}],
    [{N: "12"}], [{M: {...}}]: this is what code sees when it reads an
    attribute of an item that has not been unmarshalled. *)
Fixpoint attr_js (a : AttributeValue) : JsVal :=
  match a with
  | AV_S s => JObj [("S", JStr s)]
  | AV_N n => JObj [("N", JStr (pretty n))]
  | AV_BOOL b => JObj [("BOOL", JBool b)]
  | AV_NULL => JObj [("NULL", JBool true)]
  | AV_L items => JObj [("L", JArr (map attr_js items))]
  | AV_M attrs => JObj [("M", JObj (map (λ kv, (kv.1, attr_js kv.2)) attrs))]
  end.

(** [item.name] on a raw (still marshalled) item. *)
Definition raw_prop (name : string) (item : Item) : JsRef :=
  attr_js <$> assoc name item.

(** Failures the managers can meet. *)
Inductive Exception : Type :=
| MarshallUndefined
    (* util-dynamodb: "Pass options.removeUndefinedValues=true ..." *)
| TypeError (what : string)
| ValidationException
| ResourceNotFoundException
| ServiceUnavailable
| TransactionCanceledException
| ConnectionNotFoundError (message : string)
| TransportFailure (e : JsVal)      (* what a push threw *)
| StillRunning.                     (* a loop cut off by its step bound *)

Inductive Outcome (A : Type) : Type :=
| Ok (a : A)
| Throw (e : Exception).
Arguments Ok {A} a.
Arguments Throw {A} e.

(** [marshall({k1: v1, ...})]: each property is converted; a property whose
    value is [undefined] makes it throw. *)
Fixpoint marshall (props : list (string * JsRef)) : Outcome Item :=
  match props with
  | [] => Ok []
  | (k, None) :: _ => Throw MarshallUndefined
  | (k, Some v) :: rest =>
      match marshall rest with
      | Ok item => Ok ((k, convertToAttr v) :: item)
      | Throw e => Throw e
      end
  end.

(** [unmarshall(item)]. *)
Definition unmarshall (item : Item) : JsVal :=
  JObj (map (λ kv, (kv.1, convertToNative kv.2)) item).

(** ** Tables

    A table has a key schema: a partition (HASH) attribute and possibly a
    sort (RANGE) attribute, both strings here (event names, subscription
    ids, connection ids).  Rows are kept in key order, which is the order a
    query or a scan walks them in and the order a cursor refers to. *)
Record KeySchema := { HASH : string; RANGE : option string }.

Definition Key := list string.

Definition key_names (ks : KeySchema) : list string :=
  HASH ks :: match RANGE ks with Some r => [r] | None => [] end.

Definition key_attr (item : Item) (name : string) : option string :=
  match assoc name item with
  | Some (AV_S s) => Some s
  | _ => None
  end.

(** The key of an item that is put: every key attribute present, a string. *)
Definition item_key (ks : KeySchema) (item : Item) : option Key :=
  mapM (key_attr item) (key_names ks).

(** The key a request names ([Key], [ExclusiveStartKey]): the key attributes
    and nothing else. *)
Definition request_key (ks : KeySchema) (k : Item) : option Key :=
  if decide (length k = length (key_names ks)) then item_key ks k else None.

Definition key_item (ks : KeySchema) (k : Key) : Item :=
  zip_with (λ name v, (name, AV_S v)) (key_names ks) k.

Fixpoint key_compare (k1 k2 : Key) : comparison :=
  match k1, k2 with
  | [], [] => Eq
  | [], _ :: _ => Lt
  | _ :: _, [] => Gt
  | a :: k1', b :: k2' =>
      match String.compare a b with
      | Eq => key_compare k1' k2'
      | c => c
      end
  end.

Definition Rows := list (Key * Item).

Record Table := { Schema : KeySchema; TableRows : Rows }.

Fixpoint rows_get (k : Key) (rows : Rows) : option Item :=
  match rows with
  | [] => None
  | (k', item) :: rest => if decide (k' = k) then Some item else rows_get k rest
  end.

Fixpoint rows_put (k : Key) (item : Item) (rows : Rows) : Rows :=
  match rows with
  | [] => [(k, item)]
  | (k', item') :: rest =>
      match key_compare k k' with
      | Eq => (k, item) :: rest
      | Lt => (k, item) :: (k', item') :: rest
      | Gt => (k', item') :: rows_put k item rest
      end
  end.

Fixpoint rows_delete (k : Key) (rows : Rows) : Rows :=
  match rows with
  | [] => []
  | (k', item') :: rest =>
      if decide (k' = k) then rows_delete k rest
      else (k', item') :: rows_delete k rest
  end.

(** ** Condition expressions

    The expressions the managers use, as syntax trees:
    ['event = :event'], ['#ttl > :time OR attribute_not_exists(#ttl)'],
    ['subscriptionId = :id'], ['begins_with(subscriptionId, :connection_id)'].
    A path is an attribute name or a [#name] placeholder; a value is a
    [:name] placeholder. *)
Inductive Operand : Type :=
| Path (name : string)
| Value (placeholder : string).

Inductive Condition : Type :=
| Equals (a b : Operand)
| GreaterThan (a b : Operand)
| OR (c1 c2 : Condition)
| attribute_not_exists (path : string)
| begins_with (a b : Operand).

Section Conditions.
Variable ExpressionAttributeNames : list (string * string).
Variable ExpressionAttributeValues : Item.
Variable item : Item.

Definition resolve_path (path : string) : string :=
  default path (assoc path ExpressionAttributeNames).

Definition operand (o : Operand) : option AttributeValue :=
  match o with
  | Path p => assoc (resolve_path p) item
  | Value v => assoc v ExpressionAttributeValues
  end.

(** Comparisons hold between two values of one scalar type only. *)
Definition av_equal (a b : AttributeValue) : bool :=
  match a, b with
  | AV_S x, AV_S y => String.eqb x y
  | AV_N x, AV_N y => (x =? y)%Z
  | AV_BOOL x, AV_BOOL y => Bool.eqb x y
  | AV_NULL, AV_NULL => true
  | _, _ => false
  end.

Definition av_greater (a b : AttributeValue) : bool :=
  match a, b with
  | AV_S x, AV_S y => String.ltb y x
  | AV_N x, AV_N y => (y <? x)%Z
  | _, _ => false
  end.

Definition av_begins_with (a b : AttributeValue) : bool :=
  match a, b with
  | AV_S x, AV_S p => String.prefix p x
  | _, _ => false
  end.

Definition compare_with (f : AttributeValue → AttributeValue → bool)
  (a b : Operand) : bool :=
  match operand a, operand b with
  | Some x, Some y => f x y
  | _, _ => false
  end.

Fixpoint holds (c : Condition) : bool :=
  match c with
  | Equals a b => compare_with av_equal a b
  | GreaterThan a b => compare_with av_greater a b
  | OR c1 c2 => holds c1 || holds c2
  | attribute_not_exists p =>
      match assoc (resolve_path p) item with None => true | Some _ => false end
  | begins_with a b => compare_with av_begins_with a b
  end.
End Conditions.

(** ** Commands *)

(** The input of [QueryCommand] and [ScanCommand]. *)
Record ReadInput := {
  TableName : string;
  ExclusiveStartKey : option Item;
  Limit : option nat;
  KeyConditionExpression : option Condition;
  FilterExpression : option Condition;
  ExpressionAttributeValues : Item;
  ExpressionAttributeNames : list (string * string);
}.

Record PageOutput := {
  Items : option (list Item);
  LastEvaluatedKey : option Item;
}.

Inductive WriteRequest : Type :=
| PutRequest (item : Item)
| DeleteRequest (key : Item).

Inductive TransactWriteItem : Type :=
| Put (table : string) (item : Item)
| Delete (table : string) (key : Item).

Inductive Command : Type → Type :=
| GetItemCommand (table : string) (key : Item) : Command (option Item)
| PutItemCommand (table : string) (item : Item) : Command unit
| DeleteItemCommand (table : string) (key : Item) : Command unit
| QueryCommand (input : ReadInput) : Command PageOutput
| ScanCommand (input : ReadInput) : Command PageOutput
| BatchWriteItemCommand (RequestItems : list (string * list WriteRequest))
    : Command unit
| TransactWriteItemsCommand (TransactItems : list TransactWriteItem)
    : Command unit.

(** ** What the store does with a command

    The contract of the store: point get, put (full overwrite) and delete by
    key; a batch of writes, processed request by request and possibly only
    in part; a transaction of writes, all or nothing; one page of a query or
    a scan, with a cursor when the page stopped at its limit.  Request-size
    quotas are not modelled.

    What can go wrong at the store is scripted command by command. *)
Inductive Fault : Type :=
| Healthy
| Unavailable                    (* timeout, throttling, network fault *)
| Stale (seen : option Item)     (* an eventually consistent read *)
| Partial (processed : nat).     (* interrupted after that many writes *)

Abbreviation Tables := (gmap string Table).

(** A validated write: table, key, and the item put ([None]: a delete). *)
Definition Write := (string * Key * option Item)%type.

Definition resolve_write (ts : Tables) (table : string) (r : WriteRequest)
  : Outcome Write :=
  match ts !! table with
  | None => Throw ResourceNotFoundException
  | Some t =>
      match r with
      | PutRequest item =>
          match item_key (Schema t) item with
          | Some k => Ok (table, k, Some item)
          | None => Throw ValidationException
          end
      | DeleteRequest key =>
          match request_key (Schema t) key with
          | Some k => Ok (table, k, None)
          | None => Throw ValidationException
          end
      end
  end.

Fixpoint sequence {A} (l : list (Outcome A)) : Outcome (list A) :=
  match l with
  | [] => Ok []
  | Throw e :: _ => Throw e
  | Ok a :: rest =>
      match sequence rest with
      | Ok l' => Ok (a :: l')
      | Throw e => Throw e
      end
  end.

Definition resolve_writes (ts : Tables) (rs : list (string * WriteRequest))
  : Outcome (list Write) :=
  sequence (map (λ tr, resolve_write ts tr.1 tr.2) rs).

Definition apply_write (ts : Tables) (w : Write) : Tables :=
  let '(table, k, v) := w in
  match ts !! table with
  | None => ts
  | Some t =>
      <[table := {| Schema := Schema t;
                    TableRows :=
                      match v with
                      | Some item => rows_put k item (TableRows t)
                      | None => rows_delete k (TableRows t)
                      end |}]> ts
  end.

Definition apply_writes (ts : Tables) (ws : list Write) : Tables :=
  foldl apply_write ts ws.

Definition batch_requests (RequestItems : list (string * list WriteRequest))
  : list (string * WriteRequest) :=
  flat_map (λ tr, map (pair tr.1) tr.2) RequestItems.

Definition transact_request (i : TransactWriteItem) : string * WriteRequest :=
  match i with
  | Put table item => (table, PutRequest item)
  | Delete table key => (table, DeleteRequest key)
  end.

(** One page.  [Limit] bounds the rows evaluated, before the filter is
    applied; a page that stopped at the limit carries the key of the last
    row evaluated. *)
Definition after (start : option Key) (k : Key) : bool :=
  match start with
  | None => true
  | Some s => match key_compare s k with Lt => true | _ => false end
  end.

Definition satisfies (i : ReadInput) (c : option Condition) (item : Item)
  : bool :=
  match c with
  | None => true
  | Some c =>
      holds (ExpressionAttributeNames i) (ExpressionAttributeValues i) item c
  end.

Definition page_of (t : Table) (i : ReadInput) (start : option Key)
  : PageOutput :=
  let candidates :=
    List.filter
      (λ row, after start row.1 && satisfies i (KeyConditionExpression i) row.2)
      (TableRows t) in
  let evaluated :=
    match Limit i with
    | Some n => take n candidates
    | None => candidates
    end in
  {| Items :=
       Some (List.filter (satisfies i (FilterExpression i)) (map snd evaluated));
     LastEvaluatedKey :=
       match Limit i with
       | Some n =>
           if decide (length evaluated = n)
           then (λ row, key_item (Schema t) row.1) <$> last evaluated
           else None
       | None => None
       end |}.

Definition read_page (ts : Tables) (i : ReadInput) : Outcome PageOutput :=
  match ts !! TableName i with
  | None => Throw ResourceNotFoundException
  | Some t =>
      match ExclusiveStartKey i with
      | None => Ok (page_of t i None)
      | Some k =>
          match request_key (Schema t) k with
          | Some start => Ok (page_of t i (Some start))
          | None => Throw ValidationException
          end
      end
  end.

Definition exec {O} (f : Fault) (ts : Tables) (c : Command O)
  : Outcome O * Tables :=
  match f with
  | Unavailable => (Throw ServiceUnavailable, ts)
  | _ =>
      match c in Command O return Outcome O * Tables with
      | GetItemCommand table key =>
          match ts !! table with
          | None => (Throw ResourceNotFoundException, ts)
          | Some t =>
              match request_key (Schema t) key with
              | None => (Throw ValidationException, ts)
              | Some k =>
                  match f with
                  | Stale seen => (Ok seen, ts)
                  | _ => (Ok (rows_get k (TableRows t)), ts)
                  end
              end
          end
      | PutItemCommand table item =>
          match resolve_write ts table (PutRequest item) with
          | Ok w => (Ok (), apply_write ts w)
          | Throw e => (Throw e, ts)
          end
      | DeleteItemCommand table key =>
          match resolve_write ts table (DeleteRequest key) with
          | Ok w => (Ok (), apply_write ts w)
          | Throw e => (Throw e, ts)
          end
      | QueryCommand input => (read_page ts input, ts)
      | ScanCommand input => (read_page ts input, ts)
      | BatchWriteItemCommand RequestItems =>
          match resolve_writes ts (batch_requests RequestItems) with
          | Ok ws =>
              match f with
              | Partial n => (Ok (), apply_writes ts (take n ws))
              | _ => (Ok (), apply_writes ts ws)
              end
          | Throw e => (Throw e, ts)
          end
      | TransactWriteItemsCommand TransactItems =>
          match resolve_writes ts (map transact_request TransactItems) with
          | Ok ws =>
              match f with
              | Partial _ => (Throw TransactionCanceledException, ts)
              | _ => (Ok (), apply_writes ts ws)
              end
          | Throw e => (Throw e, ts)
          end
      end
  end.

(** ** The world the managers run in *)

Inductive Request : Type :=
| Req {O} (c : Command O).

(** The client pushes go through: the one given to the constructor, or one
    built for an endpoint. *)
Inductive ApiClient : Type :=
| CustomClient
| ClientFor (endpoint : JsRef).

Inductive Effect : Type :=
| Sent (r : Request)                            (* this.db.send(command) *)
| Waited (ms : Z)                               (* setTimeout *)
| Logged (level message : string) (arg : JsRef)         (* console.<level> *)
| LoggedError (level message : string) (e : Exception)
| Posted (client : ApiClient) (ConnectionId : JsRef) (Data : JsVal).
                                                (* PostToConnectionCommand *)

Record World := {
  tables : Tables;
  faults : list Fault;            (* the store's faults, one per command *)
  gateway : list (option JsVal);  (* each push to come: delivered, or thrown *)
  apiGatewayManager : option ApiClient;  (* the connection manager's field *)
  trace : list Effect;            (* what was done, latest first *)
}.

Definition Eff (A : Type) : Type := World → Outcome A * World.

Definition ret {A} (a : A) : Eff A := λ w, (Ok a, w).
Definition throw {A} (e : Exception) : Eff A := λ w, (Throw e, w).
Definition bind {A B} (m : Eff A) (k : A → Eff B) : Eff B :=
  λ w, match m w with
       | (Ok a, w') => k a w'
       | (Throw e, w') => (Throw e, w')
       end.
Definition lift {A} (o : Outcome A) : Eff A := λ w, (o, w).

(** [try { body } catch (e) { handler e }]. *)
Definition try_catch {A} (body : Eff A) (handler : Exception → Eff A) : Eff A :=
  λ w, match body w with
       | (Ok a, w') => (Ok a, w')
       | (Throw e, w') => handler e w'
       end.

Definition effect (e : Effect) : Eff unit :=
  λ w, (Ok (), {| tables := tables w; faults := faults w;
                 gateway := gateway w;
                 apiGatewayManager := apiGatewayManager w;
                 trace := e :: trace w |}).

(** [member(base, name)] is [base.name]: a [TypeError] when [base] is
    [undefined] or [null]. *)
Definition member (base : JsRef) (name : string) : Outcome JsRef :=
  match base with
  | None | Some JNull =>
      Throw (TypeError ("Cannot read properties of undefined (reading '"
                          +:+ name +:+ "')"))
  | Some v => Ok (prop name v)
  end.

(** A string argument. *)
Definition str (s : string) : JsRef := Some (JStr s).

(** An object literal with computed keys, [{[k1]: v1, [k2]: v2}]: a later
    key that repeats an earlier one replaces its value. *)
Definition object_literal {A} (entries : list (string * A)) : list (string * A) :=
  Object_assign [] entries.

(** The interface a connection manager uses of its subscription manager. *)
Record ISubscriptionManager := {
  ISubscriptionManager_unsubscribeAllByConnectionId : JsRef → Eff unit;
}.

(** The fault the next command meets; none is scripted: none occurs. *)
Definition next_fault (w : World) : Fault := default Healthy (head (faults w)).

(** The row a table holds under a key. *)
Definition row_at (ts : Tables) (table : string) (k : Key) : option Item :=
  t ← ts !! table; rows_get k (TableRows t).

(** [await this.db.send(command)]. *)
Definition send {O} (c : Command O) : Eff O :=
  λ w,
    let '(r, ts) := exec (next_fault w) (tables w) c in
    (r, {| tables := ts; faults := tail (faults w);
           gateway := gateway w;
           apiGatewayManager := apiGatewayManager w;
           trace := Sent (Req c) :: trace w |}).

(** ** UpdateItemCommand

    The one command that changes a row in place.  Its update expression,
    ['set #data = :data'], as a syntax tree.  The store sets the attribute
    on the row under the key and keeps the row's other attributes; when
    there is no row under the key it creates one, of the key and the
    attribute.  A key attribute cannot be set.

    The trace lists the commands of [Command]; an update is carried out
    by [send_update] and leaves no entry there. *)
Module Update.
Inductive Expression : Type :=
| SET (path value : string).

Record Input := {
  TableName : string;
  Key : Item;
  UpdateExpression : Expression;
  ExpressionAttributeValues : Item;
  ExpressionAttributeNames : list (string * string);
}.
End Update.

Definition exec_update (f : Fault) (ts : Tables) (i : Update.Input)
  : Outcome unit * Tables :=
  match f with
  | Unavailable => (Throw ServiceUnavailable, ts)
  | _ =>
      match ts !! Update.TableName i with
      | None => (Throw ResourceNotFoundException, ts)
      | Some t =>
          match request_key (Schema t) (Update.Key i),
                Update.UpdateExpression i with
          | None, _ => (Throw ValidationException, ts)
          | Some k, Update.SET path value =>
              let name := resolve_path (Update.ExpressionAttributeNames i) path in
              match assoc value (Update.ExpressionAttributeValues i) with
              | None => (Throw ValidationException, ts)
              | Some v =>
                  if bool_decide (name ∈ key_names (Schema t))
                  then (Throw ValidationException, ts)
                  else
                    let old := default (Update.Key i) (rows_get k (TableRows t)) in
                    (Ok (),
                     apply_write ts
                       (Update.TableName i, k, Some (assign1 old name v)))
              end
          end
      end
  end.

(** [await this.db.send(new UpdateItemCommand(input))]. *)
Definition send_update (i : Update.Input) : Eff unit :=
  λ w,
    let '(r, ts) := exec_update (next_fault w) (tables w) i in
    (r, {| tables := ts; faults := tail (faults w);
           gateway := gateway w;
           apiGatewayManager := apiGatewayManager w;
           trace := trace w |}).

End Dynamo.

Declare Scope eff_scope.
Delimit Scope eff_scope with eff.
Notation "'let!' x ':=' m 'in' k" := (Dynamo.bind m (λ x, k))
  (at level 10, x pattern, m at level 100, k at level 200) : eff_scope.
Notation "m ';;;' k" := (Dynamo.bind m (λ _, k))
  (at level 100, k at level 200, right associativity) : eff_scope.

(* ===================================================================== *)
(** * The repository's helpers *)
(* ===================================================================== *)

Module Helpers.
Import Js.

(** [Math.round(ms / 1000)], for a clock reading in milliseconds: the
    nearest second, halves upwards. *)
Definition round_seconds (ms : Z) : Z := (ms + 500) / 1000.

(** Modelled from the spec: [helpers/computeTTL] is not among the sources.
    The spec has "a fresh ttl lease", a "ttl lease in seconds" and a [ttl]
    field in epoch seconds: the lease ends [ttl] seconds after the clock
    reading [now] (milliseconds). *)
Definition computeTTL (now : Z) (ttl : Z) : Z := round_seconds now + ttl.

(** Modelled from the spec: [helpers/isTTLExpired] is not among the sources.
    The spec has "ttl absent/false means no expiry" and a row counting as
    gone once "its ttl has already elapsed": a numeric [ttl], in epoch
    seconds, lies before the clock reading [now] (milliseconds). *)
Definition isTTLExpired (now : Z) (ttl : JsRef) : bool :=
  match ttl with
  | Some (JNum t) => (t * 1000 <? now)%Z
  | _ => false
  end.

End Helpers.

(* ===================================================================== *)
(** * DynamoDBRangeSubscriptionManager *)
(* ===================================================================== *)

Module Subscriptions.
Import Js Dynamo Helpers.
Local Open Scope eff_scope.

(** The fields the constructor sets.  [ttl] is a number of seconds, or
    [None] for [false]. *)
Record Manager := {
  subscriptionsTableName : string;
  subscriptionOperationsTableName : string;
  ttl : option Z;
  getSubscriptionNameFromEvent : JsVal → Outcome JsRef;
}.

Definition DEFAULT_TTL : Z := 7200.

(** The constructor's defaults. *)
Definition default_manager : Manager := {|
  subscriptionsTableName := "Subscriptions";
  subscriptionOperationsTableName := "SubscriptionOperations";
  ttl := Some DEFAULT_TTL;
  getSubscriptionNameFromEvent := λ event, member (Some event) "event";
|}.

(** The table structures the class comment documents. *)
Definition Subscriptions_schema : KeySchema :=
  {| HASH := "event"; RANGE := Some "subscriptionId" |}.
Definition SubscriptionOperations_schema : KeySchema :=
  {| HASH := "subscriptionId"; RANGE := Some "event" |}.

Definition generateSubscriptionId (connectionId operationId : JsRef) : string :=
  template connectionId +:+ ":" +:+ template operationId.

Section Manager.
Variable this : Manager.

(** *** subscribersByEvent

    The iterator object: the closure variables [ExclusiveStartKey],
    [done] and [name]. *)
Record Iterator := {
  name : JsRef;
  cursor : option Item;     (* ExclusiveStartKey *)
  done : bool;
}.

Record IteratorResult := {
  value : list JsVal;
  result_done : bool;       (* the [done] of the object returned *)
}.

Definition subscribersByEvent (event : JsVal) : Outcome Iterator :=
  match getSubscriptionNameFromEvent this event with
  | Ok name => Ok {| name := name; cursor := None; done := false |}
  | Throw e => Throw e
  end.

(** [next()], at clock reading [now]; the iterator comes back with its
    closure variables as the call left them. *)
Definition next (now : Z) (it : Iterator) : Eff (IteratorResult * Iterator) :=
  if done it then ret ({| value := []; result_done := true |}, it)
  else
    let time := round_seconds now in
    let! values :=
      lift (marshall [(":event", name it); (":time", Some (JNum time))]) in
    let! result :=
      send (QueryCommand {|
        ExclusiveStartKey := cursor it;
        TableName := subscriptionsTableName this;
        Limit := Some 50%nat;
        KeyConditionExpression := Some (Equals (Path "event") (Value ":event"));
        FilterExpression :=
          Some (OR (GreaterThan (Path "#ttl") (Value ":time"))
                   (attribute_not_exists "#ttl"));
        ExpressionAttributeValues := values;
        ExpressionAttributeNames := [("#ttl", "ttl")];
      |}) in
    let it' :=
      {| name := name it;
         cursor := LastEvaluatedKey result;
         done := match LastEvaluatedKey result with
                 | None => true
                 | Some _ => done it
                 end |} in
    let value :=
      match Items result with
      | Some items => map unmarshall items
      | None => []
      end in
    ret ({| value := value;
            result_done := bool_decide (length value = 0%nat) |}, it').

(** [for await (const page of iterator)]: the pages a consumer receives,
    [next] being called until a result says [done]; the value that comes
    with [done] is not a page.  At most [calls] calls are made. *)
Fixpoint for_await (calls : nat) (now : Z) (it : Iterator)
  : Eff (list (list JsVal)) :=
  match calls with
  | O => throw StillRunning
  | S calls' =>
      let! (r, it') := next now it in
      if result_done r then ret []
      else
        let! rest := for_await calls' now it' in
        ret (value r :: rest)
  end.

(** *** subscribe *)
Definition ttlField (now : Z) : list (string * JsRef) :=
  match ttl this with
  | None => []
  | Some seconds => [("ttl", Some (JNum (computeTTL now seconds)))]
  end.

Definition subscribe (now : Z) (names : list string)
  (connection operation : JsVal) : Eff unit :=
  let! id := lift (member (Some connection) "id") in
  let! operationId := lift (member (Some operation) "operationId") in
  let subscriptionId := generateSubscriptionId id operationId in
  let ttlField := ttlField now in
  let! primary :=
    lift (sequence (map (λ name,
      marshall (Object_assign
        [("connection", Some connection);
         ("operation", Some operation);
         ("event", str name);
         ("subscriptionId", str subscriptionId);
         ("operationId", operationId)] ttlField)) names)) in
  let! secondary :=
    lift (sequence (map (λ name,
      marshall (Object_assign
        [("subscriptionId", str subscriptionId);
         ("event", str name)] ttlField)) names)) in
  send (BatchWriteItemCommand (object_literal
    [(subscriptionsTableName this, map PutRequest primary);
     (subscriptionOperationsTableName this, map PutRequest secondary)])).

(** *** unsubscribe *)
Definition unsubscribe (subscriber : JsVal) : Eff unit :=
  let! connection := lift (member (Some subscriber) "connection") in
  let! id := lift (member connection "id") in
  let subscriptionId :=
    generateSubscriptionId id (prop "operationId" subscriber) in
  let! key1 :=
    lift (marshall [("event", prop "event" subscriber);
                    ("subscriptionId", str subscriptionId)]) in
  let! key2 :=
    lift (marshall [("subscriptionId", str subscriptionId);
                    ("event", prop "event" subscriber)]) in
  send (TransactWriteItemsCommand
    [Delete (subscriptionsTableName this) key1;
     Delete (subscriptionOperationsTableName this) key2]).

(** The delete requests both bulk operations build from the items of a
    page.  They use the items as the store returned them, still marshalled
    ([subscribersByEvent] and [hydrateConnection] unmarshall theirs):
    [item.event] is the attribute value [{S: name}], which [marshall] wraps
    once more, into [{M: {S: {S: name}}}]. *)
Definition delete_requests (items : list Item)
  : Eff (list (string * list WriteRequest)) :=
  let! primary :=
    lift (sequence (map (λ item,
      marshall [("event", raw_prop "event" item);
                ("subscriptionId", raw_prop "subscriptionId" item)]) items)) in
  let! secondary :=
    lift (sequence (map (λ item,
      marshall [("subscriptionId", raw_prop "subscriptionId" item);
                ("event", raw_prop "event" item)]) items)) in
  ret (object_literal
    [(subscriptionsTableName this, map DeleteRequest primary);
     (subscriptionOperationsTableName this, map DeleteRequest secondary)]).

(** *** unsubscribeOperation *)
Definition unsubscribeOperation (connectionId operationId : JsRef) : Eff unit :=
  let! values :=
    lift (marshall
      [(":id", str (generateSubscriptionId connectionId operationId))]) in
  let! operation :=
    send (QueryCommand {|
      TableName := subscriptionOperationsTableName this;
      KeyConditionExpression :=
        Some (Equals (Path "subscriptionId") (Value ":id"));
      ExpressionAttributeValues := values;
      ExclusiveStartKey := None;
      Limit := None;
      FilterExpression := None;
      ExpressionAttributeNames := [];
    |}) in
  match Items operation with
  | Some items =>
      let! requests := delete_requests items in
      send (BatchWriteItemCommand requests)
  | None => ret ()
  end.

(** *** unsubscribeAllByConnectionId

    The [do ... while (cursor)] loop, cut off after [steps] rounds. *)
Fixpoint unsubscribeAll_loop (steps : nat) (connectionId : JsRef)
  (cursor : option Item) : Eff unit :=
  match steps with
  | O => throw StillRunning
  | S steps' =>
      let! values := lift (marshall [(":connection_id", connectionId)]) in
      let! page :=
        send (ScanCommand {|
          TableName := subscriptionsTableName this;
          ExclusiveStartKey := cursor;
          FilterExpression :=
            Some (begins_with (Path "subscriptionId") (Value ":connection_id"));
          ExpressionAttributeValues := values;
          Limit := Some 12%nat;
          KeyConditionExpression := None;
          ExpressionAttributeNames := [];
        |}) in
      match Items page with
      | None | Some [] => ret ()
      | Some items =>
          let! requests := delete_requests items in
          send (BatchWriteItemCommand requests) ;;;
          match LastEvaluatedKey page with
          | Some cursor' => unsubscribeAll_loop steps' connectionId (Some cursor')
          | None => ret ()
          end
      end
  end.

(** Every round but the last moves the cursor past at least one row of
    the table, so one round more than the table has rows is enough. *)
Definition rounds (w : World) : nat :=
  match tables w !! subscriptionsTableName this with
  | Some t => S (length (TableRows t))
  | None => 1
  end.

Definition unsubscribeAllByConnectionId (connectionId : JsRef) : Eff unit :=
  λ w, unsubscribeAll_loop (rounds w) connectionId None w.

Definition as_ISubscriptionManager : ISubscriptionManager :=
  {| ISubscriptionManager_unsubscribeAllByConnectionId :=
       unsubscribeAllByConnectionId |}.

End Manager.

(** *** The constructor

    Its options, each one possibly [undefined]; a parameter that is
    [undefined] takes its default.  The assertions are made in the order of
    the source; [typeof x === 'string'] holds of the strings and binds the
    table name.  The store client becomes the world the methods run in. *)
Module Options.
Record t := {
  dynamoDbClient : JsRef;
  subscriptionsTableName : JsRef;
  subscriptionOperationsTableName : JsRef;
  ttl : JsRef;
  getSubscriptionNameFromEvent : option (JsVal → Outcome JsRef);
}.
End Options.

(** [new DynamoDBRangeSubscriptionManager()]: no option given. *)
Definition no_options : Options.t :=
  {| Options.dynamoDbClient := None;
     Options.subscriptionsTableName := None;
     Options.subscriptionOperationsTableName := None;
     Options.ttl := None;
     Options.getSubscriptionNameFromEvent := None |}.

Inductive Constructed (A : Type) : Type :=
| Built (a : A)
| AssertionError (message : string).
Arguments Built {A} a.
Arguments AssertionError {A} message.

Definition new (options : Options.t) : Constructed Manager :=
  let subscriptionsTableName :=
    default (JStr "Subscriptions") (Options.subscriptionsTableName options) in
  let subscriptionOperationsTableName :=
    default (JStr "SubscriptionOperations")
      (Options.subscriptionOperationsTableName options) in
  let ttl := default (JNum DEFAULT_TTL) (Options.ttl options) in
  let getSubscriptionNameFromEvent :=
    default (λ event, member (Some event) "event")
      (Options.getSubscriptionNameFromEvent options) in
  match subscriptionOperationsTableName with
  | JStr operations =>
      match subscriptionsTableName with
      | JStr subscriptions =>
          match
            match ttl with
            | JBool false => Some None
            | JNum seconds => if (0 <? seconds)%Z then Some (Some seconds) else None
            | _ => None
            end
          with
          | Some ttl =>
              if match Options.dynamoDbClient options with
                 | None | Some JNull => true
                 | client => String.eqb (typeof client) "object"
                 end
              then Built {| subscriptionsTableName := subscriptions;
                            subscriptionOperationsTableName := operations;
                            ttl := ttl;
                            getSubscriptionNameFromEvent :=
                              getSubscriptionNameFromEvent |}
              else AssertionError
                     "Please provide dynamoDbClient as an instance of DynamoDB.DocumentClient"
          | None =>
              AssertionError
                "Please provide ttl as a number greater than 0 or false to turn it off"
          end
      | _ => AssertionError "Please provide subscriptionsTableName as a string"
      end
  | _ =>
      AssertionError "Please provide subscriptionOperationsTableName as a string"
  end.

End Subscriptions.

(* ===================================================================== *)
(** * DynamoDBConnectionManager *)
(* ===================================================================== *)

Module Connections.
Import Js Dynamo Helpers.
Local Open Scope eff_scope.

(** The fields the constructor sets, but for [apiGatewayManager], which
    [createApiGatewayManager] assigns later and which lives in the world. *)
Record Manager := {
  connectionsTable : string;
  subscriptions : ISubscriptionManager;
  ttl : option Z;
  debug : bool;
}.

(** The connections table is keyed by [id]. *)
Definition Connections_schema : KeySchema := {| HASH := "id"; RANGE := None |}.

Record HydrateConnectionOptions := {
  retryCount : option Z;
  timeout : option Z;
}.

Section Manager.
Variable this : Manager.

(** *** hydrateConnection

    The [for (let i = 0; i <= retryCount; i++)] loop, by the number of
    rounds it has left: [Some connection] when a lookup found a row. *)
Fixpoint lookups (rounds : nat) (connectionId : JsRef) (timeout : Z)
  : Eff (option JsVal) :=
  match rounds with
  | O => ret None
  | S rounds' =>
      let! key := lift (marshall [("id", connectionId)]) in
      let! result := send (GetItemCommand (connectionsTable this) key) in
      match result with
      | Some item => ret (Some (unmarshall item))
      | None =>
          effect (Waited timeout) ;;;
          lookups rounds' connectionId timeout
      end
  end.

Definition hydrateConnection (now : Z) (connectionId : JsRef)
  (options : option HydrateConnectionOptions) : Eff JsVal :=
  let retryCount := default 0 (options ≫= retryCount) in
  let timeout := default 50 (options ≫= timeout) in
  let! connection := lookups (Z.to_nat (retryCount + 1)) connectionId timeout in
  match connection with
  | Some connection =>
      if isTTLExpired now (prop "ttl" connection)
      then throw (ConnectionNotFoundError
                    ("Connection " +:+ template connectionId +:+ " not found"))
      else ret connection
  | None =>
      throw (ConnectionNotFoundError
               ("Connection " +:+ template connectionId +:+ " not found"))
  end.

(** *** registerConnection

    [now] is the clock reading, [createdAt] what [new Date().toString()]
    prints for it. *)
Definition registerConnection (now : Z) (createdAt : string)
  (connectionId endpoint : string) : Eff JsVal :=
  let data :=
    JObj [("endpoint", JStr endpoint);
          ("context", JObj []);
          ("isInitialized", JBool false)] in
  let connection := JObj [("id", JStr connectionId); ("data", data)] in
  (if debug this
   then effect (Logged "log" ("Connected " +:+ connectionId) (Some data))
   else ret ()) ;;;
  let! item :=
    lift (marshall (Object_assign
      [("createdAt", str createdAt);
       ("id", prop "id" connection);
       ("data", prop "data" connection)]
      match ttl this with
      | None => []
      | Some seconds => [("ttl", Some (JNum (computeTTL now seconds)))]
      end)) in
  send (PutItemCommand (connectionsTable this) item) ;;;
  ret connection.

(** *** createApiGatewayManager *)
Definition createApiGatewayManager (endpoint : JsRef) : Eff ApiClient :=
  λ w,
    match apiGatewayManager w with
    | Some client => (Ok client, w)
    | None =>
        (Ok (ClientFor endpoint),
         {| tables := tables w; faults := faults w; gateway := gateway w;
            apiGatewayManager := Some (ClientFor endpoint);
            trace := trace w |})
    end.

(** [await client.send(new PostToConnectionCommand({ConnectionId, Data}))]:
    the push is delivered or throws, as the gateway decides. *)
Definition post (client : ApiClient) (ConnectionId : JsRef) (Data : JsVal)
  : Eff unit :=
  λ w,
    let w' := {| tables := tables w; faults := faults w;
                 gateway := tail (gateway w);
                 apiGatewayManager := apiGatewayManager w;
                 trace := Posted client ConnectionId Data :: trace w |} in
    match head (gateway w) with
    | Some (Some e) => (Throw (TransportFailure e), w')
    | _ => (Ok (), w')
    end.

(** *** unregisterConnection

    [Promise.all] of the row's deletion and the subscriptions' cleanup:
    both run to their end, on tables of their own; a failure, if any, is
    what the caller gets.  When both fail, [Promise.all] rejects with the
    failure that comes first in time; here it is the deletion's, and the
    properties are stated for either. *)
Definition Promise_all (p1 p2 : Eff unit) : Eff unit :=
  λ w,
    let '(r1, w1) := p1 w in
    let '(r2, w2) := p2 w1 in
    match r1, r2 with
    | Throw e, _ => (Throw e, w2)
    | Ok _, Throw e => (Throw e, w2)
    | Ok _, Ok _ => (Ok (), w2)
    end.

Definition unregisterConnection (connection : JsVal) : Eff unit :=
  let! id := lift (member (Some connection) "id") in
  let! key := lift (marshall [("id", id)]) in
  Promise_all
    (send (DeleteItemCommand (connectionsTable this) key))
    (ISubscriptionManager_unsubscribeAllByConnectionId (subscriptions this) id).

(** *** sendToConnection *)

(** [e && e.statusCode === 410]. *)
Definition gone (e : Exception) : bool :=
  match e with
  | TransportFailure v =>
      truthy v &&
      match prop "statusCode" v with
      | Some (JNum 410) => true
      | _ => false
      end
  | _ => false
  end.

Definition sendToConnection (connection : JsVal) (payload : JsVal) : Eff unit :=
  try_catch
    (let! data := lift (member (Some connection) "data") in
     let! endpoint := lift (member data "endpoint") in
     effect (Logged "debug" "=== sendToConnection" endpoint) ;;;
     let! client := createApiGatewayManager endpoint in
     post client (prop "id" connection) payload)
    (λ e,
       if gone e then unregisterConnection connection
       else effect (LoggedError "warn" "=== error in sendToConnection" e)).

(** *** setConnectionData

    The second parameter is the pattern [{ id }]. *)
Definition setConnectionData (data : JsRef) (connection : JsVal) : Eff unit :=
  let! id := lift (member (Some connection) "id") in
  let! key := lift (marshall [("id", id)]) in
  let! values := lift (marshall [(":data", data)]) in
  send_update {|
    Update.TableName := connectionsTable this;
    Update.Key := key;
    Update.UpdateExpression := Update.SET "#data" ":data";
    Update.ExpressionAttributeValues := values;
    Update.ExpressionAttributeNames := [("#data", "data")];
  |}.

(** *** closeConnection

    [await client.send(new DeleteConnectionCommand({ConnectionId}))]: the
    gateway closes the socket or throws; it is the next thing the gateway
    is asked, after the pushes made so far.  The parameter is the pattern
    [{ id, data }]. *)
Definition delete_connection (client : ApiClient) (ConnectionId : JsRef)
  : Eff unit :=
  λ w,
    let w' := {| tables := tables w; faults := faults w;
                 gateway := tail (gateway w);
                 apiGatewayManager := apiGatewayManager w;
                 trace := trace w |} in
    match head (gateway w) with
    | Some (Some e) => (Throw (TransportFailure e), w')
    | _ => (Ok (), w')
    end.

Definition closeConnection (connection : JsVal) : Eff unit :=
  let! id := lift (member (Some connection) "id") in
  let! data := lift (member (Some connection) "data") in
  (if debug this
   then effect (Logged "log" "Disconnected " id)
   else ret ()) ;;;
  let! endpoint := lift (member data "endpoint") in
  let! client := createApiGatewayManager endpoint in
  delete_connection client id.

End Manager.

End Connections.

(* ===================================================================== *)
(** * DynamoDBEventStore *)
(* ===================================================================== *)

Module Events.
Import Js Dynamo Helpers.
Local Open Scope eff_scope.

(** The fields the constructor sets. *)
Record Store := {
  tableName : string;
  ttl : option Z;
}.

Section Store.
Variable this : Store.

(** [publish(event)], for an event object with these properties; [now] is
    the clock reading and [id] what [ulid()] returned. *)
Definition publish (now : Z) (id : string) (event : list (string * JsVal))
  : Eff unit :=
  let! item :=
    lift (marshall (Object_assign
      (Object_assign [("id", str id)] (map (λ kv, (kv.1, Some kv.2)) event))
      match ttl this with
      | None => []
      | Some seconds => [("ttl", Some (JNum (computeTTL now seconds)))]
      end)) in
  send (PutItemCommand (tableName this) item).

End Store.

End Events.

(* ===================================================================== *)
(** * Vocabulary of the properties *)
(* ===================================================================== *)

Import Js Dynamo Helpers.

(** How a batch or a transaction folds into the row under one key: the
    last write to that key decides. *)
Definition overwrite (table : string) (k : Key) (cur : option Item) (w : Write)
  : option Item :=
  if decide (w.1.1 = table ∧ w.1.2 = k) then w.2 else cur.

(** The next command is carried out in full. *)
Definition in_full (f : Fault) : Prop :=
  match f with
  | Healthy | Stale _ => True
  | Unavailable | Partial _ => False
  end.

(** The failures of the store itself. *)
Definition store_exception (e : Exception) : Prop :=
  match e with
  | ValidationException | ResourceNotFoundException
  | ServiceUnavailable | TransactionCanceledException => True
  | _ => False
  end.

(** The failures a manager's store operations can end with: anything but a
    failed push or a loop cut off. *)
Definition quiet (e : Exception) : Prop :=
  match e with
  | TransportFailure _ | StillRunning => False
  | _ => True
  end.

(** The number of pushes in a trace. *)
Definition pushes (t : list Effect) : nat :=
  length (List.filter (λ e, match e with Posted _ _ _ => true | _ => false end) t).

(** A key all of whose attributes are maps: what marshalling an item's raw
    attributes gives. *)
Definition all_maps (k : Item) : Prop := Forall (λ kv, ∃ m, kv.2 = AV_M m) k.

Section Indexes.
Variable this : Subscriptions.Manager.

(** The two index tables exist, under two names, with the structure the
    class comment documents. *)
Definition indexes_ready (ts : Tables) : Prop :=
  Subscriptions.subscriptionsTableName this
    ≠ Subscriptions.subscriptionOperationsTableName this
  ∧ Schema <$> ts !! Subscriptions.subscriptionsTableName this
    = Some Subscriptions.Subscriptions_schema
  ∧ Schema <$> ts !! Subscriptions.subscriptionOperationsTableName this
    = Some Subscriptions.SubscriptionOperations_schema.

(** The primary (by-event) and secondary (by-subscriptionId) rows of a
    pair. *)
Definition primary_row (ts : Tables) (event subscriptionId : string)
  : option Item :=
  row_at ts (Subscriptions.subscriptionsTableName this) [event; subscriptionId].

Definition secondary_row (ts : Tables) (subscriptionId event : string)
  : option Item :=
  row_at ts (Subscriptions.subscriptionOperationsTableName this)
    [subscriptionId; event].

(** The cross-index invariant: a pair present in one index is present in
    the other, with the same ttl. *)
Definition index_consistent (ts : Tables) : Prop :=
  ∀ event subscriptionId,
    match primary_row ts event subscriptionId,
          secondary_row ts subscriptionId event with
    | Some r1, Some r2 => assoc "ttl" r1 = assoc "ttl" r2
    | None, None => True
    | _, _ => False
    end.

(** The ttl attribute a row written at clock reading [now] carries. *)
Definition lease (now : Z) : option AttributeValue :=
  (λ seconds, AV_N (computeTTL now seconds)) <$> Subscriptions.ttl this.
End Indexes.

Section Hydration.
Variable this : Connections.Manager.

(** The connections table exists, keyed by [id]. *)
Definition connections_ready (ts : Tables) : Prop :=
  Schema <$> ts !! Connections.connectionsTable this
  = Some Connections.Connections_schema.

(** What the [i]-th lookup from world [w] on receives: the row of the
    table, or what a stale read shows instead. *)
Definition lookup_answer (w : World) (connectionId : string) (i : nat)
  : option Item :=
  match default Healthy (faults w !! i) with
  | Stale seen => seen
  | _ => row_at (tables w) (Connections.connectionsTable this) [connectionId]
  end.

(** The store answers the first [attempts] lookups. *)
Definition answered (w : World) (attempts : nat) : Prop :=
  ∀ i, (i < attempts)%nat → faults w !! i ≠ Some Unavailable.

(** What the [i]-th lookup leaves in the trace, in the order it happens:
    the command, and a wait when no row came back. *)
Definition lookup_effects (w : World) (connectionId : string) (timeout : Z)
  (i : nat) : list Effect :=
  Sent (Req (GetItemCommand (Connections.connectionsTable this)
               [("id", AV_S connectionId)]))
  :: match lookup_answer w connectionId i with
     | None => [Waited timeout]
     | Some _ => []
     end.

(** The world after one lookup and the waits that followed it. *)
Definition after_lookup (connectionId : string) (waits : list Effect)
  (w : World) : World :=
  {| tables := tables w; faults := tail (faults w);
     gateway := gateway w; apiGatewayManager := apiGatewayManager w;
     trace := waits ++ Sent (Req (GetItemCommand
                (Connections.connectionsTable this)
                [("id", AV_S connectionId)])) :: trace w |}.

(** The row [registerConnection] stores. *)
Definition stored_connection (now : Z)
  (createdAt connectionId endpoint : string) : Item :=
  [("createdAt", AV_S createdAt); ("id", AV_S connectionId);
   ("data", AV_M [("endpoint", AV_S endpoint); ("context", AV_M []);
                  ("isInitialized", AV_BOOL false)])]
  ++ match Connections.ttl this with
     | Some seconds => [("ttl", AV_N (computeTTL now seconds))]
     | None => []
     end.
End Hydration.

(** ** Worlds to run the managers in *)

Definition empty_store : Tables :=
  <["Subscriptions" :=
      {| Schema := Subscriptions.Subscriptions_schema; TableRows := [] |}]>
  (<["SubscriptionOperations" :=
      {| Schema := Subscriptions.SubscriptionOperations_schema;
         TableRows := [] |}]>
  (<["Connections" :=
      {| Schema := Connections.Connections_schema; TableRows := [] |}]> ∅)).

(** A world with these tables where nothing goes wrong. *)
Definition world_of (ts : Tables) : World :=
  {| tables := ts; faults := []; gateway := [];
     apiGatewayManager := None; trace := [] |}.

Definition connection_of (id : string) : JsVal :=
  JObj [("id", JStr id);
        ("data", JObj [("endpoint", JStr "https://example.test/dev");
                       ("context", JObj []);
                       ("isInitialized", JBool true)])].

Definition operation_of (operationId : string) : JsVal :=
  JObj [("operationId", JStr operationId)].

(** Each of [ids] subscribes its operation 1 to [event], at clock reading
    [now], through the manager with the constructor's defaults. *)
Definition subscribed (now : Z) (event : string) (ids : list string) (w : World)
  : World :=
  foldl (λ w id,
           (Subscriptions.subscribe Subscriptions.default_manager now [event]
              (connection_of id) (operation_of "1") w).2) w ids.

(** Fifty connections [c0] ... [c49] subscribed to event A at time 0, lease
    two hours; a connection [z] subscribed at 9000 s.  Seen at 10000 s, the
    fifty leases have run out and their rows have not been purged. *)
Definition stale_ids : list string := map (λ i : nat, "c" +:+ pretty i) (seq 0 50).

Definition stale_world : World :=
  world_of (tables
    (subscribed 9000000 "A" ["z"]
       (subscribed 0 "A" stale_ids (world_of empty_store)))).

(** Twelve connections [a0] ... [a11] and a connection [z], all subscribed
    to event A. *)
Definition crowded_world : World :=
  world_of (tables
    (subscribed 0 "A" ("z" :: map (λ i : nat, "a" +:+ pretty i) (seq 0 12))
       (world_of empty_store))).

(** Connection [c1], whose operation 1 is subscribed to events A and B. *)
Definition one_operation_world : World :=
  world_of (tables
    (Subscriptions.subscribe Subscriptions.default_manager 0 ["A"; "B"]
       (connection_of "c1") (operation_of "1") (world_of empty_store)).2).

(** A connection manager over the [Connections] table, with the
    subscription manager of the constructor's defaults. *)
Definition connection_manager : Connections.Manager :=
  {| Connections.connectionsTable := "Connections";
     Connections.subscriptions :=
       Subscriptions.as_ISubscriptionManager Subscriptions.default_manager;
     Connections.ttl := Some 7200;
     Connections.debug := false |}.

(** Connection [c1] registered at time 0; the first read to come is stale
    and misses the row. *)
Definition lagging_world : World :=
  {| tables :=
       tables (Connections.registerConnection connection_manager 0
                 "Thu Jan 01 1970 00:00:00 GMT+0000" "c1"
                 "https://example.test/dev" (world_of empty_store)).2;
     faults := [Stale None]; gateway := [];
     apiGatewayManager := None; trace := [] |}.

(** ** Vocabulary of the further properties *)

(** The rows a table holds, in key order; none when there is no such
    table. *)
Definition rows_of (ts : Tables) (table : string) : Rows :=
  default [] (TableRows <$> ts !! table).

(** A table as the store keeps it: rows in ascending key order, each key as
    long as the key schema. *)
Fixpoint ascending (rows : Rows) : bool :=
  match rows with
  | (k1, _) :: (((k2, _) :: _) as rest) =>
      match key_compare k1 k2 with
      | Lt => ascending rest
      | _ => false
      end
  | _ => true
  end.

Definition well_kept (t : Table) : bool :=
  ascending (TableRows t)
  && forallb (λ row : Key * Item,
                Nat.eqb (length row.1) (length (key_names (Schema t))))
       (TableRows t).

Definition key_lt (r1 r2 : Key * Item) : Prop := key_compare r1.1 r2.1 = Lt.

(** The cursor an iterator holds and the key it stands for. *)
Definition cursor_at (t : Table) (cursor : option Item) (start : option Key)
  : Prop :=
  match cursor, start with
  | None, None => True
  | Some c, Some k => request_key (Schema t) c = Some k
  | _, _ => False
  end.

(** What [subscribersByEvent] is to deliver at clock reading [now]: the rows
    indexed under the name, in the order of the index, but for those whose
    ttl has been reached. *)
Definition indexed (name : JsVal) (item : Item) : bool :=
  match assoc "event" item with
  | Some event => av_equal event (convertToAttr name)
  | None => false
  end.

Definition unexpired (now : Z) (item : Item) : bool :=
  match assoc "ttl" item with
  | Some ttl => av_greater ttl (AV_N (round_seconds now))
  | None => true
  end.

Definition indexed_under (name : JsVal) (rows : Rows) : list Item :=
  List.filter (indexed name) (map snd rows).

Definition fresh (now : Z) (items : list Item) : list Item :=
  List.filter (unexpired now) items.

(** Every full page of the rows holds one that has not expired. *)
Definition no_dead_page (now : Z) (items : list Item) : Prop :=
  ∀ j, (50 * S j ≤ length items)%nat →
       fresh now (take 50 (drop (50 * j) items)) ≠ [].

Section Deliveries.
Variable this : Subscriptions.Manager.

(** The query [next] sends. *)
Definition subscribers_query (now : Z) (name : JsVal) (cursor : option Item)
  : ReadInput :=
  {| ExclusiveStartKey := cursor;
     TableName := Subscriptions.subscriptionsTableName this;
     Limit := Some 50%nat;
     KeyConditionExpression := Some (Equals (Path "event") (Value ":event"));
     FilterExpression :=
       Some (OR (GreaterThan (Path "#ttl") (Value ":time"))
                (attribute_not_exists "#ttl"));
     ExpressionAttributeValues :=
       [(":event", convertToAttr name); (":time", AV_N (round_seconds now))];
     ExpressionAttributeNames := [("#ttl", "ttl")] |}.

(** The subscribers to deliver from these tables. *)
Definition live_page (now : Z) (name : JsVal) (ts : Tables) : list JsVal :=
  map unmarshall
    (fresh now
       (indexed_under name
          (rows_of ts (Subscriptions.subscriptionsTableName this)))).

(** The rows [subscribe] writes for one event name. *)
Definition ttl_attribute (now : Z) : Item :=
  match Subscriptions.ttl this with
  | Some seconds => [("ttl", AV_N (computeTTL now seconds))]
  | None => []
  end.

Definition subscription_item (now : Z) (connection operation : JsVal)
  (name subscriptionId operationId : string) : Item :=
  [("connection", convertToAttr connection);
   ("operation", convertToAttr operation);
   ("event", AV_S name); ("subscriptionId", AV_S subscriptionId);
   ("operationId", AV_S operationId)] ++ ttl_attribute now.

Definition operation_item (now : Z) (name subscriptionId : string) : Item :=
  [("subscriptionId", AV_S subscriptionId); ("event", AV_S name)]
  ++ ttl_attribute now.
End Deliveries.

(** No colon in a string. *)
Fixpoint colon_free (s : string) : bool :=
  match s with
  | EmptyString => true
  | String a s' => negb (String.eqb (String a EmptyString) ":") && colon_free s'
  end.

(** The scan [unsubscribeAllByConnectionId] sends. *)
Definition cleanup_scan (table : string) (connectionId : string)
  (cursor : option Item) : ReadInput :=
  {| TableName := table;
     ExclusiveStartKey := cursor;
     FilterExpression :=
       Some (begins_with (Path "subscriptionId") (Value ":connection_id"));
     ExpressionAttributeValues := [(":connection_id", AV_S connectionId)];
     Limit := Some 12%nat;
     KeyConditionExpression := None;
     ExpressionAttributeNames := [] |}.

(** No row of the index belongs to the connection, going by the prefix of
    its subscription id. *)
Definition no_subscription (ts : Tables) (table : string) (connectionId : string)
  : Prop :=
  Forall (λ row : Key * Item,
            holds [] [(":connection_id", AV_S connectionId)] row.2
              (begins_with (Path "subscriptionId") (Value ":connection_id"))
            = false)
         (rows_of ts table).

(** The pushes of a trace, latest first. *)
Definition posts (t : list Effect) : list Effect :=
  List.filter (λ e, match e with Posted _ _ _ => true | _ => false end) t.

(** What the store's part of a method leaves alone: the gateway, the client
    pushes go through, the pushes made; of the faults to come it has met
    the first ones. *)
Definition store_step (w w' : World) : Prop :=
  gateway w' = gateway w
  ∧ apiGatewayManager w' = apiGatewayManager w
  ∧ posts (trace w') = posts (trace w)
  ∧ ∃ met, faults w' = drop met (faults w).

(** A store with other connections' subscriptions and the row of [c1]. *)
Definition busy_world : World :=
  world_of (tables
    (Connections.registerConnection connection_manager 0
       "Thu Jan 01 1970 00:00:00 GMT+0000" "c1" "https://example.test/dev"
       crowded_world).2).

(** ** Vocabulary of the amended properties *)

(** The store carries out all of a batch of [requests] writes, or none of
    them: it is not interrupted part of the way. *)
Definition whole_or_none (f : Fault) (requests : nat) : Prop :=
  match f with
  | Partial processed => (requests ≤ processed)%nat
  | _ => True
  end.

(** The gateway's answer for a connection that is gone: what the push threw
    is an object whose [statusCode] is the number 410. *)
Definition status_410 (e : JsVal) : Prop :=
  ∃ props, e = JObj props ∧ assoc "statusCode" props = Some (JNum 410).

(** The rows the begins-with match of [unsubscribeAllByConnectionId] picks
    from one page of the primary index: the items its scan returns from
    these tables, which are the ones the delete batch is built from. *)
Definition matched (this : Subscriptions.Manager) (ts : Tables)
  (connectionId : string) (cursor : option Item) : list Item :=
  match read_page ts (cleanup_scan (Subscriptions.subscriptionsTableName this)
                        connectionId cursor) with
  | Ok page => default [] (Items page)
  | Throw _ => []
  end.

(** Computation on closed terms. *)
Ltac by_computation := vm_compute; first [reflexivity | exact I | eauto].

(* ===================================================================== *)
(** * Properties of the store *)
(* ===================================================================== *)

(** ** Rows and keys *)

Lemma key_compare_refl k : key_compare k k = Eq.
Proof.
  induction k as [|a k IH]; simpl; [done|].
  pose proof (String.compare_antisym a a) as H.
  destruct (String.compare a a); simpl in H; congruence.
Qed.

Lemma key_compare_eq k1 k2 : key_compare k1 k2 = Eq → k1 = k2.
Proof.
  revert k2. induction k1 as [|a k1 IH]; intros [|b k2]; simpl; try done.
  destruct (String.compare a b) eqn:E; try done.
  apply String.compare_eq_iff in E. intros H. f_equal; auto.
Qed.

Lemma rows_get_put_eq k item rows : rows_get k (rows_put k item rows) = Some item.
Proof.
  induction rows as [|[k' item'] rows IH]; simpl.
  - by rewrite decide_True.
  - destruct (key_compare k k') eqn:E; simpl.
    + by rewrite decide_True.
    + by rewrite decide_True.
    + rewrite decide_False; [done|]. intros ->. by rewrite key_compare_refl in E.
Qed.

Lemma rows_get_put_ne k k' item rows :
  k' ≠ k → rows_get k' (rows_put k item rows) = rows_get k' rows.
Proof.
  intros Hne. induction rows as [|[k0 item0] rows IH]; simpl.
  - by rewrite decide_False.
  - destruct (key_compare k k0) eqn:E; simpl.
    + apply key_compare_eq in E as <-. by rewrite !decide_False.
    + by rewrite (decide_False (P := k = k')).
    + by rewrite IH.
Qed.

Lemma rows_get_delete_eq k rows : rows_get k (rows_delete k rows) = None.
Proof.
  induction rows as [|[k' item'] rows IH]; simpl; [done|].
  case_decide; simpl; [done|]. by rewrite decide_False.
Qed.

Lemma rows_get_delete_ne k k' rows :
  k' ≠ k → rows_get k' (rows_delete k rows) = rows_get k' rows.
Proof.
  intros Hne. induction rows as [|[k0 item0] rows IH]; simpl; [done|].
  case_decide; simpl.
  - subst. by rewrite decide_False.
  - by rewrite IH.
Qed.

(** ** Marshalling round trip, writes *)

Lemma convert_roundtrip v : convertToNative (convertToAttr v) = v.
Proof.
  induction v as [| | | |items IH|props IH] using JsVal_nested_ind; simpl; try done.
  - f_equal. induction IH as [|x l Hx _ IHl]; simpl; [done|]. by rewrite Hx, IHl.
  - f_equal. induction IH as [|[k x] l Hx _ IHl]; simpl; [done|].
    simpl in Hx. by rewrite Hx, IHl.
Qed.

Lemma unmarshall_convert props :
  unmarshall (map (λ kv, (kv.1, convertToAttr kv.2)) props) = JObj props.
Proof.
  unfold unmarshall. f_equal. induction props as [|[k v] l IH]; simpl; [done|].
  by rewrite convert_roundtrip, IH.
Qed.

Lemma apply_write_lookup_ne ts w table :
  w.1.1 ≠ table → apply_write ts w !! table = ts !! table.
Proof.
  destruct w as [[t k] v]; simpl. intros Hne. unfold apply_write.
  destruct (ts !! t); [|done]. by rewrite lookup_insert_ne.
Qed.

Lemma apply_write_schema ts w table :
  Schema <$> (apply_write ts w !! table) = Schema <$> (ts !! table).
Proof.
  destruct w as [[t k] v]. unfold apply_write.
  destruct (ts !! t) as [tb|] eqn:E; [|done].
  destruct (decide (t = table)) as [->|Hne].
  - rewrite lookup_insert_eq, E. done.
  - by rewrite lookup_insert_ne.
Qed.

Lemma apply_write_is_Some ts w table :
  is_Some (apply_write ts w !! table) ↔ is_Some (ts !! table).
Proof.
  rewrite <-!(fmap_is_Some Schema). by rewrite apply_write_schema.
Qed.

Lemma row_at_apply_write ts w table k :
  is_Some (ts !! w.1.1) →
  row_at (apply_write ts w) table k = overwrite table k (row_at ts table k) w.
Proof.
  destruct w as [[t k0] v]; simpl. intros [tb Htb].
  unfold overwrite, row_at, apply_write; simpl. rewrite Htb.
  destruct (decide (t = table)) as [->|Hne].
  - rewrite lookup_insert_eq, Htb. simpl.
    destruct (decide (k0 = k)) as [->|Hk].
    + rewrite decide_True by done.
      destruct v; simpl; [apply rows_get_put_eq|apply rows_get_delete_eq].
    + rewrite decide_False by (by intros [? ?]).
      destruct v; simpl; [by apply rows_get_put_ne|by apply rows_get_delete_ne].
  - rewrite lookup_insert_ne by done. rewrite decide_False by (by intros [? ?]). done.
Qed.

Lemma row_at_apply_writes ts ws table k :
  Forall (λ w, is_Some (ts !! w.1.1)) ws →
  row_at (apply_writes ts ws) table k
  = foldl (overwrite table k) (row_at ts table k) ws.
Proof.
  unfold apply_writes. revert ts.
  induction ws as [|w ws IH]; intros ts Hall; simpl; [done|].
  inversion Hall as [|? ? Hw Hws]; subst.
  rewrite IH.
  - by rewrite row_at_apply_write.
  - eapply Forall_impl; [exact Hws|]. intros w'. by rewrite apply_write_is_Some.
Qed.

Lemma apply_writes_lookup_ne ts ws table :
  Forall (λ w, w.1.1 ≠ table) ws → apply_writes ts ws !! table = ts !! table.
Proof.
  unfold apply_writes. revert ts. induction ws as [|w ws IH]; intros ts Hall; simpl; [done|].
  inversion Hall; subst. rewrite IH by done. by apply apply_write_lookup_ne.
Qed.

Lemma apply_writes_schema ts ws table :
  Schema <$> (apply_writes ts ws !! table) = Schema <$> (ts !! table).
Proof.
  unfold apply_writes. revert ts. induction ws as [|w ws IH]; intros ts; simpl; [done|].
  by rewrite IH, apply_write_schema.
Qed.

Lemma sequence_map_Ok {A B} (f : A → Outcome B) (g : A → B) l :
  (∀ x, x ∈ l → f x = Ok (g x)) → sequence (map f l) = Ok (map g l).
Proof.
  induction l as [|x l IH]; intros H; simpl; [done|].
  rewrite H by left. rewrite IH; [done|]. intros y Hy. apply H. by right.
Qed.

(** ** Folding writes over one key *)

Section Folding.
Context (table : string) (kf : string → Key) (vf : string → option Item).
Let write (n : string) : Write := (table, kf n, vf n).

Lemma foldl_overwrite_other_table table' k init names :
  table ≠ table' → foldl (overwrite table' k) init (map write names) = init.
Proof.
  intros Hne. revert init. induction names as [|n names IH]; intros init; simpl; [done|].
  rewrite IH. unfold overwrite, write; simpl. rewrite decide_False; [done|].
  by intros [? _].
Qed.

Lemma foldl_overwrite_other_key table' k init names :
  (∀ n, n ∈ names → kf n ≠ k) →
  foldl (overwrite table' k) init (map write names) = init.
Proof.
  revert init. induction names as [|n names IH]; intros init Hk; simpl; [done|].
  rewrite IH by (intros; apply Hk; by right).
  unfold overwrite, write; simpl. rewrite decide_False; [done|].
  intros [_ ?]. by eapply Hk; [left|].
Qed.

Lemma foldl_overwrite_written init names n :
  Inj (=) (=) kf → n ∈ names →
  foldl (overwrite table (kf n)) init (map write names) = vf n.
Proof.
  intros Hinj. revert init. induction names as [|n' names IH]; intros init Hn; simpl.
  - by apply elem_of_nil in Hn.
  - destruct (decide (n ∈ names)) as [Hin|Hnin].
    + by apply IH.
    + apply elem_of_cons in Hn as [->|?]; [|done].
      rewrite foldl_overwrite_other_key.
      * unfold overwrite, write; simpl. by rewrite decide_True.
      * intros m Hm Heq. apply Hinj in Heq as ->. done.
Qed.
End Folding.

Lemma foldl_app_overwrite table k init (ws1 ws2 : list Write) :
  foldl (overwrite table k) init (ws1 ++ ws2)
  = foldl (overwrite table k) (foldl (overwrite table k) init ws1) ws2.
Proof. apply foldl_app. Qed.

(** ** Batches of puts *)

Lemma exec_batch_in_full f ts requests ws :
  in_full f → resolve_writes ts (batch_requests requests) = Ok ws →
  exec f ts (BatchWriteItemCommand requests) = (Ok (), apply_writes ts ws).
Proof. intros Hf Hws. destruct f; try done; simpl; by rewrite Hws. Qed.

Lemma resolve_writes_app ts rs1 rs2 ws1 ws2 :
  resolve_writes ts rs1 = Ok ws1 → resolve_writes ts rs2 = Ok ws2 →
  resolve_writes ts (rs1 ++ rs2) = Ok (ws1 ++ ws2).
Proof.
  unfold resolve_writes. revert ws1.
  induction rs1 as [|r rs1 IH]; intros ws1; simpl.
  - by intros [= <-].
  - destruct (resolve_write _ _ _); [|done].
    destruct (sequence _) eqn:E; [|done]. intros [= <-] H2.
    by rewrite (IH _ eq_refl H2).
Qed.

Lemma resolve_puts ts table t (kf : string → Key) (itemf : string → Item) names :
  ts !! table = Some t →
  (∀ n, item_key (Schema t) (itemf n) = Some (kf n)) →
  resolve_writes ts (map (pair table) (map PutRequest (map itemf names)))
  = Ok (map (λ n, (table, kf n, Some (itemf n))) names).
Proof.
  intros Ht Hk. unfold resolve_writes. rewrite !map_map.
  apply sequence_map_Ok. intros n _. simpl.
  unfold resolve_write. by rewrite Ht, Hk.
Qed.

(** ** What the store throws *)

Lemma resolve_write_throws ts table r e :
  resolve_write ts table r = Throw e → store_exception e.
Proof.
  unfold resolve_write. repeat case_match; by intros [= <-].
Qed.

Lemma resolve_writes_throws ts rs e :
  resolve_writes ts rs = Throw e → store_exception e.
Proof.
  unfold resolve_writes. induction rs as [|r rs IH]; simpl; [done|].
  destruct (resolve_write _ _ _) eqn:E.
  - destruct (sequence _); [done|]. intros [= <-]. by apply IH.
  - intros [= <-]. by eapply resolve_write_throws.
Qed.

Lemma read_page_throws ts i e : read_page ts i = Throw e → store_exception e.
Proof. unfold read_page. repeat case_match; by intros [= <-]. Qed.

Create HintDb store_throws.
#[local] Hint Resolve resolve_write_throws resolve_writes_throws
  read_page_throws : store_throws.

(** A command that fails fails with a store exception and changes nothing. *)
Lemma exec_throws {O} f ts (c : Command O) e ts' :
  exec f ts c = (Throw e, ts') → store_exception e ∧ ts' = ts.
Proof.
  destruct c; destruct f; cbn [exec]; intros H;
    repeat case_match; simplify_eq; try done; (split; [|done]);
    eauto with store_throws.
Qed.

Lemma store_exception_quiet e : store_exception e → quiet e.
Proof. by destruct e. Qed.

(** [member] on an object with the property. *)
Lemma member_prop name v x : prop name v = Some x → member (Some v) name = Ok (Some x).
Proof. destruct v; simpl; try done. by intros ->. Qed.

(* ===================================================================== *)
(** * Properties of the bulk deletes *)
(* ===================================================================== *)

Lemma assoc_Some_elem {A} name (l : list (string * A)) v :
  assoc name l = Some v → (name, v) ∈ l.
Proof.
  induction l as [|[k x] l IH]; simpl; [done|].
  destruct (String.eqb k name) eqn:E.
  - apply String.eqb_eq in E as ->. intros [= ->]. left.
  - intros H. right. auto.
Qed.

Lemma convertToAttr_attr_js a : ∃ m, convertToAttr (attr_js a) = AV_M m.
Proof. destruct a; simpl; eauto. Qed.

Lemma marshall_raw_maps n1 a1 n2 a2 item k :
  marshall [(n1, raw_prop a1 item); (n2, raw_prop a2 item)] = Ok k → all_maps k.
Proof.
  unfold raw_prop. simpl.
  destruct (assoc a1 item) as [x1|]; simpl; [|done].
  destruct (assoc a2 item) as [x2|]; simpl; [|done].
  intros [= <-]. repeat constructor; simpl; apply convertToAttr_attr_js.
Qed.

Lemma request_key_maps ks k : all_maps k → request_key ks k = None.
Proof.
  intros Hk. unfold request_key. case_decide; [|done].
  unfold item_key, key_names. simpl.
  assert (key_attr k (HASH ks) = None) as ->; [|done].
  unfold key_attr. destruct (assoc (HASH ks) k) as [v|] eqn:E; [|done].
  apply assoc_Some_elem in E.
  eapply Forall_forall in Hk as [m Hm]; [|exact E]. simpl in Hm. by subst.
Qed.

Lemma resolve_delete_maps ts table k :
  all_maps k → ∃ e, resolve_write ts table (DeleteRequest k) = Throw e.
Proof.
  intros Hk. unfold resolve_write. destruct (ts !! table); [|eauto].
  rewrite request_key_maps by done. eauto.
Qed.

Lemma sequence_marshall_head {A} (f : A → Outcome Item) x l r :
  sequence (map f (x :: l)) = Ok r → ∃ k r', r = k :: r' ∧ f x = Ok k.
Proof.
  simpl. destruct (f x); [|done]. destruct (sequence _); [|done].
  intros [= <-]. eauto.
Qed.

Lemma delete_requests_world this items w r w' :
  Subscriptions.delete_requests this items w = (r, w') → w' = w.
Proof.
  unfold Subscriptions.delete_requests, bind, lift, ret.
  repeat (destruct (sequence _)); by intros [= _ <-].
Qed.

Lemma delete_requests_refused this item items w requests w' f ts :
  Subscriptions.delete_requests this (item :: items) w = (Ok requests, w') →
  ∃ e, exec f ts (BatchWriteItemCommand requests) = (Throw e, ts).
Proof.
  unfold Subscriptions.delete_requests, bind, lift, ret.
  destruct (sequence _) as [primary|] eqn:E1; [|done].
  destruct (sequence _) as [secondary|] eqn:E2 in |- *; [|done].
  intros [= <- _].
  apply sequence_marshall_head in E1 as (k1 & p' & -> & Hk1).
  apply sequence_marshall_head in E2 as (k2 & s' & -> & Hk2).
  apply marshall_raw_maps in Hk1, Hk2.
  assert (∃ e, resolve_writes ts (batch_requests (object_literal
            [(Subscriptions.subscriptionsTableName this, map DeleteRequest (k1 :: p'));
             (Subscriptions.subscriptionOperationsTableName this,
              map DeleteRequest (k2 :: s'))])) = Throw e) as [e He].
  { unfold object_literal, Object_assign. simpl.
    destruct (String.eqb _ _); simpl; unfold resolve_writes; simpl.
    - destruct (resolve_delete_maps ts (Subscriptions.subscriptionsTableName this) k2 Hk2)
        as [e ->]. eauto.
    - destruct (resolve_delete_maps ts (Subscriptions.subscriptionsTableName this) k1 Hk1)
        as [e ->]. eauto. }
  destruct f; cbn [exec]; rewrite ?He; eauto.
Qed.

Lemma read_keeps_tables f ts i r ts' :
  exec f ts (ScanCommand i) = (r, ts') → ts' = ts.
Proof. destruct f; simpl; by intros [= _ <-]. Qed.

Lemma delete_requests_throws this items w e w' :
  Subscriptions.delete_requests this items w = (Throw e, w') → e = MarshallUndefined.
Proof.
  unfold Subscriptions.delete_requests, bind, lift, ret.
  assert (Hseq : ∀ (f : Item → Outcome Item) l e,
            (∀ x e, f x = Throw e → e = MarshallUndefined) →
            sequence (map f l) = Throw e → e = MarshallUndefined).
  { intros f l. induction l as [|x l IH]; intros err Hf; simpl; [done|].
    destruct (f x) as [?|err'] eqn:E; [|intros [= <-]; eauto].
    destruct (sequence _) eqn:E'; [done|]. intros [= <-]. eauto. }
  assert (Hm : ∀ n1 a1 n2 a2 (x : Item) e,
            marshall [(n1, raw_prop a1 x); (n2, raw_prop a2 x)] = Throw e →
            e = MarshallUndefined).
  { intros n1 a1 n2 a2 x e0. simpl.
    destruct (raw_prop a1 x); [|by intros [= <-]].
    destruct (raw_prop a2 x); [done|by intros [= <-]]. }
  destruct (sequence _) eqn:E1.
  - destruct (sequence _) eqn:E2 in |- *; [done|]. intros [= <- _].
    eapply Hseq; [|exact E2]. intros ??. apply Hm.
  - intros [= <- _]. eapply Hseq; [|exact E1]. intros ??. apply Hm.
Qed.

Lemma unsubscribeAll_loop_round this steps connectionId cursor w :
  let r := Subscriptions.unsubscribeAll_loop this (S steps) connectionId cursor w in
  tables r.2 = tables w
  ∧ pushes (trace r.2) = pushes (trace w)
  ∧ (r.1 = Ok () ∨ ∃ e, r.1 = Throw e ∧ quiet e).
Proof.
  intros r.
  enough (∀ o w', r = (o, w') →
            tables w' = tables w ∧ pushes (trace w') = pushes (trace w)
            ∧ (o = Ok () ∨ ∃ e, o = Throw e ∧ quiet e)) as H.
  { destruct r as [o w'] eqn:E. by apply H. }
  intros o w'. subst r.
  cbn [Subscriptions.unsubscribeAll_loop]. unfold bind, lift.
  destruct (marshall [(":connection_id", connectionId)]) as [values|e] eqn:Hm.
  2:{ simpl in Hm. destruct connectionId; [done|]. injection Hm as <-.
      intros [= <- <-]. split; [done|]. split; [done|].
      right. eexists. split; [reflexivity|exact I]. }
  unfold send at 1.
  destruct (exec _ _ (ScanCommand _)) as [[page|e] ts] eqn:Hscan.
  2:{ apply exec_throws in Hscan as [He ->]. intros [= <- <-].
      split; [done|]. split; [reflexivity|].
      right. eexists. split; [reflexivity|by apply store_exception_quiet]. }
  apply read_keeps_tables in Hscan as ->.
  destruct (Items page) as [[|item items]|];
    try (intros [= <- <-]; split; [done|]; split; [reflexivity|]; by left).
  destruct (Subscriptions.delete_requests _ _ _) as [[requests|e] w1] eqn:Hreq;
    pose proof (delete_requests_world _ _ _ _ _ Hreq) as ->.
  2:{ apply delete_requests_throws in Hreq as ->. intros [= <- <-].
      split; [done|]. split; [reflexivity|].
      right. eexists. split; [reflexivity|exact I]. }
  unfold send.
  edestruct delete_requests_refused as [e He]; [exact Hreq|].
  cbn [tables]. rewrite He. intros [= <- <-].
  apply exec_throws in He as [He _].
  split; [done|]. split; [reflexivity|].
  right. eexists. split; [reflexivity|by apply store_exception_quiet].
Qed.

Lemma unsubscribeAllByConnectionId_quiet this connectionId w :
  let r := Subscriptions.unsubscribeAllByConnectionId this connectionId w in
  tables r.2 = tables w
  ∧ pushes (trace r.2) = pushes (trace w)
  ∧ (r.1 = Ok () ∨ ∃ e, r.1 = Throw e ∧ quiet e).
Proof.
  intros r.
  assert (∃ steps, r = Subscriptions.unsubscribeAll_loop this (S steps) connectionId None w)
    as [steps ->].
  { subst r. unfold Subscriptions.unsubscribeAllByConnectionId, Subscriptions.rounds.
    destruct (tables w !! _); eauto. }
  apply unsubscribeAll_loop_round.
Qed.

Lemma exec_query_keeps_tables f ts i r ts' :
  exec f ts (QueryCommand i) = (r, ts') → ts' = ts.
Proof. destruct f; simpl; by intros [= _ <-]. Qed.

(** [unsubscribeOperation] changes no row: either the secondary index has no
    row for the operation, or the batch of deletes is refused. *)
Lemma unsubscribeOperation_keeps_tables this connectionId operationId w :
  tables (Subscriptions.unsubscribeOperation this connectionId operationId w).2
  = tables w.
Proof.
  unfold Subscriptions.unsubscribeOperation, bind, lift. cbn [marshall str].
  unfold send at 1.
  destruct (exec _ _ (QueryCommand _)) as [[operation|e] ts] eqn:Hquery;
    apply exec_query_keeps_tables in Hquery as ->; [|done].
  destruct (Items operation) as [[|item items]|]; [| |done].
  - unfold Subscriptions.delete_requests, bind, lift, ret, send.
    cbn [map sequence tables].
    assert (batch_requests (object_literal
              [(Subscriptions.subscriptionsTableName this, []);
               (Subscriptions.subscriptionOperationsTableName this, [])])
            = ([] : list (string * WriteRequest))) as Hnone.
    { unfold object_literal, Object_assign. cbn.
      by destruct (String.eqb _ _). }
    destruct (next_fault _) as [| | |n]; cbn [exec]; rewrite ?Hnone; try done.
    by destruct n.
  - destruct (Subscriptions.delete_requests _ _ _) as [[requests|e] w'] eqn:Hreq;
      pose proof (delete_requests_world _ _ _ _ _ Hreq) as ->; [|done].
    unfold send.
    edestruct delete_requests_refused as [e He]; [exact Hreq|].
    cbn [tables]. by rewrite He.
Qed.

(* ===================================================================== *)
(** * Properties of DynamoDBRangeSubscriptionManager *)
(* ===================================================================== *)

(** ** The pages of [subscribersByEvent] *)

Lemma prop_unmarshall name item :
  prop name (unmarshall item) = convertToNative <$> assoc name item.
Proof.
  unfold unmarshall. cbn [prop].
  induction item as [|[k a] item IH]; cbn; [done|].
  by destruct (String.eqb k name).
Qed.

Lemma round_seconds_bound now : now < 1000 * (round_seconds now + 1).
Proof.
  unfold round_seconds.
  pose proof (Z.mod_pos_bound (now + 500) 1000 ltac:(lia)).
  pose proof (Z.div_mod (now + 500) 1000 ltac:(lia)). lia.
Qed.

(** A row that passes the ttl filter of [subscribersByEvent] at clock reading
    [now] has not expired. *)
Lemma ttl_filter_excludes_expired now event item :
  holds [("#ttl", "ttl")]
    [(":event", event); (":time", AV_N (round_seconds now))] item
    (OR (GreaterThan (Path "#ttl") (Value ":time")) (attribute_not_exists "#ttl"))
  = true →
  isTTLExpired now (prop "ttl" (unmarshall item)) = false.
Proof.
  rewrite prop_unmarshall. cbn. unfold compare_with, operand, resolve_path. cbn.
  destruct (assoc "ttl" item) as [a|]; [|done].
  rewrite orb_false_r. destruct a; cbn; try done.
  intros Hlt%Z.ltb_lt. apply Z.ltb_ge.
  pose proof (round_seconds_bound now). lia.
Qed.

Lemma read_page_items ts i page items item :
  read_page ts i = Ok page → Items page = Some items → item ∈ items →
  ∃ t k,
    ts !! TableName i = Some t
    ∧ (k, item) ∈ TableRows t
    ∧ satisfies i (KeyConditionExpression i) item = true
    ∧ satisfies i (FilterExpression i) item = true.
Proof.
  unfold read_page. destruct (ts !! TableName i) as [t|]; [|done].
  assert (∀ start, Items (page_of t i start) = Some items → item ∈ items →
            ∃ k, (k, item) ∈ TableRows t
                 ∧ satisfies i (KeyConditionExpression i) item = true
                 ∧ satisfies i (FilterExpression i) item = true) as Hpage.
  { intros start [= <-] [Hitem Hfilter]%list_elem_of_In%filter_In.
    apply list_elem_of_In, list_elem_of_fmap in Hitem as ([k item'] & -> & Hrow).
    assert ((k, item') ∈ List.filter
              (λ row, after start row.1
                      && satisfies i (KeyConditionExpression i) row.2)
              (TableRows t)) as Hcand.
    { destruct (Limit i); [|done].
      apply elem_of_take in Hrow as (j & Hrow & _).
      by eapply list_elem_of_lookup_2. }
    apply list_elem_of_In, filter_In in Hcand as [Hin Hcond].
    apply andb_true_iff in Hcond as [_ Hcond].
    exists k. by split; [apply list_elem_of_In|]. }
  intros Hpg Hitems Hitem.
  destruct (ExclusiveStartKey i) as [k0|].
  - destruct (request_key _ k0); [|done]. injection Hpg as <-.
    destruct (Hpage _ Hitems Hitem) as (k' & ?). eauto.
  - injection Hpg as <-. destruct (Hpage _ Hitems Hitem) as (k' & ?). eauto.
Qed.

Lemma exec_query_page f ts i page ts' :
  exec f ts (QueryCommand i) = (Ok page, ts') → read_page ts i = Ok page.
Proof. destruct f; cbn [exec]; by intros [= -> _]. Qed.

(** What a call of [next] that fetched a page returns: the rows of the page,
    unmarshalled, each one a row of the index that passed the query's key
    condition and its ttl filter. *)
Lemma next_page this now it w r it' w' v :
  Subscriptions.next this now it w = (Ok (r, it'), w') →
  v ∈ Subscriptions.value r →
  ∃ name t k item,
    Subscriptions.name it = Some name
    ∧ tables w !! Subscriptions.subscriptionsTableName this = Some t
    ∧ (k, item) ∈ TableRows t
    ∧ v = unmarshall item
    ∧ holds [("#ttl", "ttl")]
        [(":event", convertToAttr name); (":time", AV_N (round_seconds now))]
        item (Equals (Path "event") (Value ":event")) = true
    ∧ holds [("#ttl", "ttl")]
        [(":event", convertToAttr name); (":time", AV_N (round_seconds now))]
        item (OR (GreaterThan (Path "#ttl") (Value ":time"))
                 (attribute_not_exists "#ttl")) = true.
Proof.
  unfold Subscriptions.next. destruct (Subscriptions.done it).
  { intros [= <- _ _] Hv. by apply elem_of_nil in Hv. }
  unfold bind, lift. cbn [marshall].
  destruct (Subscriptions.name it) as [name|]; [|done].
  unfold send. destruct (exec _ _ _) as [[page|e] ts] eqn:Hexec; [|done].
  apply exec_query_page in Hexec. intros [= <- _ _]. cbn [Subscriptions.value].
  destruct (Items page) as [items|] eqn:Hitems; [|by intros ?%elem_of_nil].
  intros (item & -> & Hitem)%list_elem_of_fmap.
  destruct (read_page_items _ _ _ _ _ Hexec Hitems Hitem)
    as (t & k & Ht & Hrow & Hkey & Hfilter).
  exists name, t, k, item. eauto 10.
Qed.

(** No page carries a row whose ttl has elapsed. *)
Lemma next_excludes_expired this now it w r it' w' v :
  Subscriptions.next this now it w = (Ok (r, it'), w') →
  v ∈ Subscriptions.value r →
  isTTLExpired now (prop "ttl" v) = false.
Proof.
  intros Hnext Hv.
  destruct (next_page _ _ _ _ _ _ _ _ Hnext Hv)
    as (name & t & k & item & _ & _ & _ & -> & _ & Hfilter).
  by eapply ttl_filter_excludes_expired.
Qed.

(** C1, as the code has it.  The claim: the pages of [subscribersByEvent]
    bring every row indexed under the event's name whose ttl has not elapsed,
    and the sequence ends exactly when a page comes without a continuation
    cursor.  The code ends the sequence on the first page that is empty after
    filtering, cursor or not: with fifty expired rows ahead of it, the live
    subscriber [z] is never delivered. *)
Theorem subscribersByEvent_ends_on_filtered_page :
  let this := Subscriptions.default_manager in
  let now := 10000000 in
  let it := {| Subscriptions.name := Some (JStr "A");
               Subscriptions.cursor := None;
               Subscriptions.done := false |} in
  let first := Subscriptions.next this now it stale_world in
  let it' := {| Subscriptions.name := Some (JStr "A");
                Subscriptions.cursor :=
                  Some [("event", AV_S "A"); ("subscriptionId", AV_S "c9:1")];
                Subscriptions.done := false |} in
  Subscriptions.subscribersByEvent this (JObj [("event", JStr "A")]) = Ok it
  (* z's row is indexed under A and its lease has not run out *)
  ∧ (λ row, isTTLExpired now (prop "ttl" (unmarshall row)))
    <$> primary_row this (tables stale_world) "A" "z:1" = Some false
  (* the first call: an empty page, a cursor to continue from, and done *)
  ∧ first.1 = Ok ({| Subscriptions.value := [];
                     Subscriptions.result_done := true |}, it')
  (* what a call after it would have brought *)
  ∧ match (Subscriptions.next this now it' first.2).1 with
    | Ok (page, _) =>
        map (prop "subscriptionId") (Subscriptions.value page)
        = [Some (JStr "z:1")]
    | Throw _ => False
    end
  (* what a consumer receives: no page *)
  ∧ ∀ calls,
      (Subscriptions.for_await this (S calls) now it stale_world).1 = Ok [].
Proof.
  intros this now it first it'. split; [|split; [|split; [|split]]].
  - reflexivity.
  - by_computation.
  - by_computation.
  - by_computation.
  - intros calls. by_computation.
Qed.

(** C2, as the code has it.  The claim: [unsubscribeAllByConnectionId]
    deletes every row of the connection from both indexes, scanning on while
    a cursor remains.  The code builds its delete keys from items it has not
    unmarshalled, so the store refuses the batch and the rows stay; and a
    page without a matching row ends the scan although a cursor remains. *)
Theorem unsubscribeAllByConnectionId_leaves_rows :
  let this := Subscriptions.default_manager in
  let refused :=
    Subscriptions.unsubscribeAllByConnectionId this (str "c1") one_operation_world in
  let stopped :=
    Subscriptions.unsubscribeAllByConnectionId this (str "z") crowded_world in
  let scan := {|
    TableName := "Subscriptions";
    ExclusiveStartKey := None;
    FilterExpression :=
      Some (begins_with (Path "subscriptionId") (Value ":connection_id"));
    ExpressionAttributeValues := [(":connection_id", AV_S "z")];
    Limit := Some 12%nat;
    KeyConditionExpression := None;
    ExpressionAttributeNames := [];
  |} in
  (refused.1 = Throw ValidationException
   ∧ tables refused.2 = tables one_operation_world
   ∧ is_Some (primary_row this (tables refused.2) "A" "c1:1")
   ∧ is_Some (secondary_row this (tables refused.2) "c1:1" "A"))
  ∧ (stopped.1 = Ok ()
     ∧ trace stopped.2 = [Sent (Req (ScanCommand scan))]
     ∧ read_page (tables crowded_world) scan
       = Ok {| Items := Some [];
               LastEvaluatedKey :=
                 Some [("event", AV_S "A"); ("subscriptionId", AV_S "a9:1")] |}
     ∧ is_Some (primary_row this (tables stopped.2) "A" "z:1")
     ∧ is_Some (secondary_row this (tables stopped.2) "z:1" "A")).
Proof.
  intros this refused stopped scan.
  split; [split; [|split; [|split]]|split; [|split; [|split; [|split]]]].
  - by_computation.
  - by_computation.
  - by_computation.
  - by_computation.
  - by_computation.
  - by_computation.
  - by_computation.
  - by_computation.
  - by_computation.
Qed.

(** C3, as amended.  For every list of event names, connection and
    operation, [subscribe] sends one batch that puts, for each name, one row
    of the primary index and one of the secondary index, both with
    [subscriptionId = connectionId + ":" + operationId] and both with the
    same ttl (or both without, when ttl is off).  A batch is not a
    transaction: when the store carries the whole batch out, or none of it,
    the cross-index invariant holds again; carried out, the rows of every
    name are in both indexes. *)
Theorem subscribe_writes_both_indexes
    this w now names connection operation connectionId operationId :
  indexes_ready this (tables w) →
  prop "id" connection = Some (JStr connectionId) →
  prop "operationId" operation = Some (JStr operationId) →
  index_consistent this (tables w) →
  let subscriptionId := connectionId +:+ ":" +:+ operationId in
  let primary name :=
    subscription_item this now connection operation name subscriptionId
      operationId in
  let secondary name := operation_item this now name subscriptionId in
  let r := Subscriptions.subscribe this now names connection operation w in
  trace r.2
  = Sent (Req (BatchWriteItemCommand
      [(Subscriptions.subscriptionsTableName this,
        map PutRequest (map primary names));
       (Subscriptions.subscriptionOperationsTableName this,
        map PutRequest (map secondary names))])) :: trace w
  ∧ (∀ name,
       assoc "event" (primary name) = Some (AV_S name)
       ∧ assoc "event" (secondary name) = Some (AV_S name)
       ∧ assoc "subscriptionId" (primary name) = Some (AV_S subscriptionId)
       ∧ assoc "subscriptionId" (secondary name) = Some (AV_S subscriptionId)
       ∧ assoc "ttl" (primary name) = lease this now
       ∧ assoc "ttl" (secondary name) = lease this now)
  ∧ (whole_or_none (next_fault w) (2 * length names) →
       index_consistent this (tables r.2)
       ∧ (next_fault w = Unavailable →
            r.1 = Throw ServiceUnavailable ∧ tables r.2 = tables w)
       ∧ (next_fault w ≠ Unavailable →
            r.1 = Ok ()
            ∧ ∀ name, name ∈ names →
                primary_row this (tables r.2) name subscriptionId
                = Some (primary name)
                ∧ secondary_row this (tables r.2) subscriptionId name
                  = Some (secondary name))).
Proof.
  intros (Hne & Hs1 & Hs2) Hid Hop Hinv sid item1 item2 r.
  destruct (tables w !! Subscriptions.subscriptionsTableName this) as [t1|] eqn:Ht1;
    [|done].
  destruct (tables w !! Subscriptions.subscriptionOperationsTableName this)
    as [t2|] eqn:Ht2; [|done].
  simpl in Hs1, Hs2. injection Hs1 as Hs1. injection Hs2 as Hs2.
  set (ws1 := map (λ n, (Subscriptions.subscriptionsTableName this, [n; sid],
                         Some (item1 n))) names : list Write).
  set (ws2 := map (λ n, (Subscriptions.subscriptionOperationsTableName this,
                         [sid; n], Some (item2 n))) names : list Write).
  set (requests :=
         [(Subscriptions.subscriptionsTableName this,
           map PutRequest (map item1 names));
          (Subscriptions.subscriptionOperationsTableName this,
           map PutRequest (map item2 names))]).
  assert (Hresolve : resolve_writes (tables w) (batch_requests requests)
                     = Ok (ws1 ++ ws2)).
  { unfold batch_requests, requests. simpl. rewrite app_nil_r.
    apply resolve_writes_app.
    - apply (resolve_puts _ _ t1 (λ n, [n; sid])); [done|].
      intros n. rewrite Hs1. unfold item1, subscription_item, ttl_attribute.
      destruct (Subscriptions.ttl this); reflexivity.
    - apply (resolve_puts _ _ t2 (λ n, [sid; n])); [done|].
      intros n. rewrite Hs2. unfold item2, operation_item, ttl_attribute.
      destruct (Subscriptions.ttl this); reflexivity. }
  assert (Hr : r = send (BatchWriteItemCommand requests) w).
  { subst r. unfold Subscriptions.subscribe, bind, lift.
    rewrite (member_prop _ _ _ Hid), (member_prop _ _ _ Hop).
    unfold Subscriptions.generateSubscriptionId. simpl template. fold sid.
    rewrite (sequence_map_Ok _ item1); cycle 1.
    { intros n _. unfold item1, subscription_item, ttl_attribute,
        Subscriptions.ttlField.
      destruct (Subscriptions.ttl this); reflexivity. }
    rewrite (sequence_map_Ok _ item2); cycle 1.
    { intros n _. unfold item2, operation_item, ttl_attribute,
        Subscriptions.ttlField.
      destruct (Subscriptions.ttl this); reflexivity. }
    f_equal. f_equal. unfold object_literal, Object_assign, requests. simpl.
    destruct (String.eqb _ _) eqn:E; [|done]. by apply String.eqb_eq in E. }
  assert (Hlease : ∀ n, assoc "ttl" (item1 n) = lease this now
                        ∧ assoc "ttl" (item2 n) = lease this now).
  { intros n. unfold item1, item2, subscription_item, operation_item,
      ttl_attribute, lease.
    destruct (Subscriptions.ttl this); split; reflexivity. }
  split; [|split].
  - rewrite Hr. unfold send. by destruct (exec _ _ _).
  - intros name. destruct (Hlease name) as [-> ->].
    repeat split; reflexivity.
  - intros Hwhole.
    assert (Hcases :
      (next_fault w = Unavailable
       ∧ r.1 = Throw ServiceUnavailable ∧ tables r.2 = tables w)
      ∨ (next_fault w ≠ Unavailable
         ∧ r.1 = Ok ()
         ∧ tables r.2 = apply_writes (tables w) (ws1 ++ ws2))).
    { rewrite Hr. unfold send.
      destruct (next_fault w) as [| | |n] eqn:Hf; cbn [exec];
        rewrite ?Hresolve; cbn [fst snd tables]; [right|left|right|right];
        try done.
      split; [done|]. split; [done|]. f_equal. apply take_ge.
      cbn in Hwhole. rewrite length_app. unfold ws1, ws2.
      rewrite !length_map. lia. }
    destruct Hcases as [(Hf & Ho & Ht)|(Hf & Ho & Ht)].
    { split; [|split; [done|done]].
      intros e s. unfold primary_row, secondary_row. rewrite Ht. apply Hinv. }
    assert (Hexists : Forall (λ w0 : Write, is_Some (tables w !! w0.1.1)) (ws1 ++ ws2)).
    { apply Forall_app. split; apply Forall_forall; intros x Hx;
        apply list_elem_of_fmap in Hx as (n & -> & _); simpl; eauto. }
    assert (Hprimary : ∀ e s,
      primary_row this (tables r.2) e s
      = if decide (e ∈ names ∧ s = sid) then Some (item1 e)
        else primary_row this (tables w) e s).
    { intros e s. rewrite Ht. unfold primary_row.
      rewrite row_at_apply_writes by done.
      rewrite foldl_app_overwrite. unfold ws2.
      rewrite (foldl_overwrite_other_table _ (λ n, [sid; n]) (λ n, Some (item2 n)))
        by done.
      case_decide as Hd.
      - destruct Hd as [He ->]. unfold ws1.
        apply (foldl_overwrite_written _ (λ n, [n; sid]) (λ n, Some (item1 n)));
          [|done]. by intros ?? [= ->].
      - unfold ws1.
        apply (foldl_overwrite_other_key _ (λ n, [n; sid]) (λ n, Some (item1 n))).
        intros n Hn [= -> ->]. by apply Hd. }
    assert (Hsecondary : ∀ e s,
      secondary_row this (tables r.2) s e
      = if decide (e ∈ names ∧ s = sid) then Some (item2 e)
        else secondary_row this (tables w) s e).
    { intros e s. rewrite Ht. unfold secondary_row.
      rewrite row_at_apply_writes by done.
      rewrite foldl_app_overwrite. unfold ws1.
      rewrite (foldl_overwrite_other_table _ (λ n, [n; sid]) (λ n, Some (item1 n)))
        by done.
      case_decide as Hd.
      - destruct Hd as [He ->]. unfold ws2.
        apply (foldl_overwrite_written _ (λ n, [sid; n]) (λ n, Some (item2 n)));
          [|done]. by intros ?? [= ->].
      - unfold ws2.
        apply (foldl_overwrite_other_key _ (λ n, [sid; n]) (λ n, Some (item2 n))).
        intros n Hn [= -> ->]. by apply Hd. }
    split; [|split; [done|]].
    + intros e s. rewrite Hprimary, Hsecondary. case_decide.
      * destruct (Hlease e) as [-> ->]. done.
      * apply Hinv.
    + intros _. split; [done|]. intros name Hname.
      rewrite Hprimary, Hsecondary. by rewrite !decide_True.
Qed.

(** The theorem above at work: operation 1 of connection [c1]
    subscribes to A and B in an empty store. *)
Lemma subscribe_writes_both_indexes_witness :
  let this := Subscriptions.default_manager in
  let w := world_of empty_store in
  let r := Subscriptions.subscribe this 0 ["A"; "B"]
             (connection_of "c1") (operation_of "1") w in
  indexes_ready this (tables w)
  ∧ prop "id" (connection_of "c1") = Some (JStr "c1")
  ∧ prop "operationId" (operation_of "1") = Some (JStr "1")
  ∧ index_consistent this (tables w)
  ∧ whole_or_none (next_fault w) 4
  ∧ r.1 = Ok ()
  ∧ index_consistent this (tables r.2).
Proof.
  intros this w r.
  assert (H1 : indexes_ready this (tables w)).
  { split; [vm_compute; discriminate|]. split; vm_compute; reflexivity. }
  assert (H3 : prop "id" (connection_of "c1") = Some (JStr "c1")) by reflexivity.
  assert (H4 : prop "operationId" (operation_of "1") = Some (JStr "1"))
    by reflexivity.
  assert (H5 : index_consistent this (tables w)).
  { intros event subscriptionId. vm_compute. exact I. }
  assert (H6 : whole_or_none (next_fault w) 4) by exact I.
  assert (H7 : next_fault w ≠ Unavailable) by discriminate.
  destruct (subscribe_writes_both_indexes this w 0 ["A"; "B"]
              (connection_of "c1") (operation_of "1") "c1" "1" H1 H3 H4 H5)
    as (_ & _ & Hwhole).
  destruct (Hwhole H6) as (Hinv & _ & Hok).
  exact (conj H1 (conj H3 (conj H4 (conj H5 (conj H6
    (conj (proj1 (Hok H7)) Hinv)))))).
Defined.

(** C3, where the claim as stated fails.  The store may carry out a part of
    a batch and report the rest as unprocessed, which [subscribe] does not
    read.  Here the store carries out one of the two puts: [subscribe]
    returns, and the pair is in the primary index and not in the secondary
    one. *)
Lemma subscribe_partial_batch_diverges :
  let this := Subscriptions.default_manager in
  let w := {| tables := empty_store; faults := [Partial 1]; gateway := [];
              apiGatewayManager := None; trace := [] |} in
  let r := Subscriptions.subscribe this 0 ["A"]
             (connection_of "c1") (operation_of "1") w in
  indexes_ready this (tables w)
  ∧ index_consistent this (tables w)
  ∧ r.1 = Ok ()
  ∧ is_Some (primary_row this (tables r.2) "A" "c1:1")
  ∧ secondary_row this (tables r.2) "c1:1" "A" = None
  ∧ ¬ index_consistent this (tables r.2).
Proof.
  intros this w r. split; [|split; [|split; [|split; [|split]]]].
  - split; [vm_compute; discriminate|]. split; vm_compute; reflexivity.
  - intros event subscriptionId. vm_compute. exact I.
  - by_computation.
  - by_computation.
  - by_computation.
  - intros H. specialize (H "A" "c1:1"). vm_compute in H. exact H.
Qed.

(** C5.  [unsubscribe] sends one transaction holding the two deletes of the
    pair [(event, connection.id + ":" + operationId)]: whatever happens at
    the store, both index rows are gone or the tables are as they were, and
    no other pair is touched. *)
Theorem unsubscribe_atomic
    this w subscriber connection connectionId operationId event :
  indexes_ready this (tables w) →
  prop "connection" subscriber = Some connection →
  prop "id" connection = Some (JStr connectionId) →
  prop "operationId" subscriber = Some (JStr operationId) →
  prop "event" subscriber = Some (JStr event) →
  let subscriptionId := connectionId +:+ ":" +:+ operationId in
  let r := Subscriptions.unsubscribe this subscriber w in
  trace r.2
  = Sent (Req (TransactWriteItemsCommand
      [Delete (Subscriptions.subscriptionsTableName this)
         [("event", AV_S event); ("subscriptionId", AV_S subscriptionId)];
       Delete (Subscriptions.subscriptionOperationsTableName this)
         [("subscriptionId", AV_S subscriptionId); ("event", AV_S event)]]))
    :: trace w
  ∧ ((r.1 = Ok ()
      ∧ primary_row this (tables r.2) event subscriptionId = None
      ∧ secondary_row this (tables r.2) subscriptionId event = None)
     ∨ ((∃ e, r.1 = Throw e) ∧ tables r.2 = tables w))
  ∧ (in_full (next_fault w) → r.1 = Ok ())
  ∧ (∀ event' subscriptionId',
        (event', subscriptionId') ≠ (event, subscriptionId) →
        primary_row this (tables r.2) event' subscriptionId'
        = primary_row this (tables w) event' subscriptionId'
        ∧ secondary_row this (tables r.2) subscriptionId' event'
          = secondary_row this (tables w) subscriptionId' event').
Proof.
  intros (Hne & Hs1 & Hs2) Hconn Hid Hop Hev sid r.
  destruct (tables w !! Subscriptions.subscriptionsTableName this) as [t1|] eqn:Ht1;
    [|done].
  destruct (tables w !! Subscriptions.subscriptionOperationsTableName this)
    as [t2|] eqn:Ht2; [|done].
  simpl in Hs1, Hs2. injection Hs1 as Hs1. injection Hs2 as Hs2.
  set (key1 := [("event", AV_S event); ("subscriptionId", AV_S sid)]).
  set (key2 := [("subscriptionId", AV_S sid); ("event", AV_S event)]).
  set (ws := [(Subscriptions.subscriptionsTableName this, [event; sid], None);
              (Subscriptions.subscriptionOperationsTableName this, [sid; event], None)]
             : list Write).
  set (items := [Delete (Subscriptions.subscriptionsTableName this) key1;
                 Delete (Subscriptions.subscriptionOperationsTableName this) key2]).
  assert (Hws : resolve_writes (tables w) (map transact_request items) = Ok ws).
  { unfold resolve_writes, resolve_write. simpl. rewrite Ht1, Ht2, Hs1, Hs2. reflexivity. }
  assert (Hr : r.1 = (exec (next_fault w) (tables w) (TransactWriteItemsCommand items)).1
               ∧ tables r.2
                 = (exec (next_fault w) (tables w) (TransactWriteItemsCommand items)).2
               ∧ trace r.2 = Sent (Req (TransactWriteItemsCommand items)) :: trace w).
  { subst r. unfold Subscriptions.unsubscribe, bind, lift, member.
    destruct subscriber; try done. rewrite Hconn.
    destruct connection; try done. rewrite Hid, Hop, Hev.
    unfold Subscriptions.generateSubscriptionId. simpl template. fold sid.
    simpl marshall. fold key1 key2 items. unfold send.
    destruct (exec _ _ _). done. }
  destruct Hr as (Hr1 & Hr2 & Hr3).
  assert (Hexists : Forall (λ w0 : Write, is_Some (tables w !! w0.1.1)) ws).
  { repeat constructor; simpl; eauto. }
  assert (Hprimary : ∀ e s,
    primary_row this (apply_writes (tables w) ws) e s
    = if decide ((e, s) = (event, sid)) then None
      else primary_row this (tables w) e s).
  { intros e s. unfold primary_row. rewrite row_at_apply_writes by done.
    simpl. unfold overwrite; simpl.
    rewrite (decide_False (P := _ ∧ [sid; event] = _)) by (by intros [? _]).
    case_decide as H1; case_decide as H2; try done.
    - destruct H2. destruct H1 as [_ [= -> ->]]. done.
    - destruct H1. by injection H2 as -> ->. }
  assert (Hsecondary : ∀ e s,
    secondary_row this (apply_writes (tables w) ws) s e
    = if decide ((e, s) = (event, sid)) then None
      else secondary_row this (tables w) s e).
  { intros e s. unfold secondary_row. rewrite row_at_apply_writes by done.
    simpl. unfold overwrite; simpl.
    rewrite (decide_False (P := _ ∧ [event; sid] = _)) by (by intros [? _]).
    case_decide as H1; case_decide as H2; try done.
    - destruct H2. destruct H1 as [_ [= -> ->]]. done.
    - destruct H1. by injection H2 as -> ->. }
  split; [done|].
  rewrite Hr1, Hr2. clear Hr1 Hr2 Hr3.
  destruct (next_fault w) eqn:Hf; cbn [exec]; rewrite ?Hws; cbn [fst snd].
  - rewrite Hprimary, Hsecondary, !decide_True by done.
    split; [by left|]. split; [done|]. intros e s Hes.
    by rewrite Hprimary, Hsecondary, !decide_False by done.
  - split; [right; eauto|]. split; [done|]. done.
  - rewrite Hprimary, Hsecondary, !decide_True by done.
    split; [by left|]. split; [done|]. intros e s Hes.
    by rewrite Hprimary, Hsecondary, !decide_False by done.
  - split; [right; eauto|]. split; [done|]. done.
Qed.

(** The theorem above at work: of the two subscriptions of [c1]'s
    operation 1, the one to A is cancelled. *)
Lemma unsubscribe_atomic_witness :
  let this := Subscriptions.default_manager in
  let w := one_operation_world in
  let subscriber :=
    JObj [("connection", connection_of "c1"); ("event", JStr "A");
          ("operationId", JStr "1")] in
  let r := Subscriptions.unsubscribe this subscriber w in
  indexes_ready this (tables w)
  ∧ prop "connection" subscriber = Some (connection_of "c1")
  ∧ prop "id" (connection_of "c1") = Some (JStr "c1")
  ∧ prop "operationId" subscriber = Some (JStr "1")
  ∧ prop "event" subscriber = Some (JStr "A")
  ∧ r.1 = Ok ()
  ∧ primary_row this (tables r.2) "B" "c1:1" = primary_row this (tables w) "B" "c1:1".
Proof.
  intros this w subscriber r.
  assert (H1 : indexes_ready this (tables w)).
  { split; [vm_compute; discriminate|]. split; vm_compute; reflexivity. }
  assert (H2 : prop "connection" subscriber = Some (connection_of "c1"))
    by reflexivity.
  assert (H3 : prop "id" (connection_of "c1") = Some (JStr "c1")) by reflexivity.
  assert (H4 : prop "operationId" subscriber = Some (JStr "1")) by reflexivity.
  assert (H5 : prop "event" subscriber = Some (JStr "A")) by reflexivity.
  destruct (unsubscribe_atomic this w subscriber (connection_of "c1") "c1" "1" "A"
              H1 H2 H3 H4 H5) as (_ & _ & Hok & Hframe).
  assert (Hfull : in_full (next_fault w)) by (vm_compute; exact I).
  assert (Hne : ("B", "c1:1") ≠ ("A", "c1" +:+ ":" +:+ "1")) by discriminate.
  exact (conj H1 (conj H2 (conj H3 (conj H4 (conj H5
           (conj (Hok Hfull) (proj1 (Hframe "B" "c1:1" Hne)))))))).
Defined.

(** C6, as the code has it.  The claim: [unsubscribeOperation] removes all
    rows of the operation from both indexes, and a second call finds nothing
    and is a no-op.  The code builds its delete keys from items it has not
    unmarshalled, so the store refuses the batch: the rows stay, and a second
    call finds them again and fails the same way. *)
Theorem unsubscribeOperation_leaves_rows :
  let this := Subscriptions.default_manager in
  let r := Subscriptions.unsubscribeOperation this (str "c1") (str "1")
             one_operation_world in
  r.1 = Throw ValidationException
  ∧ head (trace r.2)
    = Some (Sent (Req (BatchWriteItemCommand
        [("Subscriptions",
          [DeleteRequest [("event", AV_M [("S", AV_S "A")]);
                          ("subscriptionId", AV_M [("S", AV_S "c1:1")])];
           DeleteRequest [("event", AV_M [("S", AV_S "B")]);
                          ("subscriptionId", AV_M [("S", AV_S "c1:1")])]]);
         ("SubscriptionOperations",
          [DeleteRequest [("subscriptionId", AV_M [("S", AV_S "c1:1")]);
                          ("event", AV_M [("S", AV_S "A")])];
           DeleteRequest [("subscriptionId", AV_M [("S", AV_S "c1:1")]);
                          ("event", AV_M [("S", AV_S "B")])]])])))
  ∧ tables r.2 = tables one_operation_world
  ∧ is_Some (primary_row this (tables r.2) "A" "c1:1")
  ∧ is_Some (primary_row this (tables r.2) "B" "c1:1")
  ∧ is_Some (secondary_row this (tables r.2) "c1:1" "A")
  ∧ is_Some (secondary_row this (tables r.2) "c1:1" "B")
  ∧ (Subscriptions.unsubscribeOperation this (str "c1") (str "1") r.2).1
    = Throw ValidationException.
Proof.
  intros this r.
  split; [|split; [|split; [|split; [|split; [|split; [|split]]]]]].
  - by_computation.
  - by_computation.
  - by_computation.
  - by_computation.
  - by_computation.
  - by_computation.
  - by_computation.
  - by_computation.
Qed.

(** What the match picks: rows whose subscription id begins with the
    connection id. *)
Lemma matched_begins_with this ts connectionId cursor item :
  item ∈ matched this ts connectionId cursor →
  ∃ subscriptionId,
    assoc "subscriptionId" item = Some (AV_S subscriptionId)
    ∧ String.prefix connectionId subscriptionId = true.
Proof.
  unfold matched, read_page. cbn [TableName ExclusiveStartKey cleanup_scan].
  destruct (ts !! _) as [t|]; [|by intros ?%elem_of_nil].
  assert (∀ start,
            item ∈ default [] (Items (page_of t
              (cleanup_scan (Subscriptions.subscriptionsTableName this)
                 connectionId cursor) start)) →
            ∃ subscriptionId,
              assoc "subscriptionId" item = Some (AV_S subscriptionId)
              ∧ String.prefix connectionId subscriptionId = true) as Hpage.
  { intros start. unfold page_of. cbn [Items default from_option id].
    intros Hin. apply list_elem_of_In, filter_In in Hin as [_ Hholds].
    unfold satisfies in Hholds.
    cbn [FilterExpression cleanup_scan ExpressionAttributeNames
         ExpressionAttributeValues holds] in Hholds.
    unfold compare_with, operand, resolve_path in Hholds. cbn in Hholds.
    destruct (assoc "subscriptionId" item) as [[s| | | | |]|]; try done.
    eauto. }
  destruct cursor as [k|]; [|apply Hpage].
  destruct (request_key _ k); [apply Hpage|by intros ?%elem_of_nil].
Qed.

(** The delete requests depend on the items alone. *)
Lemma delete_requests_pure this items w w' :
  (Subscriptions.delete_requests this items w).1
  = (Subscriptions.delete_requests this items w').1.
Proof.
  unfold Subscriptions.delete_requests, bind, lift, ret.
  by repeat (destruct (sequence _)).
Qed.

(** One run of the loop of [unsubscribeAllByConnectionId]: a scan, and a
    batch built from the rows the match picked when there are any. *)
Lemma unsubscribeAll_loop_sends this steps connectionId cursor w :
  let r := Subscriptions.unsubscribeAll_loop this (S steps) (str connectionId)
             cursor w in
  let scan :=
    ScanCommand (cleanup_scan (Subscriptions.subscriptionsTableName this)
                   connectionId cursor) in
  trace r.2 = Sent (Req scan) :: trace w
  ∨ ∃ requests,
      (Subscriptions.delete_requests this
         (matched this (tables w) connectionId cursor) w).1 = Ok requests
      ∧ trace r.2
        = Sent (Req (BatchWriteItemCommand requests)) :: Sent (Req scan)
          :: trace w.
Proof.
  intros r scan.
  enough (∀ o w', r = (o, w') →
            trace w' = Sent (Req scan) :: trace w
            ∨ ∃ requests,
                (Subscriptions.delete_requests this
                   (matched this (tables w) connectionId cursor) w).1
                = Ok requests
                ∧ trace w'
                  = Sent (Req (BatchWriteItemCommand requests))
                    :: Sent (Req scan) :: trace w) as H.
  { destruct r as [o w'] eqn:E. by apply (H o). }
  intros o w'. subst r.
  cbn [Subscriptions.unsubscribeAll_loop]. unfold bind, lift.
  cbn [marshall str convertToAttr].
  unfold send at 1.
  destruct (exec _ _ (ScanCommand _)) as [[page|e] ts] eqn:Hscan.
  2:{ intros [= <- <-]. by left. }
  pose proof (read_keeps_tables _ _ _ _ _ Hscan) as ->.
  assert (Hmatched : matched this (tables w) connectionId cursor
                     = default [] (Items page)).
  { unfold matched.
    assert (read_page (tables w)
              (cleanup_scan (Subscriptions.subscriptionsTableName this)
                 connectionId cursor) = Ok page) as ->; [|done].
    destruct (next_fault w); cbn [exec] in Hscan; by simplify_eq. }
  destruct (Items page) as [[|item items]|] eqn:Hitems;
    try (intros [= <- <-]; by left).
  destruct (Subscriptions.delete_requests _ _ _) as [[requests|e] w1] eqn:Hreq;
    pose proof (delete_requests_world _ _ _ _ _ Hreq) as ->.
  2:{ intros [= <- <-]. by left. }
  unfold send.
  edestruct delete_requests_refused as [e He]; [exact Hreq|].
  cbn [tables]. rewrite He. intros [= <- <-].
  right. exists requests. split; [|done].
  rewrite Hmatched. cbn [default from_option id].
  erewrite delete_requests_pure. by rewrite Hreq.
Qed.

(** C9, as amended.  For connection ids [c1] and [c2] such that [c1] is not
    a prefix of the composite key [c2 + ":" + operationId],
    [unsubscribeAllByConnectionId(c1)] leaves the rows of that key as they
    were, in both indexes, and its begins-with match picks none of them: the
    one batch of deletes it may send is built from the rows the match picked
    on its scan, and none of these has that subscription id. *)
Theorem unsubscribeAllByConnectionId_frame this w c1 c2 operationId :
  String.prefix c1
    (Subscriptions.generateSubscriptionId (str c2) (str operationId)) = false →
  let subscriptionId :=
    Subscriptions.generateSubscriptionId (str c2) (str operationId) in
  let r := Subscriptions.unsubscribeAllByConnectionId this (str c1) w in
  let scan :=
    ScanCommand (cleanup_scan (Subscriptions.subscriptionsTableName this)
                   c1 None) in
  r.1 ≠ Throw StillRunning
  ∧ (∀ cursor item,
       item ∈ matched this (tables w) c1 cursor →
       assoc "subscriptionId" item ≠ Some (AV_S subscriptionId))
  ∧ (trace r.2 = Sent (Req scan) :: trace w
     ∨ ∃ requests,
         (Subscriptions.delete_requests this
            (matched this (tables w) c1 None) w).1 = Ok requests
         ∧ trace r.2
           = Sent (Req (BatchWriteItemCommand requests)) :: Sent (Req scan)
             :: trace w)
  ∧ ∀ event,
      primary_row this (tables r.2) event subscriptionId
      = primary_row this (tables w) event subscriptionId
      ∧ secondary_row this (tables r.2) subscriptionId event
        = secondary_row this (tables w) subscriptionId event.
Proof.
  intros Hprefix subscriptionId r scan.
  assert (∃ steps, r = Subscriptions.unsubscribeAll_loop this (S steps) (str c1) None w)
    as [steps Hr].
  { subst r. unfold Subscriptions.unsubscribeAllByConnectionId, Subscriptions.rounds.
    destruct (tables w !! _); eauto. }
  destruct (unsubscribeAll_loop_round this steps (str c1) None w) as (Ht & _ & Ho).
  pose proof (unsubscribeAll_loop_sends this steps c1 None w) as Hsent.
  cbn zeta in Hsent. rewrite <-Hr in Ht, Ho, Hsent.
  split; [|split; [|split]].
  - destruct Ho as [->|(e & -> & He)]; [done|]. intros [= ->]. done.
  - intros cursor item Hin Hsid.
    apply matched_begins_with in Hin as (s & Hs & Hbegins).
    rewrite Hs in Hsid. injection Hsid as ->.
    fold subscriptionId in Hprefix. congruence.
  - exact Hsent.
  - intros event. unfold primary_row, secondary_row. by rewrite Ht.
Qed.

(** The theorem above at work: [a1] is cleaned up while [a2] has a row; the
    match picks no row of [a2]. *)
Lemma unsubscribeAllByConnectionId_frame_witness :
  let this := Subscriptions.default_manager in
  let r := Subscriptions.unsubscribeAllByConnectionId this (str "a1")
             crowded_world in
  String.prefix "a1" (Subscriptions.generateSubscriptionId (str "a2") (str "1"))
  = false
  ∧ is_Some (primary_row this (tables crowded_world) "A" "a2:1")
  ∧ (∀ item, item ∈ matched this (tables crowded_world) "a1" None →
             assoc "subscriptionId" item ≠ Some (AV_S "a2:1"))
  ∧ primary_row this (tables r.2) "A" "a2:1"
    = primary_row this (tables crowded_world) "A" "a2:1".
Proof.
  intros this r.
  assert (H1 : String.prefix "a1"
                 (Subscriptions.generateSubscriptionId (str "a2") (str "1"))
               = false) by reflexivity.
  assert (H2 : is_Some (primary_row this (tables crowded_world) "A" "a2:1"))
    by (vm_compute; eauto).
  destruct (unsubscribeAllByConnectionId_frame this crowded_world "a1" "a2" "1" H1)
    as (_ & Hmatch & _ & Hframe).
  exact (conj H1 (conj H2 (conj (Hmatch None) (proj1 (Hframe "A"))))).
Defined.

(** C9, where the claim as stated fails.  Distinct ids are not enough: [a1]
    is a prefix of the subscription ids of [a10] and [a11], the match of the
    clean-up of [a1] picks their rows with its own, and the batch sent is
    built from the three of them. *)
Lemma unsubscribeAllByConnectionId_prefix_counterexample :
  let this := Subscriptions.default_manager in
  let w := crowded_world in
  let r := Subscriptions.unsubscribeAllByConnectionId this (str "a1") w in
  let picked := matched this (tables w) "a1" None in
  let primary subscriptionId :=
    DeleteRequest [("event", AV_M [("S", AV_S "A")]);
                   ("subscriptionId", AV_M [("S", AV_S subscriptionId)])] in
  let secondary subscriptionId :=
    DeleteRequest [("subscriptionId", AV_M [("S", AV_S subscriptionId)]);
                   ("event", AV_M [("S", AV_S "A")])] in
  let requests :=
    [("Subscriptions", [primary "a10:1"; primary "a11:1"; primary "a1:1"]);
     ("SubscriptionOperations",
      [secondary "a10:1"; secondary "a11:1"; secondary "a1:1"])] in
  "a1" ≠ "a10"
  ∧ (∀ operationId,
       Subscriptions.generateSubscriptionId (str "a1") (str operationId)
       ≠ "a10:1")
  ∧ map (assoc "subscriptionId") picked
    = [Some (AV_S "a10:1"); Some (AV_S "a11:1"); Some (AV_S "a1:1")]
  ∧ (Subscriptions.delete_requests this picked w).1 = Ok requests
  ∧ head (trace r.2) = Some (Sent (Req (BatchWriteItemCommand requests)))
  ∧ ¬ (∀ c1 c2 operationId item,
         c1 ≠ c2 →
         item ∈ matched this (tables w) c1 None →
         assoc "subscriptionId" item
         ≠ Some (AV_S (Subscriptions.generateSubscriptionId (str c2)
                         (str operationId)))).
Proof.
  intros this w r picked primary secondary requests.
  split; [|split; [|split; [|split; [|split]]]].
  - discriminate.
  - intros operationId H. vm_compute in H. discriminate.
  - by_computation.
  - by_computation.
  - by_computation.
  - intros H.
    apply (H "a1" "a10" "1"
             [("connection", convertToAttr (connection_of "a10"));
              ("operation", convertToAttr (operation_of "1"));
              ("event", AV_S "A"); ("subscriptionId", AV_S "a10:1");
              ("operationId", AV_S "1"); ("ttl", AV_N 7200)]).
    + discriminate.
    + assert (matched this (tables w) "a1" None !! 0%nat
              = Some [("connection", convertToAttr (connection_of "a10"));
                      ("operation", convertToAttr (operation_of "1"));
                      ("event", AV_S "A"); ("subscriptionId", AV_S "a10:1");
                      ("operationId", AV_S "1"); ("ttl", AV_N 7200)]) as Hat
        by by_computation.
      by eapply list_elem_of_lookup_2.
    + reflexivity.
Qed.

(** What the scan's filter selects: the rows whose subscription id begins
    with the connection id, rows of another connection among them when the
    id is a prefix of theirs. *)
Lemma scan_filter_begins_with connectionId subscriptionId item :
  assoc "subscriptionId" item = Some (AV_S subscriptionId) →
  holds [] [(":connection_id", AV_S connectionId)] item
    (begins_with (Path "subscriptionId") (Value ":connection_id"))
  = String.prefix connectionId subscriptionId.
Proof.
  intros Hitem. cbn. unfold compare_with, operand, resolve_path. cbn.
  by rewrite Hitem.
Qed.

Example scan_filter_prefix_of_another_id :
  String.prefix "a1"
    (Subscriptions.generateSubscriptionId (str "a10") (str "1")) = true.
Proof. reflexivity. Qed.

(* ===================================================================== *)
(** * Properties of DynamoDBConnectionManager *)
(* ===================================================================== *)

Lemma exec_get_answer this w connectionId :
  connections_ready this (tables w) →
  next_fault w ≠ Unavailable →
  exec (next_fault w) (tables w)
    (GetItemCommand (Connections.connectionsTable this) [("id", AV_S connectionId)])
  = (Ok (lookup_answer this w connectionId 0), tables w).
Proof.
  unfold connections_ready, lookup_answer, next_fault, row_at.
  rewrite head_lookup. intros Hready Hf.
  destruct (tables w !! Connections.connectionsTable this) as [t|] eqn:Ht; [|done].
  simpl in Hready. injection Hready as Hs.
  destruct (default Healthy (faults w !! 0%nat)); try done;
    cbn [exec]; rewrite Ht, Hs; reflexivity.
Qed.

Lemma lookups_step this rounds timeout connectionId w :
  connections_ready this (tables w) →
  next_fault w ≠ Unavailable →
  Connections.lookups this (S rounds) (str connectionId) timeout w
  = match lookup_answer this w connectionId 0 with
    | Some item =>
        (Ok (Some (unmarshall item)), after_lookup this connectionId [] w)
    | None =>
        Connections.lookups this rounds (str connectionId) timeout
          (after_lookup this connectionId [Waited timeout] w)
    end.
Proof.
  intros Hready Hf. cbn [Connections.lookups]. unfold bind at 1, lift, str.
  cbn [marshall convertToAttr]. unfold bind at 1, send at 1.
  rewrite (exec_get_answer this w connectionId Hready Hf).
  destruct (lookup_answer this w connectionId 0); reflexivity.
Qed.

Lemma flat_map_fmap {A B C} (f : B → list C) (g : A → B) l :
  flat_map f (g <$> l) = flat_map (λ x, f (g x)) l.
Proof. induction l as [|x l IH]; csimpl; [done|]. by f_equal. Qed.

Lemma lookups_outcome this rounds timeout connectionId w :
  connections_ready this (tables w) →
  answered w rounds →
  let r := Connections.lookups this rounds (str connectionId) timeout w in
  let answer := lookup_answer this w connectionId in
  ∃ made,
    (made ≤ rounds)%nat
    ∧ tables r.2 = tables w
    ∧ trace r.2
      = rev (flat_map (lookup_effects this w connectionId timeout) (seq 0 made))
        ++ trace w
    ∧ (∀ i, (S i < made)%nat → answer i = None)
    ∧ ((made = rounds ∧ (∀ i, (i < rounds)%nat → answer i = None) ∧ r.1 = Ok None)
       ∨ (∃ i item, made = S i ∧ answer i = Some item
                    ∧ r.1 = Ok (Some (unmarshall item)))).
Proof.
  revert w. induction rounds as [|rounds IH]; intros w Hready Hans r answer.
  - exists 0%nat. subst r. simpl. split; [done|]. split; [done|]. split; [done|].
    split; [intros; lia|]. left. split; [done|]. split; [intros; lia|done].
  - subst r. rewrite lookups_step; [|done|]; cycle 1.
    { unfold next_fault. rewrite head_lookup. intros Hf.
      apply (Hans 0%nat); [lia|].
      destruct (faults w !! 0%nat) as [f|]; simpl in Hf; by subst. }
    fold (answer 0%nat).
    destruct (answer 0%nat) as [item|] eqn:Ha0.
    + exists 1%nat. cbn [fst snd]. split; [lia|]. split; [done|].
      split.
      { cbn [seq flat_map rev app]. unfold lookup_effects. fold answer.
        by rewrite Ha0. }
      split; [intros; lia|]. right. exists 0%nat, item. done.
    + set (w2 := after_lookup this connectionId [Waited timeout] w).
      assert (Hshift : ∀ i, lookup_answer this w2 connectionId i = answer (S i)).
      { intros i. unfold answer, lookup_answer, w2, after_lookup. cbn [faults tables].
        by rewrite lookup_tail. }
      destruct (IH w2) as (made & Hle & Htables & Htrace & Hnone & Hcase).
      { exact Hready. }
      { intros i Hi. unfold w2, after_lookup; cbn [faults]. rewrite lookup_tail.
        apply Hans. lia. }
      exists (S made). split; [lia|]. split; [by rewrite Htables|]. split.
      { rewrite Htrace. cbn [seq flat_map]. rewrite <-fmap_S_seq, flat_map_fmap.
        rewrite (flat_map_ext (lookup_effects this w2 connectionId timeout)
                   (λ i, lookup_effects this w connectionId timeout (S i))); cycle 1.
        { intros i. unfold lookup_effects. by rewrite Hshift. }
        unfold lookup_effects at 2. fold answer. rewrite Ha0.
        unfold w2, after_lookup. cbn [trace].
        rewrite rev_app_distr. cbn [rev app]. by rewrite <-!app_assoc. }
      split.
      { intros [|i] Hi; [done|]. rewrite <-Hshift. apply Hnone. lia. }
      destruct Hcase as [(-> & Hall & Hr)|(i & item & -> & Hi & Hr)].
      * left. split; [done|]. split; [|done].
        intros [|i] Hi; [done|]. rewrite <-Hshift. apply Hall. lia.
      * right. exists (S i), item. by rewrite <-Hshift.
Qed.

Lemma first_answer_unique (answer : nat → option Item) i j a b :
  (∀ k, (k < i)%nat → answer k = None) → answer i = Some a →
  (∀ k, (k < j)%nat → answer k = None) → answer j = Some b →
  i = j ∧ a = b.
Proof.
  intros Hi Hai Hj Hbj.
  destruct (Nat.lt_trichotomy i j) as [Hlt|[->|Hlt]].
  - rewrite Hj in Hai by done. done.
  - split; [done|]. congruence.
  - rewrite Hi in Hbj by done. done.
Qed.

(** C4.  [hydrateConnection] makes at most [retryCount + 1] lookups, waits
    [timeout] after each one that found no row, and throws
    [ConnectionNotFoundError] exactly when no lookup found a row or the row
    found has a ttl that has elapsed; otherwise it returns the stored row. *)
Theorem hydrateConnection_attempts this w now connectionId options :
  connections_ready this (tables w) →
  let attempts := Z.to_nat (default 0 (options ≫= Connections.retryCount) + 1) in
  let timeout := default 50 (options ≫= Connections.timeout) in
  answered w attempts →
  let answer := lookup_answer this w connectionId in
  let expired item := isTTLExpired now (prop "ttl" (unmarshall item)) in
  let r := Connections.hydrateConnection this now (str connectionId) options w in
  (∃ made,
      (made ≤ attempts)%nat
      ∧ trace r.2
        = rev (flat_map (lookup_effects this w connectionId timeout) (seq 0 made))
          ++ trace w
      ∧ ∀ i, (S i < made)%nat → answer i = None)
  ∧ (r.1 = Throw (ConnectionNotFoundError
                    ("Connection " +:+ connectionId +:+ " not found"))
     ↔ (∀ i, (i < attempts)%nat → answer i = None)
       ∨ ∃ i item,
           (i < attempts)%nat ∧ (∀ j, (j < i)%nat → answer j = None)
           ∧ answer i = Some item ∧ expired item = true)
  ∧ (∀ i item,
        (i < attempts)%nat → (∀ j, (j < i)%nat → answer j = None) →
        answer i = Some item → expired item = false →
        r.1 = Ok (unmarshall item)).
Proof.
  intros Hready attempts timeout Hans answer expired r.
  destruct (lookups_outcome this attempts timeout connectionId w Hready Hans)
    as (made & Hle & _ & Htrace & Hnone & Hcase).
  fold answer in Hnone, Hcase.
  assert (Hr : r = let looked := Connections.lookups this attempts
                                   (str connectionId) timeout w in
                   (match looked.1 with
                    | Ok (Some connection) =>
                        if isTTLExpired now (prop "ttl" connection)
                        then Throw (ConnectionNotFoundError
                               ("Connection " +:+ connectionId +:+ " not found"))
                        else Ok connection
                    | Ok None =>
                        Throw (ConnectionNotFoundError
                                 ("Connection " +:+ connectionId +:+ " not found"))
                    | Throw e => Throw e
                    end, looked.2)).
  { subst r. unfold Connections.hydrateConnection, bind. fold attempts timeout.
    destruct (Connections.lookups _ _ _ _ _) as [[[c|]|e] w']; cbn [fst snd]; try done.
    unfold throw, ret. simpl template. by destruct (isTTLExpired _ _). }
  rewrite Hr. cbn [fst snd]. clear Hr.
  split; [by exists made|].
  destruct Hcase as [(-> & Hall & ->)|(i0 & item0 & -> & Hi0 & ->)].
  - split.
    + split; [by left|done].
    + intros i item Hi _ Hitem. by rewrite Hall in Hitem.
  - assert (Hfirst : ∀ j, (j < i0)%nat → answer j = None).
    { intros j Hj. apply Hnone. lia. }
    split.
    + split.
      * intros Hthrow. right. exists i0, item0. split; [lia|]. split; [done|].
        split; [done|]. unfold expired. by destruct (isTTLExpired _ _).
      * intros [Hall|(i & item & Hi & Hfst & Hitem & Hexp)].
        { rewrite Hall in Hi0 by lia. done. }
        destruct (first_answer_unique answer i i0 item item0) as [-> ->]; try done.
        unfold expired in Hexp. by rewrite Hexp.
    + intros i item Hi Hfst Hitem Hexp.
      destruct (first_answer_unique answer i i0 item item0) as [-> ->]; try done.
      unfold expired in Hexp. by rewrite Hexp.
Qed.

(** The theorem above at work: one retry allowed, the first read
    stale, the second finds the row of [c1]. *)
Lemma hydrateConnection_attempts_witness :
  let this := connection_manager in
  let options := Some {| Connections.retryCount := Some 1;
                         Connections.timeout := None |} in
  let r := Connections.hydrateConnection this 1000 (str "c1") options
             lagging_world in
  connections_ready this (tables lagging_world)
  ∧ answered lagging_world 2
  ∧ r.1 = Ok (unmarshall (stored_connection this 0
                "Thu Jan 01 1970 00:00:00 GMT+0000" "c1"
                "https://example.test/dev")).
Proof.
  intros this options r.
  assert (H1 : connections_ready this (tables lagging_world))
    by (vm_compute; reflexivity).
  assert (H2 : answered lagging_world 2).
  { intros [|[|i]] Hi; vm_compute; discriminate. }
  destruct (hydrateConnection_attempts this lagging_world 1000 "c1" options H1 H2)
    as (_ & _ & Hrow).
  refine (conj H1 (conj H2 (Hrow 1%nat _ _ _ _ _))).
  - vm_compute. lia.
  - intros [|j] Hj; [vm_compute; reflexivity|lia].
  - vm_compute. reflexivity.
  - vm_compute. reflexivity.
Defined.

Lemma hydrateConnection_result this now connectionId options w :
  Connections.hydrateConnection this now (str connectionId) options w
  = let looked :=
      Connections.lookups this
        (Z.to_nat (default 0 (options ≫= Connections.retryCount) + 1))
        (str connectionId) (default 50 (options ≫= Connections.timeout)) w in
    (match looked.1 with
     | Ok (Some connection) =>
         if isTTLExpired now (prop "ttl" connection)
         then Throw (ConnectionNotFoundError
                ("Connection " +:+ connectionId +:+ " not found"))
         else Ok connection
     | Ok None =>
         Throw (ConnectionNotFoundError
                  ("Connection " +:+ connectionId +:+ " not found"))
     | Throw e => Throw e
     end, looked.2).
Proof.
  unfold Connections.hydrateConnection, bind.
  destruct (Connections.lookups _ _ _ _ _) as [[[c|]|e] w']; cbn [fst snd]; try done.
  unfold throw, ret. simpl template. by destruct (isTTLExpired _ _).
Qed.

Lemma registerConnection_result this w now createdAt connectionId endpoint :
  connections_ready this (tables w) →
  in_full (next_fault w) →
  ∃ w1,
    Connections.registerConnection this now createdAt connectionId endpoint w
    = (Ok (JObj [("id", JStr connectionId);
                 ("data", JObj [("endpoint", JStr endpoint); ("context", JObj []);
                                ("isInitialized", JBool false)])]), w1)
    ∧ tables w1
      = apply_write (tables w)
          (Connections.connectionsTable this, [connectionId],
           Some (stored_connection this now createdAt connectionId endpoint))
    ∧ faults w1 = tail (faults w).
Proof.
  intros Hready Hfull. unfold connections_ready in Hready.
  destruct (tables w !! Connections.connectionsTable this) as [t|] eqn:Htab; [|done].
  cbn in Hready. injection Hready as Hs.
  set (item := stored_connection this now createdAt connectionId endpoint).
  assert (Hm : marshall (Object_assign
        [("createdAt", str createdAt);
         ("id", prop "id" (JObj [("id", JStr connectionId);
            ("data", JObj [("endpoint", JStr endpoint); ("context", JObj []);
                           ("isInitialized", JBool false)])]));
         ("data", prop "data" (JObj [("id", JStr connectionId);
            ("data", JObj [("endpoint", JStr endpoint); ("context", JObj []);
                           ("isInitialized", JBool false)])]))]
        match Connections.ttl this with
        | None => []
        | Some seconds => [("ttl", Some (JNum (computeTTL now seconds)))]
        end) = Ok item).
  { unfold item, stored_connection. destruct (Connections.ttl this); reflexivity. }
  assert (He : ∀ f ts, in_full f → ts !! Connections.connectionsTable this = Some t →
            exec f ts (PutItemCommand (Connections.connectionsTable this) item)
            = (Ok (), apply_write ts
                        (Connections.connectionsTable this, [connectionId], Some item))).
  { intros f ts Hf Hts.
    assert (item_key (Schema t) item = Some [connectionId]) as Hk.
    { rewrite Hs. unfold item, stored_connection.
      destruct (Connections.ttl this); reflexivity. }
    destruct f; try done; cbn [exec]; unfold resolve_write; by rewrite Hts, Hk. }
  unfold Connections.registerConnection, bind, lift. rewrite Hm.
  destruct (Connections.debug this); unfold effect, ret, send;
    cbn [tables faults gateway apiGatewayManager trace];
    unfold next_fault in *; cbn [faults];
    rewrite (He _ _ Hfull Htab); eexists; (split; [reflexivity|]); done.
Qed.

(** C7.  A [hydrateConnection] right after [registerConnection], the read
    reflecting the write and the lease not elapsed, returns a connection
    whose data is the registered
    [{endpoint, context: {}, isInitialized: false}]. *)
Theorem hydrate_after_register
    this w now createdAt connectionId endpoint later options :
  connections_ready this (tables w) →
  faults w = [] →
  0 ≤ default 0 (options ≫= Connections.retryCount) →
  match Connections.ttl this with
  | Some seconds =>
      isTTLExpired later (Some (JNum (computeTTL now seconds))) = false
  | None => True
  end →
  let data := JObj [("endpoint", JStr endpoint); ("context", JObj []);
                    ("isInitialized", JBool false)] in
  let registered :=
    Connections.registerConnection this now createdAt connectionId endpoint w in
  let hydrated :=
    Connections.hydrateConnection this later (str connectionId) options
      registered.2 in
  ∃ connection row,
    registered.1 = Ok connection
    ∧ prop "data" connection = Some data
    ∧ hydrated.1 = Ok row
    ∧ prop "id" row = Some (JStr connectionId)
    ∧ prop "data" row = Some data.
Proof.
  intros Hready Hfaults Hretry Hlease data registered hydrated.
  destruct (registerConnection_result this w now createdAt connectionId endpoint)
    as (w1 & Hreg & Ht1 & Hf1); [done|by unfold next_fault; rewrite Hfaults|].
  rewrite Hfaults in Hf1. cbn in Hf1.
  set (item := stored_connection this now createdAt connectionId endpoint) in *.
  assert (Hready1 : connections_ready this (tables w1)).
  { unfold connections_ready. by rewrite Ht1, apply_write_schema. }
  assert (Hanswer : lookup_answer this w1 connectionId 0 = Some item).
  { unfold lookup_answer. rewrite Hf1. cbn [lookup default].
    rewrite Ht1, row_at_apply_write.
    - unfold overwrite. cbn. by rewrite decide_True.
    - unfold connections_ready in Hready. cbn.
      by destruct (tables w !! Connections.connectionsTable this). }
  subst hydrated registered. rewrite Hreg. cbn [fst snd].
  rewrite hydrateConnection_result. cbn zeta.
  destruct (Z.to_nat (default 0 (options ≫= Connections.retryCount) + 1))
    as [|rounds] eqn:Hrounds; [lia|].
  rewrite lookups_step, Hanswer; [|done|by unfold next_fault; rewrite Hf1].
  cbn [fst snd].
  exists (JObj [("id", JStr connectionId); ("data", data)]), (unmarshall item).
  split; [done|]. split; [done|].
  assert (isTTLExpired later (prop "ttl" (unmarshall item)) = false) as ->.
  { unfold item, stored_connection. destruct (Connections.ttl this); [exact Hlease|done]. }
  split; [done|].
  unfold item, stored_connection. destruct (Connections.ttl this); done.
Qed.

(** The theorem above at work: [c1] registers in an empty store and
    is hydrated a second later. *)
Lemma hydrate_after_register_witness :
  let this := connection_manager in
  let w := world_of empty_store in
  let data := JObj [("endpoint", JStr "https://example.test/dev");
                    ("context", JObj []); ("isInitialized", JBool false)] in
  let registered :=
    Connections.registerConnection this 0 "Thu Jan 01 1970 00:00:00 GMT+0000"
      "c1" "https://example.test/dev" w in
  let hydrated :=
    Connections.hydrateConnection this 1000 (str "c1") None registered.2 in
  connections_ready this (tables w)
  ∧ faults w = []
  ∧ 0 ≤ default 0 (None ≫= Connections.retryCount)
  ∧ isTTLExpired 1000 (Some (JNum (computeTTL 0 7200))) = false
  ∧ ∃ connection row,
      registered.1 = Ok connection
      ∧ prop "data" connection = Some data
      ∧ hydrated.1 = Ok row
      ∧ prop "id" row = Some (JStr "c1")
      ∧ prop "data" row = Some data.
Proof.
  intros this w data registered hydrated.
  assert (H1 : connections_ready this (tables w)) by (vm_compute; reflexivity).
  assert (H2 : faults w = []) by reflexivity.
  assert (H3 : 0 ≤ default 0 (None ≫= Connections.retryCount)) by (cbn; lia).
  assert (H4 : isTTLExpired 1000 (Some (JNum (computeTTL 0 7200))) = false)
    by (vm_compute; reflexivity).
  exact (conj H1 (conj H2 (conj H3 (conj H4
    (hydrate_after_register this w 0 "Thu Jan 01 1970 00:00:00 GMT+0000"
       "c1" "https://example.test/dev" 1000 None H1 H2 H3 H4))))).
Defined.

(** C10.  What [registerConnection] returns holds [id] and [data] only,
    never a ttl, while the row it stored carries [createdAt] and, when ttl
    is on, the ttl: a later [hydrateConnection] of the same id that reads
    this row returns a different object. *)
Theorem registerConnection_returns_id_and_data
    this w now createdAt connectionId endpoint :
  connections_ready this (tables w) →
  in_full (next_fault w) →
  let data := JObj [("endpoint", JStr endpoint); ("context", JObj []);
                    ("isInitialized", JBool false)] in
  let returned := JObj [("id", JStr connectionId); ("data", data)] in
  let registered :=
    Connections.registerConnection this now createdAt connectionId endpoint w in
  registered.1 = Ok returned
  ∧ prop "ttl" returned = None
  ∧ ∃ row,
      row_at (tables registered.2) (Connections.connectionsTable this)
        [connectionId] = Some row
      ∧ assoc "createdAt" row = Some (AV_S createdAt)
      ∧ assoc "ttl" row
        = (λ seconds, AV_N (computeTTL now seconds)) <$> Connections.ttl this
      ∧ unmarshall row ≠ returned
      ∧ ∀ later options w' connection,
          tables w' = tables registered.2 → faults w' = [] →
          (Connections.hydrateConnection this later (str connectionId) options w').1
          = Ok connection →
          connection = unmarshall row ∧ connection ≠ returned.
Proof.
  intros Hready Hfull data returned registered.
  destruct (registerConnection_result this w now createdAt connectionId endpoint)
    as (w1 & Hreg & Ht1 & Hf1); [done|done|].
  set (item := stored_connection this now createdAt connectionId endpoint) in *.
  subst registered. rewrite Hreg. cbn [fst snd].
  split; [done|]. split; [done|].
  assert (Hdiff : unmarshall item ≠ returned).
  { unfold item, stored_connection. destruct (Connections.ttl this); done. }
  assert (Hrow : row_at (tables w1) (Connections.connectionsTable this) [connectionId]
                 = Some item).
  { rewrite Ht1, row_at_apply_write.
    - unfold overwrite. cbn. by rewrite decide_True.
    - unfold connections_ready in Hready. cbn.
      by destruct (tables w !! Connections.connectionsTable this). }
  exists item. split; [done|]. split.
  { unfold item, stored_connection. by destruct (Connections.ttl this). }
  split.
  { unfold item, stored_connection. by destruct (Connections.ttl this). }
  split; [done|].
  intros later options w' connection Ht Hf Hhyd.
  enough (connection = unmarshall item) as -> by done.
  rewrite hydrateConnection_result in Hhyd. cbn zeta in Hhyd. cbn [fst] in Hhyd.
  destruct (lookups_outcome this
              (Z.to_nat (default 0 (options ≫= Connections.retryCount) + 1))
              (default 50 (options ≫= Connections.timeout)) connectionId w')
    as (made & _ & _ & _ & _ & Hcase).
  { unfold connections_ready. by rewrite Ht, Ht1, apply_write_schema. }
  { intros i _. by rewrite Hf. }
  destruct Hcase as [(_ & _ & Hr)|(i & item' & _ & Hi & Hr)];
    rewrite Hr in Hhyd; [done|].
  assert (item' = item) as ->.
  { unfold lookup_answer in Hi. rewrite Hf, Ht in Hi. cbn in Hi.
    rewrite Hrow in Hi. by injection Hi. }
  destruct (isTTLExpired _ _); [done|]. by injection Hhyd.
Qed.

(** The theorem above at work: [c1] registers in an
    empty store, ttl on. *)
Lemma registerConnection_returns_id_and_data_witness :
  let this := connection_manager in
  let w := world_of empty_store in
  let registered :=
    Connections.registerConnection this 0 "Thu Jan 01 1970 00:00:00 GMT+0000"
      "c1" "https://example.test/dev" w in
  connections_ready this (tables w)
  ∧ in_full (next_fault w)
  ∧ registered.1
    = Ok (JObj [("id", JStr "c1");
                ("data", JObj [("endpoint", JStr "https://example.test/dev");
                               ("context", JObj []);
                               ("isInitialized", JBool false)])]).
Proof.
  intros this w registered.
  assert (H1 : connections_ready this (tables w)) by (vm_compute; reflexivity).
  assert (H2 : in_full (next_fault w)) by (vm_compute; exact I).
  exact (conj H1 (conj H2
    (proj1 (registerConnection_returns_id_and_data this w 0
              "Thu Jan 01 1970 00:00:00 GMT+0000" "c1"
              "https://example.test/dev" H1 H2)))).
Defined.

(** The test of [sendToConnection], [e && e.statusCode === 410], holds of
    the failures with status 410 and of no other. *)
Lemma gone_status_410 e :
  Connections.gone (TransportFailure e) = true ↔ status_410 e.
Proof.
  unfold status_410. split.
  - destruct e as [| | | | |props]; cbn; try done;
      try (by rewrite andb_false_r).
    destruct (assoc "statusCode" props) as [[| |n| | |]|] eqn:E; try done.
    destruct (decide (n = 410)) as [->|Hn]; [eauto|].
    destruct n as [|p|p]; try done.
    do 9 (destruct p as [p|p|]; try done).
  - intros (props & -> & Hs). cbn. by rewrite Hs.
Qed.

Section Sending.
Context (connectionsTable : string) (sm : Subscriptions.Manager)
        (ttl : option Z) (debug : bool).
Let this : Connections.Manager :=
  {| Connections.connectionsTable := connectionsTable;
     Connections.subscriptions := Subscriptions.as_ISubscriptionManager sm;
     Connections.ttl := ttl;
     Connections.debug := debug |}.


End Sending.


(** An error that carries the status elsewhere, as
    [{name: 'GoneException', $metadata: {httpStatusCode: 410}}] does, is a
    failure like any other: [statusCode] is what is read. *)
Example sendToConnection_reads_statusCode :
  let e := JObj [("name", JStr "GoneException");
                 ("$metadata", JObj [("httpStatusCode", JNum 410)])] in
  let w := {| tables := tables lagging_world; faults := [];
              gateway := [Some e]; apiGatewayManager := None; trace := [] |} in
  let r := Connections.sendToConnection connection_manager
             (connection_of "c1") (JStr "payload") w in
  r.1 = Ok ()
  ∧ tables r.2 = tables w
  ∧ head (trace r.2)
    = Some (LoggedError "warn" "=== error in sendToConnection"
              (TransportFailure e)).
Proof.
  intros e w r. split; [|split].
  - by_computation.
  - by_computation.
  - by_computation.
Qed.

(* ===================================================================== *)
(** * Further properties of DynamoDBRangeSubscriptionManager *)
(* ===================================================================== *)

(** ** Lists, keys and pages *)

Lemma filter_map_snd {A B} (f : B → bool) (l : list (A * B)) :
  map snd (List.filter (λ row, f row.2) l) = List.filter f (map snd l).
Proof.
  induction l as [|[a b] l IH]; simpl; [done|].
  destruct (f b); simpl; by rewrite IH.
Qed.

Lemma filter_filter_andb {A} (f g : A → bool) (l : list A) :
  List.filter g (List.filter f l) = List.filter (λ x, f x && g x) l.
Proof.
  induction l as [|x l IH]; simpl; [done|].
  destruct (f x); simpl; [destruct (g x)|]; by rewrite IH.
Qed.

Lemma filter_all {A} (f : A → bool) l :
  Forall (λ x, f x = true) l → List.filter f l = l.
Proof. induction 1 as [|x l Hx _ IH]; simpl; [done|]. by rewrite Hx, IH. Qed.

Lemma filter_none {A} (f : A → bool) l :
  Forall (λ x, f x = false) l → List.filter f l = [].
Proof.
  induction 1 as [|x l Hx _ IH]; simpl; [done|]. by rewrite Hx.
Qed.

Lemma Forall_List_filter {A} (P : A → Prop) (f : A → bool) l :
  Forall P l → Forall P (List.filter f l).
Proof.
  induction 1 as [|x l Hx _ IH]; simpl; [done|]. destruct (f x); eauto.
Qed.

Lemma elem_of_List_filter {A} (f : A → bool) l x :
  x ∈ l → f x = true → x ∈ List.filter f l.
Proof. intros Hx Hf. apply list_elem_of_In, filter_In. by split; [apply list_elem_of_In|]. Qed.

Lemma rows_get_elem k rows item : rows_get k rows = Some item → (k, item) ∈ rows.
Proof.
  induction rows as [|[k' item'] rows IH]; simpl; [done|].
  case_decide as Hk.
  - intros [= ->]. subst. left.
  - intros H. right. auto.
Qed.

Lemma rows_of_lookup ts table t : ts !! table = Some t → rows_of ts table = TableRows t.
Proof. unfold rows_of. by intros ->. Qed.

Lemma av_equal_eq a v : av_equal a (convertToAttr v) = true → a = convertToAttr v.
Proof.
  destruct a, v; simpl; try done.
  - by intros ->%String.eqb_eq.
  - by intros ->%Z.eqb_eq.
  - by intros ->%Bool.eqb_prop.
Qed.

Lemma string_compare_trans a b c :
  String.compare a b = Lt → String.compare b c = Lt → String.compare a c = Lt.
Proof.
  intros H1%OrderedTypeEx.String_as_OT.cmp_lt H2%OrderedTypeEx.String_as_OT.cmp_lt.
  apply OrderedTypeEx.String_as_OT.cmp_lt.
  by eapply OrderedTypeEx.String_as_OT.lt_trans.
Qed.

Lemma key_compare_trans k1 k2 k3 :
  key_compare k1 k2 = Lt → key_compare k2 k3 = Lt → key_compare k1 k3 = Lt.
Proof.
  revert k2 k3. induction k1 as [|a k1 IH]; intros [|b k2] [|c k3]; simpl; try done.
  destruct (String.compare a b) eqn:Eab; try done;
    destruct (String.compare b c) eqn:Ebc; try done; intros H1 H2.
  - apply OrderedTypeEx.String_as_OT.cmp_eq in Eab as ->.
    rewrite Ebc. eauto.
  - apply OrderedTypeEx.String_as_OT.cmp_eq in Eab as ->. by rewrite Ebc.
  - apply OrderedTypeEx.String_as_OT.cmp_eq in Ebc as ->. by rewrite Eab.
  - by rewrite (string_compare_trans a b c).
Qed.

Lemma key_compare_Lt_Gt k1 k2 : key_compare k1 k2 = Lt → key_compare k2 k1 = Gt.
Proof.
  revert k2. induction k1 as [|a k1 IH]; intros [|b k2]; simpl; try done.
  rewrite (String.compare_antisym a b).
  destruct (String.compare b a); simpl; try done. eauto.
Qed.

Lemma ascending_sorted rows : ascending rows = true → StronglySorted key_lt rows.
Proof.
  induction rows as [|[k1 i1] rows IH]; [constructor|].
  destruct rows as [|[k2 i2] rows]; [by repeat constructor|].
  cbn [ascending]. destruct (key_compare k1 k2) eqn:E; try done. intros Hrest.
  specialize (IH Hrest). constructor; [done|].
  constructor; [done|].
  apply StronglySorted_inv in IH as [_ Hall].
  eapply Forall_impl; [exact Hall|]. intros r Hr. unfold key_lt in *. simpl in *.
  by eapply key_compare_trans.
Qed.

Lemma StronglySorted_List_filter {A} (R : A → A → Prop) f l :
  StronglySorted R l → StronglySorted R (List.filter f l).
Proof.
  induction 1 as [|x l Hs IH Hall]; simpl; [constructor|].
  destruct (f x); [|done]. constructor; [done|].
  clear -Hall. induction Hall as [|y l Hy _ IH]; simpl; [done|].
  destruct (f y); eauto.
Qed.

Lemma filter_after_drop (rows : Rows) n k item :
  StronglySorted key_lt rows →
  rows !! n = Some (k, item) →
  List.filter (λ row, after (Some k) row.1) rows = drop (S n) rows.
Proof.
  intros Hs. revert n. induction Hs as [|r rows Hs IH Hall]; intros n; [done|].
  destruct n as [|n]; simpl.
  - intros [= ->]. simpl. rewrite key_compare_refl.
    rewrite drop_0. apply filter_all.
    eapply Forall_impl; [exact Hall|]. intros r Hr. unfold key_lt in Hr.
    simpl in *. by rewrite Hr.
  - intros Hn.
    assert (key_lt r (k, item)) as Hr.
    { eapply Forall_forall; [exact Hall|]. by eapply list_elem_of_lookup_2. }
    unfold key_lt in Hr. simpl in Hr. rewrite (key_compare_Lt_Gt _ _ Hr).
    by apply IH.
Qed.

Lemma after_trans start k k' :
  after start k = true → after (Some k) k' = true → after start k' = true.
Proof.
  destruct start as [s|]; [|done]. simpl.
  destruct (key_compare s k) eqn:E1; try done.
  destruct (key_compare k k') eqn:E2; try done.
  intros _ _. by rewrite (key_compare_trans _ _ _ E1 E2).
Qed.

Lemma page_of_bounded t i start n items :
  Limit i = Some n →
  Items (page_of t i start) = Some items →
  (length items ≤ n)%nat.
Proof.
  unfold page_of. intros -> [= <-].
  etransitivity; [apply filter_length_le|].
  rewrite length_map, length_take. lia.
Qed.

Lemma read_page_bounded ts i n page items :
  Limit i = Some n →
  read_page ts i = Ok page →
  Items page = Some items →
  (length items ≤ n)%nat.
Proof.
  unfold read_page. intros Hn. destruct (ts !! TableName i) as [t|]; [|done].
  destruct (ExclusiveStartKey i) as [k|].
  - destruct (request_key _ k); [|done]. intros [= <-]. by apply page_of_bounded.
  - intros [= <-]. by apply page_of_bounded.
Qed.

(** ** The pages of [subscribersByEvent], one call at a time *)

Lemma page_of_small this now name t :
  (length (TableRows t) < 50)%nat →
  page_of t (subscribers_query this now name None) None
  = {| Items := Some (fresh now (indexed_under name (TableRows t)));
       LastEvaluatedKey := None |}.
Proof.
  intros Hlen. unfold page_of. cbn [Limit subscribers_query KeyConditionExpression
    FilterExpression after andb].
  set (candidates := List.filter _ (TableRows t)).
  assert (length candidates ≤ length (TableRows t))%nat as Hc
    by apply filter_length_le.
  rewrite take_ge by lia. f_equal.
  - f_equal. unfold fresh, indexed_under, candidates.
    rewrite <-(filter_map_snd (indexed name)).
    apply filter_ext. intros item.
    unfold satisfies, unexpired. cbn. unfold compare_with, operand, resolve_path. cbn.
    destruct (assoc "ttl" item); [by rewrite orb_false_r|done].
  - rewrite decide_False by lia. done.
Qed.

Lemma next_first_page this now name w :
  is_Some (tables w !! Subscriptions.subscriptionsTableName this) →
  (length (rows_of (tables w) (Subscriptions.subscriptionsTableName this)) < 50)%nat →
  next_fault w ≠ Unavailable →
  Subscriptions.next this now
    {| Subscriptions.name := Some name; Subscriptions.cursor := None;
       Subscriptions.done := false |} w
  = (Ok ({| Subscriptions.value := live_page this now name (tables w);
            Subscriptions.result_done :=
              bool_decide (length (live_page this now name (tables w)) = 0%nat) |},
         {| Subscriptions.name := Some name; Subscriptions.cursor := None;
            Subscriptions.done := true |}),
     {| tables := tables w; faults := tail (faults w); gateway := gateway w;
        apiGatewayManager := apiGatewayManager w;
        trace := Sent (Req (QueryCommand (subscribers_query this now name None)))
                 :: trace w |}).
Proof.
  intros [t Ht] Hlen Hf. unfold live_page, rows_of in *. rewrite Ht in *.
  cbn [fmap option_fmap option_map default] in *.
  unfold Subscriptions.next. cbn [Subscriptions.done Subscriptions.name
    Subscriptions.cursor]. unfold bind, lift. cbn [marshall].
  change (convertToAttr (JNum (round_seconds now))) with (AV_N (round_seconds now)).
  fold (subscribers_query this now name None). unfold send.
  assert (exec (next_fault w) (tables w)
            (QueryCommand (subscribers_query this now name None))
          = (Ok (page_of t (subscribers_query this now name None) None), tables w))
    as ->.
  { destruct (next_fault w); try done; cbn [exec]; unfold read_page;
      cbn [TableName subscribers_query ExclusiveStartKey]; by rewrite Ht. }
  rewrite page_of_small by done. reflexivity.
Qed.

(** X1.  Whatever the index holds and wherever the iterator stands, a page
    that [next] returns has at most fifty subscribers, and each of them is a
    row of the primary index, unmarshalled, that is indexed under the
    iterator's name and whose ttl has not elapsed. *)
Theorem next_delivers_live_rows_of_event this now it w :
  match Subscriptions.next this now it w with
  | (Ok (r, _), _) =>
      (length (Subscriptions.value r) ≤ 50)%nat
      ∧ Forall (λ v,
          (∃ k item,
              (k, item) ∈ rows_of (tables w) (Subscriptions.subscriptionsTableName this)
              ∧ v = unmarshall item)
          ∧ prop "event" v = Subscriptions.name it
          ∧ isTTLExpired now (prop "ttl" v) = false) (Subscriptions.value r)
  | (Throw _, _) => True
  end.
Proof.
  destruct (Subscriptions.next this now it w) as [[[r it']|e] w'] eqn:Hnext; [|done].
  split.
  - unfold Subscriptions.next in Hnext.
    destruct (Subscriptions.done it); [injection Hnext as <- _ _; cbn; lia|].
    unfold bind, lift in Hnext. destruct (marshall _) as [values|e]; [|done].
    unfold send in Hnext. destruct (exec _ _ _) as [[page|e] ts] eqn:Hexec; [|done].
    apply exec_query_page in Hexec. injection Hnext as <- _ _.
    cbn [Subscriptions.value].
    destruct (Items page) as [items|] eqn:Hitems; [|cbn; lia].
    rewrite length_map. eapply read_page_bounded; [|exact Hexec|exact Hitems].
    reflexivity.
  - apply Forall_forall. intros v Hv.
    destruct (next_page _ _ _ _ _ _ _ _ Hnext Hv)
      as (name & t & k & item & Hname & Ht & Hrow & -> & Hkey & Hfilter).
    split; [|split].
    + exists k, item. by rewrite (rows_of_lookup _ _ _ Ht).
    + rewrite Hname, prop_unmarshall.
      cbn in Hkey. unfold compare_with, operand, resolve_path in Hkey. cbn in Hkey.
      destruct (assoc "event" item) as [a|]; [|done].
      apply av_equal_eq in Hkey as ->. cbn. by rewrite convert_roundtrip.
    + by eapply ttl_filter_excludes_expired.
Qed.

(** X2.  Once a call of [next] has left the iterator without a cursor, every
    later call returns [{value: [], done: true}] and sends nothing to the
    store. *)
Theorem next_after_last_page this now it w r it' w' :
  Subscriptions.next this now it w = (Ok (r, it'), w') →
  Subscriptions.cursor it' = None →
  ∀ later w'',
    Subscriptions.next this later it' w''
    = (Ok ({| Subscriptions.value := []; Subscriptions.result_done := true |}, it'),
       w'').
Proof.
  intros Hnext Hcursor later w''.
  assert (Subscriptions.done it' = true) as Hdone.
  { unfold Subscriptions.next in Hnext.
    destruct (Subscriptions.done it) eqn:Hd.
    - injection Hnext as _ <- _. done.
    - unfold bind, lift in Hnext.
      destruct (marshall _); [|done].
      destruct (send _ w) as [[page|e] w1]; [|done].
      injection Hnext as _ <- _. cbn in Hcursor |- *. by rewrite Hcursor. }
  unfold Subscriptions.next. by rewrite Hdone.
Qed.

(** The theorem above at work: the one page of event A, then a call a second
    later. *)
Lemma next_after_last_page_witness :
  let this := Subscriptions.default_manager in
  let it := {| Subscriptions.name := Some (JStr "A"); Subscriptions.cursor := None;
               Subscriptions.done := false |} in
  let it' := {| Subscriptions.name := Some (JStr "A"); Subscriptions.cursor := None;
                Subscriptions.done := true |} in
  let first := Subscriptions.next this 0 it one_operation_world in
  first.1 = Ok ({| Subscriptions.value := live_page this 0 (JStr "A")
                                           (tables one_operation_world);
                  Subscriptions.result_done := false |}, it')
  ∧ Subscriptions.cursor it' = None
  ∧ Subscriptions.next this 1000 it' first.2
    = (Ok ({| Subscriptions.value := []; Subscriptions.result_done := true |}, it'),
       first.2).
Proof.
  intros this it it' first.
  assert (H1 : first = (Ok ({| Subscriptions.value := live_page this 0 (JStr "A")
                                           (tables one_operation_world);
                  Subscriptions.result_done := false |}, it'), first.2))
    by (vm_compute; reflexivity).
  assert (H2 : Subscriptions.cursor it' = None) by reflexivity.
  refine (conj _ (conj H2
    (next_after_last_page this 0 it one_operation_world _ it' first.2 H1 H2
       1000 first.2))).
  by rewrite H1.
Defined.

(** X3.  An event the extractor finds no name in gets an iterator all the
    same; the consumer's first call throws the marshalling error, before any
    query is sent. *)
Theorem for_await_without_name this event :
  Subscriptions.getSubscriptionNameFromEvent this event = Ok None →
  ∃ it,
    Subscriptions.subscribersByEvent this event = Ok it
    ∧ ∀ now w calls,
        Subscriptions.for_await this (S calls) now it w
        = (Throw MarshallUndefined, w).
Proof.
  intros Hname. unfold Subscriptions.subscribersByEvent. rewrite Hname.
  eexists. split; [reflexivity|]. intros now w calls. reflexivity.
Qed.

(** The theorem above at work: an event with a payload and no [event]
    field, under the default extractor. *)
Lemma for_await_without_name_witness :
  let this := Subscriptions.default_manager in
  let event := JObj [("payload", JStr "hi")] in
  Subscriptions.getSubscriptionNameFromEvent this event = Ok None
  ∧ ∃ it,
      Subscriptions.subscribersByEvent this event = Ok it
      ∧ ∀ now w calls,
          Subscriptions.for_await this (S calls) now it w
          = (Throw MarshallUndefined, w).
Proof.
  intros this event.
  assert (H1 : Subscriptions.getSubscriptionNameFromEvent this event = Ok None)
    by reflexivity.
  exact (conj H1 (for_await_without_name this event H1)).
Defined.

(** ** The pages of [subscribersByEvent], to the end of the index *)

(** X4.  When the primary index holds fewer than fifty rows and the store
    answers, the consumer's loop sends one query and receives the live rows
    of the event as one page, or no page when there is none. *)
Theorem for_await_single_page this now name w calls :
  is_Some (tables w !! Subscriptions.subscriptionsTableName this) →
  (length (rows_of (tables w) (Subscriptions.subscriptionsTableName this)) < 50)%nat →
  next_fault w ≠ Unavailable →
  let r := Subscriptions.for_await this (S (S calls)) now
             {| Subscriptions.name := Some name; Subscriptions.cursor := None;
                Subscriptions.done := false |} w in
  let page := live_page this now name (tables w) in
  r.1 = Ok match page with [] => [] | _ => [page] end
  ∧ trace r.2
    = Sent (Req (QueryCommand (subscribers_query this now name None))) :: trace w
  ∧ tables r.2 = tables w.
Proof.
  intros Ht Hlen Hf r page.
  assert (r = (Ok match page with [] => [] | _ => [page] end,
               {| tables := tables w; faults := tail (faults w);
                  gateway := gateway w;
                  apiGatewayManager := apiGatewayManager w;
                  trace := Sent (Req (QueryCommand
                             (subscribers_query this now name None))) :: trace w |}))
    as ->; [|done].
  subst r. cbn [Subscriptions.for_await]. unfold bind at 1.
  rewrite next_first_page by done. fold page.
  cbn [Subscriptions.result_done Subscriptions.value].
  destruct page as [|v page].
  - by rewrite bool_decide_true.
  - by rewrite bool_decide_false.
Qed.

(** The theorem above at work: the subscribers of event A, where operation 1
    of [c1] is subscribed to A and B. *)
Lemma for_await_single_page_witness :
  let this := Subscriptions.default_manager in
  let w := one_operation_world in
  let r := Subscriptions.for_await this 2 0
             {| Subscriptions.name := Some (JStr "A"); Subscriptions.cursor := None;
                Subscriptions.done := false |} w in
  is_Some (tables w !! Subscriptions.subscriptionsTableName this)
  ∧ (length (rows_of (tables w) (Subscriptions.subscriptionsTableName this)) < 50)%nat
  ∧ next_fault w ≠ Unavailable
  ∧ map (map (prop "subscriptionId")) <$> match r.1 with Ok pages => Some pages | Throw _ => None end
    = Some [[Some (JStr "c1:1")]].
Proof.
  intros this w r.
  assert (H1 : is_Some (tables w !! Subscriptions.subscriptionsTableName this))
    by (vm_compute; eauto).
  assert (H2 : (length (rows_of (tables w)
                  (Subscriptions.subscriptionsTableName this)) < 50)%nat)
    by (vm_compute; lia).
  assert (H3 : next_fault w ≠ Unavailable) by (vm_compute; discriminate).
  destruct (for_await_single_page this 0 (JStr "A") w 0 H1 H2 H3) as (Hr & _).
  refine (conj H1 (conj H2 (conj H3 _))).
  fold r in Hr. rewrite Hr. vm_compute. reflexivity.
Defined.

Section Pagination.
Context (this : Subscriptions.Manager) (now : Z) (name : JsVal) (t : Table).
Hypothesis Hschema : Schema t = Subscriptions.Subscriptions_schema.
Hypothesis Hkept : well_kept t = true.

Let candidates (start : option Key) : Rows :=
  List.filter (λ row : Key * Item, after start row.1 && indexed name row.2)
    (TableRows t).

Lemma candidates_sorted start : StronglySorted key_lt (candidates start).
Proof.
  apply StronglySorted_List_filter, ascending_sorted.
  unfold well_kept in Hkept. by apply andb_true_iff in Hkept as [? _].
Qed.

Lemma candidates_key start k item :
  (k, item) ∈ candidates start →
  after start k = true
  ∧ request_key (Schema t) (key_item (Schema t) k) = Some k.
Proof.
  intros [Hin Hok]%list_elem_of_In%filter_In. cbn in Hok.
  apply andb_true_iff in Hok as [Hafter _]. split; [done|].
  unfold well_kept in Hkept. apply andb_true_iff in Hkept as [_ Hlen].
  rewrite forallb_forall in Hlen. specialize (Hlen _ Hin). cbn in Hlen.
  apply Nat.eqb_eq in Hlen. rewrite Hschema in *. cbn in Hlen.
  destruct k as [|a [|b [|c k]]]; try done.
Qed.

Lemma candidates_after start k :
  after start k = true →
  candidates (Some k)
  = List.filter (λ row : Key * Item, after (Some k) row.1) (candidates start).
Proof.
  intros Hk. unfold candidates. rewrite filter_filter_andb.
  apply filter_ext. intros [k' item]. cbn [fst snd].
  destruct (after (Some k) k') eqn:E.
  - by rewrite (after_trans _ _ _ Hk E), andb_true_r.
  - by rewrite andb_false_r.
Qed.

Lemma page_of_query cursor start :
  page_of t (subscribers_query this now name cursor) start
  = {| Items :=
         Some (List.filter (unexpired now) (map snd (take 50 (candidates start))));
       LastEvaluatedKey :=
         if decide (length (take 50 (candidates start)) = 50%nat)
         then (λ row : Key * Item, key_item (Schema t) row.1)
                <$> last (take 50 (candidates start))
         else None |}.
Proof.
  unfold page_of. cbn [Limit subscribers_query KeyConditionExpression
    FilterExpression].
  assert (List.filter
            (λ row : Key * Item,
               after start row.1
               && satisfies (subscribers_query this now name cursor)
                    (Some (Equals (Path "event") (Value ":event"))) row.2)
            (TableRows t) = candidates start) as ->.
  { apply filter_ext. intros row. f_equal. }
  f_equal. f_equal. apply filter_ext. intros item.
  unfold satisfies, unexpired. cbn. unfold compare_with, operand, resolve_path. cbn.
  destruct (assoc "ttl" item); [by rewrite orb_false_r|done].
Qed.

Lemma next_with_cursor cursor start w :
  tables w !! Subscriptions.subscriptionsTableName this = Some t →
  faults w = [] →
  cursor_at t cursor start →
  let page := page_of t (subscribers_query this now name cursor) start in
  let value := map unmarshall (default [] (Items page)) in
  Subscriptions.next this now
    {| Subscriptions.name := Some name; Subscriptions.cursor := cursor;
       Subscriptions.done := false |} w
  = (Ok ({| Subscriptions.value := value;
            Subscriptions.result_done := bool_decide (length value = 0%nat) |},
         {| Subscriptions.name := Some name;
            Subscriptions.cursor := LastEvaluatedKey page;
            Subscriptions.done :=
              match LastEvaluatedKey page with None => true | Some _ => false end |}),
     {| tables := tables w; faults := []; gateway := gateway w;
        apiGatewayManager := apiGatewayManager w;
        trace := Sent (Req (QueryCommand (subscribers_query this now name cursor)))
                 :: trace w |}).
Proof.
  intros Ht Hfaults Hcursor page value.
  unfold Subscriptions.next. cbn [Subscriptions.done Subscriptions.name
    Subscriptions.cursor]. unfold bind, lift. cbn [marshall].
  change (convertToAttr (JNum (round_seconds now))) with (AV_N (round_seconds now)).
  fold (subscribers_query this now name cursor). unfold send, next_fault.
  rewrite Hfaults. cbn [head default exec tail].
  assert (read_page (tables w) (subscribers_query this now name cursor) = Ok page)
    as ->.
  { unfold read_page. cbn [TableName subscribers_query ExclusiveStartKey].
    rewrite Ht. unfold cursor_at in Hcursor.
    destruct cursor as [c|], start as [k|]; try done. by rewrite Hcursor. }
  unfold value, page. rewrite page_of_query. reflexivity.
Qed.

Lemma for_await_from fuel : ∀ cursor start w,
  tables w !! Subscriptions.subscriptionsTableName this = Some t →
  faults w = [] →
  cursor_at t cursor start →
  (length (candidates start) + 2 ≤ fuel)%nat →
  no_dead_page now (map snd (candidates start)) →
  ∃ pages w',
    Subscriptions.for_await this fuel now
      {| Subscriptions.name := Some name; Subscriptions.cursor := cursor;
         Subscriptions.done := false |} w
    = (Ok pages, w')
    ∧ concat pages
      = map unmarshall (fresh now (map snd (candidates start)))
    ∧ Forall (λ page : list JsVal, page ≠ [] ∧ (length page ≤ 50)%nat) pages
    ∧ tables w' = tables w.
Proof.
  induction fuel as [|fuel IH]; intros cursor start w Ht Hfaults Hcursor Hfuel Hlive;
    [lia|].
  cbn [Subscriptions.for_await]. unfold bind at 1.
  rewrite (next_with_cursor cursor start w Ht Hfaults Hcursor). cbn zeta.
  rewrite page_of_query. cbn [Items LastEvaluatedKey default from_option id
    Subscriptions.result_done Subscriptions.value].
  set (D := candidates start) in *.
  set (value := map unmarshall (List.filter (unexpired now) (map snd (take 50 D)))).
  assert (Hbound : (length value ≤ 50)%nat).
  { unfold value. rewrite length_map.
    etransitivity; [apply filter_length_le|]. rewrite length_map, length_take. lia. }
  set (w1 := {| tables := tables w; faults := [] |}).
  destruct (decide (length (take 50 D) = 50%nat)) as [Hfull|Hshort].
  - (* a full page: a cursor comes with it *)
    assert (Hlen : (50 ≤ length D)%nat) by (rewrite length_take in Hfull; lia).
    destruct (lookup_lt_is_Some_2 D 49) as [[k item] Hk]; [lia|].
    assert (last (take 50 D) = Some (k, item)) as ->.
    { rewrite last_lookup, Hfull. cbn. rewrite lookup_take_lt by lia. done. }
    cbn [fmap option_fmap option_map fst].
    assert ((k, item) ∈ D) as Hin by by eapply list_elem_of_lookup_2.
    destruct (candidates_key start k item Hin) as [Hafter Hkey].
    assert (Hnext : candidates (Some k) = drop 50 D).
    { rewrite (candidates_after start k Hafter).
      apply (filter_after_drop D 49 k item); [apply candidates_sorted|done]. }
    assert (Hvalue : value ≠ []).
    { unfold value. intros Hnil%map_eq_nil.
      apply (Hlive 0%nat); [rewrite length_map; lia|].
      rewrite drop_0. unfold fresh. by rewrite firstn_map. }
    rewrite bool_decide_false by (by intros ?%nil_length_inv).
    destruct (IH (Some (key_item (Schema t) k)) (Some k) w1)
      as (rest & w' & Hrest & Hconcat & Hpages & Htables).
    { done. }
    { done. }
    { exact Hkey. }
    { rewrite Hnext, length_drop. lia. }
    { rewrite Hnext. intros j Hj. rewrite length_map, length_drop in Hj.
      rewrite skipn_map, drop_drop.
      replace (50 + 50 * j)%nat with (50 * S j)%nat by lia.
      rewrite <-skipn_map. apply Hlive. rewrite length_map. lia. }
    unfold bind. fold w1. rewrite Hrest.
    eexists _, _. split; [reflexivity|]. split; [|split; [|done]].
    + cbn [concat]. rewrite Hconcat, Hnext. unfold value, fresh.
      change (map unmarshall (List.filter (unexpired now) (map snd (take 50 D)))
              ++ map unmarshall (List.filter (unexpired now) (map snd (drop 50 D)))
              = map unmarshall (List.filter (unexpired now) (map snd D))).
      rewrite <-map_app, <-List.filter_app, <-map_app, take_drop. done.
    + constructor; done.
  - (* the last page *)
    assert (Hlen : (length D < 50)%nat) by (rewrite length_take in Hshort; lia).
    assert (Hv : value = map unmarshall (fresh now (map snd D))).
    { unfold value. by rewrite take_ge by lia. }
    clearbody value. rewrite <-Hv.
    destruct value as [|v rest].
    + rewrite bool_decide_true by done.
      eexists _, _. split; [reflexivity|]. split; [done|]. split; [constructor|done].
    + rewrite bool_decide_false by done.
      destruct fuel as [|fuel]; [lia|].
      eexists _, _. split; [reflexivity|]. cbn [concat]. rewrite app_nil_r.
      split; [done|]. split; [|done]. constructor; done.
Qed.
End Pagination.

(** X5.  Over an index of any size, kept in key order, the consumer's loop
    receives every live row indexed under the name, once and in the order of
    the index, in pages of one to fifty rows, provided every full page of
    fifty rows under the name holds a row that has not expired and the store
    answers every query. *)
Theorem for_await_delivers_every_live_row this now name w t calls :
  tables w !! Subscriptions.subscriptionsTableName this = Some t →
  Schema t = Subscriptions.Subscriptions_schema →
  well_kept t = true →
  faults w = [] →
  let rows := indexed_under name (TableRows t) in
  no_dead_page now rows →
  (length rows + 2 ≤ calls)%nat →
  let r := Subscriptions.for_await this calls now
             {| Subscriptions.name := Some name; Subscriptions.cursor := None;
                Subscriptions.done := false |} w in
  ∃ pages,
    r.1 = Ok pages
    ∧ concat pages = map unmarshall (fresh now rows)
    ∧ Forall (λ page : list JsVal, page ≠ [] ∧ (length page ≤ 50)%nat) pages
    ∧ tables r.2 = tables w.
Proof.
  intros Ht Hschema Hkept Hfaults rows Hlive Hcalls r.
  assert (Hrows : map snd (List.filter
                    (λ row : Key * Item, after None row.1 && indexed name row.2)
                    (TableRows t)) = rows).
  { unfold rows, indexed_under. cbn [after andb].
    apply (filter_map_snd (indexed name)). }
  destruct (for_await_from this now name t Hschema Hkept calls None None w)
    as (pages & w' & Hr & Hconcat & Hpages & Htables); try done.
  - rewrite <-(length_map snd), Hrows. done.
  - by rewrite Hrows.
  - exists pages. subst r. rewrite Hr. cbn [fst snd].
    rewrite Hrows in Hconcat. done.
Qed.

(** The theorem above at work: fifty-one subscribers of event A, none
    expired one second after the first fifty subscribed. *)
Lemma for_await_delivers_every_live_row_witness :
  let this := Subscriptions.default_manager in
  let w := stale_world in
  let t := default {| Schema := Subscriptions.Subscriptions_schema; TableRows := [] |}
             (tables w !! "Subscriptions") in
  let rows := indexed_under (JStr "A") (TableRows t) in
  let r := Subscriptions.for_await this 53 1000
             {| Subscriptions.name := Some (JStr "A"); Subscriptions.cursor := None;
                Subscriptions.done := false |} w in
  tables w !! Subscriptions.subscriptionsTableName this = Some t
  ∧ Schema t = Subscriptions.Subscriptions_schema
  ∧ well_kept t = true
  ∧ faults w = []
  ∧ no_dead_page 1000 rows
  ∧ (length rows + 2 ≤ 53)%nat
  ∧ ∃ pages,
      r.1 = Ok pages
      ∧ concat pages = map unmarshall (fresh 1000 rows)
      ∧ Forall (λ page : list JsVal, page ≠ [] ∧ (length page ≤ 50)%nat) pages
      ∧ tables r.2 = tables w.
Proof.
  intros this w t rows r.
  assert (H1 : tables w !! Subscriptions.subscriptionsTableName this = Some t)
    by (vm_compute; reflexivity).
  assert (H2 : Schema t = Subscriptions.Subscriptions_schema)
    by (vm_compute; reflexivity).
  assert (H3 : well_kept t = true) by (vm_compute; reflexivity).
  assert (H4 : faults w = []) by reflexivity.
  assert (Hlen : length rows = 51%nat) by (vm_compute; reflexivity).
  assert (H5 : no_dead_page 1000 rows).
  { intros [|j] Hj; [vm_compute; discriminate|]. rewrite Hlen in Hj. lia. }
  assert (H6 : (length rows + 2 ≤ 53)%nat) by (rewrite Hlen; lia).
  exact (conj H1 (conj H2 (conj H3 (conj H4 (conj H5 (conj H6
    (for_await_delivers_every_live_row this 1000 (JStr "A") w t 53
       H1 H2 H3 H4 H5 H6))))))).
Defined.

(** ** [subscribe] *)

Lemma subscribe_result this w now names connection operation connectionId operationId :
  indexes_ready this (tables w) →
  in_full (next_fault w) →
  prop "id" connection = Some (JStr connectionId) →
  prop "operationId" operation = Some (JStr operationId) →
  let subscriptionId := connectionId +:+ ":" +:+ operationId in
  ∃ w1,
    Subscriptions.subscribe this now names connection operation w = (Ok (), w1)
    ∧ faults w1 = tail (faults w)
    ∧ gateway w1 = gateway w
    ∧ apiGatewayManager w1 = apiGatewayManager w
    ∧ (∀ e s,
         primary_row this (tables w1) e s
         = if decide (e ∈ names ∧ s = subscriptionId)
           then Some (subscription_item this now connection operation e
                        subscriptionId operationId)
           else primary_row this (tables w) e s)
    ∧ (∀ e s,
         secondary_row this (tables w1) s e
         = if decide (e ∈ names ∧ s = subscriptionId)
           then Some (operation_item this now e subscriptionId)
           else secondary_row this (tables w) s e)
    ∧ (∀ table,
         table ≠ Subscriptions.subscriptionsTableName this →
         table ≠ Subscriptions.subscriptionOperationsTableName this →
         tables w1 !! table = tables w !! table)
    ∧ indexes_ready this (tables w1).
Proof.
  intros Hready Hfull Hid Hop sid.
  pose proof Hready as (Hne & Hs1 & Hs2).
  destruct (tables w !! Subscriptions.subscriptionsTableName this) as [t1|] eqn:Ht1;
    [|done].
  destruct (tables w !! Subscriptions.subscriptionOperationsTableName this)
    as [t2|] eqn:Ht2; [|done].
  simpl in Hs1, Hs2. injection Hs1 as Hs1. injection Hs2 as Hs2.
  set (item1 := λ name : string,
         subscription_item this now connection operation name sid operationId).
  set (item2 := λ name : string, operation_item this now name sid).
  set (ws1 := map (λ n, (Subscriptions.subscriptionsTableName this, [n; sid],
                         Some (item1 n))) names : list Write).
  set (ws2 := map (λ n, (Subscriptions.subscriptionOperationsTableName this,
                         [sid; n], Some (item2 n))) names : list Write).
  assert (Hr : Subscriptions.subscribe this now names connection operation w
               = (Ok (),
             {| tables := apply_writes (tables w) (ws1 ++ ws2);
                faults := tail (faults w); gateway := gateway w;
                apiGatewayManager := apiGatewayManager w;
                trace := Sent (Req (BatchWriteItemCommand
                  [(Subscriptions.subscriptionsTableName this,
                    map PutRequest (map item1 names));
                   (Subscriptions.subscriptionOperationsTableName this,
                    map PutRequest (map item2 names))])) :: trace w |})).
  { unfold Subscriptions.subscribe, bind, lift.
    rewrite (member_prop _ _ _ Hid), (member_prop _ _ _ Hop).
    unfold Subscriptions.generateSubscriptionId. simpl template. fold sid.
    rewrite (sequence_map_Ok _ item1); cycle 1.
    { intros n _. unfold item1, subscription_item, ttl_attribute,
        Subscriptions.ttlField.
      destruct (Subscriptions.ttl this); reflexivity. }
    rewrite (sequence_map_Ok _ item2); cycle 1.
    { intros n _. unfold item2, operation_item, ttl_attribute,
        Subscriptions.ttlField.
      destruct (Subscriptions.ttl this); reflexivity. }
    unfold send.
    assert (object_literal
      [(Subscriptions.subscriptionsTableName this, map PutRequest (map item1 names));
       (Subscriptions.subscriptionOperationsTableName this,
        map PutRequest (map item2 names))]
      = [(Subscriptions.subscriptionsTableName this, map PutRequest (map item1 names));
       (Subscriptions.subscriptionOperationsTableName this,
        map PutRequest (map item2 names))]) as ->.
    { unfold object_literal, Object_assign. simpl.
      destruct (String.eqb _ _) eqn:E; [|done]. by apply String.eqb_eq in E. }
    erewrite exec_batch_in_full; [reflexivity|done|].
    unfold batch_requests. simpl. rewrite app_nil_r.
    apply resolve_writes_app.
    - apply (resolve_puts _ _ t1 (λ n, [n; sid])); [done|].
      intros n. rewrite Hs1. unfold item1, subscription_item, ttl_attribute.
      destruct (Subscriptions.ttl this); reflexivity.
    - apply (resolve_puts _ _ t2 (λ n, [sid; n])); [done|].
      intros n. rewrite Hs2. unfold item2, operation_item, ttl_attribute.
      destruct (Subscriptions.ttl this); reflexivity. }
  assert (Hexists : Forall (λ w0 : Write, is_Some (tables w !! w0.1.1)) (ws1 ++ ws2)).
  { apply Forall_app. split; apply Forall_forall; intros x Hx;
      apply list_elem_of_fmap in Hx as (n & -> & _); simpl; eauto. }
  eexists. split; [exact Hr|]. cbn [tables faults gateway apiGatewayManager].
  split; [done|]. split; [done|]. split; [done|].
  split; [|split; [|split; [|split; [|split]]]].
  - intros e s. unfold primary_row. rewrite row_at_apply_writes by done.
    rewrite foldl_app_overwrite. unfold ws2.
    rewrite (foldl_overwrite_other_table _ (λ n, [sid; n]) (λ n, Some (item2 n)))
      by done.
    case_decide as Hd.
    + destruct Hd as [He ->]. unfold ws1.
      apply (foldl_overwrite_written _ (λ n, [n; sid]) (λ n, Some (item1 n)));
        [|done]. by intros ?? [= ->].
    + unfold ws1.
      apply (foldl_overwrite_other_key _ (λ n, [n; sid]) (λ n, Some (item1 n))).
      intros n Hn [= -> ->]. by apply Hd.
  - intros e s. unfold secondary_row. rewrite row_at_apply_writes by done.
    rewrite foldl_app_overwrite. unfold ws1.
    rewrite (foldl_overwrite_other_table _ (λ n, [n; sid]) (λ n, Some (item1 n)))
      by done.
    case_decide as Hd.
    + destruct Hd as [He ->]. unfold ws2.
      apply (foldl_overwrite_written _ (λ n, [sid; n]) (λ n, Some (item2 n)));
        [|done]. by intros ?? [= ->].
    + unfold ws2.
      apply (foldl_overwrite_other_key _ (λ n, [sid; n]) (λ n, Some (item2 n))).
      intros n Hn [= -> ->]. by apply Hd.
  - intros table Hn1 Hn2. apply apply_writes_lookup_ne.
    apply Forall_app. split; apply Forall_forall; intros x Hx;
      apply list_elem_of_fmap in Hx as (n & -> & _); simpl; done.
  - done.
  - rewrite apply_writes_schema, Ht1. simpl. by rewrite Hs1.
  - rewrite apply_writes_schema, Ht2. simpl. by rewrite Hs2.
Qed.

(** X6.  [subscribe] only puts: the rows of every pair other than those of
    the names given, the rows of the same operation under other event names
    among them, stay as they were, no row of either index is removed, and no
    other table is touched. *)
Theorem subscribe_keeps_other_rows
    this w now names connection operation connectionId operationId :
  indexes_ready this (tables w) →
  in_full (next_fault w) →
  prop "id" connection = Some (JStr connectionId) →
  prop "operationId" operation = Some (JStr operationId) →
  let subscriptionId := connectionId +:+ ":" +:+ operationId in
  let r := Subscriptions.subscribe this now names connection operation w in
  (∀ event subscriptionId',
      ¬ (event ∈ names ∧ subscriptionId' = subscriptionId) →
      primary_row this (tables r.2) event subscriptionId'
      = primary_row this (tables w) event subscriptionId'
      ∧ secondary_row this (tables r.2) subscriptionId' event
        = secondary_row this (tables w) subscriptionId' event)
  ∧ (∀ event subscriptionId',
       (is_Some (primary_row this (tables w) event subscriptionId') →
        is_Some (primary_row this (tables r.2) event subscriptionId'))
       ∧ (is_Some (secondary_row this (tables w) subscriptionId' event) →
          is_Some (secondary_row this (tables r.2) subscriptionId' event)))
  ∧ (∀ table,
       table ≠ Subscriptions.subscriptionsTableName this →
       table ≠ Subscriptions.subscriptionOperationsTableName this →
       tables r.2 !! table = tables w !! table).
Proof.
  intros Hready Hfull Hid Hop sid r.
  destruct (subscribe_result this w now names connection operation
              connectionId operationId Hready Hfull Hid Hop)
    as (w1 & Hr & _ & _ & _ & Hprimary & Hsecondary & Hother & _).
  subst r. rewrite Hr. cbn [snd]. split; [|split].
  - intros e s Hes. by rewrite Hprimary, Hsecondary, !decide_False.
  - intros e s. rewrite Hprimary, Hsecondary. by case_decide.
  - exact Hother.
Qed.

(** The theorem above at work: operation 1 of [c1], subscribed to A and B,
    subscribes again, to B and C; its row under A stays. *)
Lemma subscribe_keeps_other_rows_witness :
  let this := Subscriptions.default_manager in
  let w := one_operation_world in
  let r := Subscriptions.subscribe this 5000 ["B"; "C"]
             (connection_of "c1") (operation_of "1") w in
  indexes_ready this (tables w)
  ∧ in_full (next_fault w)
  ∧ prop "id" (connection_of "c1") = Some (JStr "c1")
  ∧ prop "operationId" (operation_of "1") = Some (JStr "1")
  ∧ ¬ ("A" ∈ ["B"; "C"] ∧ "c1:1" = "c1" +:+ ":" +:+ "1")
  ∧ primary_row this (tables r.2) "A" "c1:1" = primary_row this (tables w) "A" "c1:1"
  ∧ is_Some (primary_row this (tables r.2) "A" "c1:1").
Proof.
  intros this w r.
  assert (H1 : indexes_ready this (tables w)).
  { split; [vm_compute; discriminate|]. split; vm_compute; reflexivity. }
  assert (H2 : in_full (next_fault w)) by (vm_compute; exact I).
  assert (H3 : prop "id" (connection_of "c1") = Some (JStr "c1")) by reflexivity.
  assert (H4 : prop "operationId" (operation_of "1") = Some (JStr "1"))
    by reflexivity.
  assert (H5 : ¬ ("A" ∈ ["B"; "C"] ∧ "c1:1" = "c1" +:+ ":" +:+ "1")).
  { intros [Hin _]. by repeat (apply elem_of_cons in Hin as [?|Hin]; [done|]);
      apply elem_of_nil in Hin. }
  destruct (subscribe_keeps_other_rows this w 5000 ["B"; "C"]
              (connection_of "c1") (operation_of "1") "c1" "1" H1 H2 H3 H4)
    as (Hframe & Hkept & _).
  refine (conj H1 (conj H2 (conj H3 (conj H4 (conj H5
            (conj (proj1 (Hframe "A" "c1:1" H5)) _)))))).
  apply (proj1 (Hkept "A" "c1:1")). vm_compute. eauto.
Defined.

(** X7.  A subscriber is delivered from the moment it subscribed until its
    lease ends: with the index small enough for one page and the store
    answering, the first page of [subscribersByEvent] for one of its event
    names holds the subscriber as [subscribe] stored it, at every clock
    reading short of the lease (at every one when ttl is off). *)
Theorem subscriber_delivered_until_lease_ends
    this w now later names connection operation connectionId operationId name :
  indexes_ready this (tables w) →
  faults w = [] →
  prop "id" connection = Some (JStr connectionId) →
  prop "operationId" operation = Some (JStr operationId) →
  name ∈ names →
  match Subscriptions.ttl this with
  | Some seconds => round_seconds later < computeTTL now seconds
  | None => True
  end →
  let subscriptionId := connectionId +:+ ":" +:+ operationId in
  let subscribed := Subscriptions.subscribe this now names connection operation w in
  (length (rows_of (tables subscribed.2)
             (Subscriptions.subscriptionsTableName this)) < 50)%nat →
  let r := Subscriptions.next this later
             {| Subscriptions.name := Some (JStr name);
                Subscriptions.cursor := None;
                Subscriptions.done := false |} subscribed.2 in
  ∃ page it',
    r.1 = Ok (page, it')
    ∧ JObj ([("connection", connection); ("operation", operation);
             ("event", JStr name); ("subscriptionId", JStr subscriptionId);
             ("operationId", JStr operationId)]
            ++ match Subscriptions.ttl this with
               | Some seconds => [("ttl", JNum (computeTTL now seconds))]
               | None => []
               end)
      ∈ Subscriptions.value page.
Proof.
  intros Hready Hfaults Hid Hop Hname Hlease sid subscribed Hlen r.
  destruct (subscribe_result this w now names connection operation
              connectionId operationId Hready)
    as (w1 & Hr & Hf1 & _ & _ & Hprimary & _ & _ & Hready1);
    [by unfold next_fault; rewrite Hfaults|done|done|].
  subst r subscribed. rewrite Hr in Hlen |- *. cbn [snd] in Hlen |- *.
  rewrite Hfaults in Hf1. cbn in Hf1.
  destruct Hready1 as (_ & Hs1 & _).
  destruct (tables w1 !! Subscriptions.subscriptionsTableName this) as [t1|] eqn:Ht1;
    [|done].
  rewrite next_first_page;
    [|by rewrite Ht1|done|by unfold next_fault; rewrite Hf1].
  cbn [fst]. eexists _, _. split; [reflexivity|]. cbn [Subscriptions.value].
  set (item := subscription_item this now connection operation name sid operationId).
  assert (unmarshall item
          = JObj ([("connection", connection); ("operation", operation);
                   ("event", JStr name); ("subscriptionId", JStr sid);
                   ("operationId", JStr operationId)]
                  ++ match Subscriptions.ttl this with
                     | Some seconds => [("ttl", JNum (computeTTL now seconds))]
                     | None => []
                     end)) as <-.
  { unfold item, subscription_item, ttl_attribute, unmarshall.
    destruct (Subscriptions.ttl this); cbn; by rewrite !convert_roundtrip. }
  unfold live_page, fresh, indexed_under. apply list_elem_of_fmap_2.
  apply elem_of_List_filter; [apply elem_of_List_filter|].
  - apply (list_elem_of_fmap_2 snd _ ([name; sid], item)).
    rewrite (rows_of_lookup _ _ _ Ht1). apply rows_get_elem.
    specialize (Hprimary name sid). unfold primary_row, row_at in Hprimary.
    rewrite Ht1 in Hprimary. cbn in Hprimary. rewrite Hprimary.
    by rewrite decide_True.
  - unfold indexed, item, subscription_item. cbn. apply String.eqb_refl.
  - unfold unexpired, item, subscription_item, ttl_attribute.
    destruct (Subscriptions.ttl this) as [seconds|]; cbn; [|done].
    by apply Z.ltb_lt.
Qed.

(** The theorem above at work: [c1] subscribes to A and B at time 0 with a
    lease of two hours, and is delivered for A one second before the lease
    ends. *)
Lemma subscriber_delivered_until_lease_ends_witness :
  let this := Subscriptions.default_manager in
  let w := world_of empty_store in
  let subscribed := Subscriptions.subscribe this 0 ["A"; "B"]
                      (connection_of "c1") (operation_of "1") w in
  let r := Subscriptions.next this 7199000
             {| Subscriptions.name := Some (JStr "A");
                Subscriptions.cursor := None;
                Subscriptions.done := false |} subscribed.2 in
  indexes_ready this (tables w)
  ∧ faults w = []
  ∧ prop "id" (connection_of "c1") = Some (JStr "c1")
  ∧ prop "operationId" (operation_of "1") = Some (JStr "1")
  ∧ "A" ∈ ["A"; "B"]
  ∧ round_seconds 7199000 < computeTTL 0 7200
  ∧ (length (rows_of (tables subscribed.2)
               (Subscriptions.subscriptionsTableName this)) < 50)%nat
  ∧ ∃ page it',
      r.1 = Ok (page, it')
      ∧ JObj [("connection", connection_of "c1"); ("operation", operation_of "1");
              ("event", JStr "A"); ("subscriptionId", JStr "c1:1");
              ("operationId", JStr "1"); ("ttl", JNum 7200)]
        ∈ Subscriptions.value page.
Proof.
  intros this w subscribed r.
  assert (H1 : indexes_ready this (tables w)).
  { split; [vm_compute; discriminate|]. split; vm_compute; reflexivity. }
  assert (H2 : faults w = []) by reflexivity.
  assert (H3 : prop "id" (connection_of "c1") = Some (JStr "c1")) by reflexivity.
  assert (H4 : prop "operationId" (operation_of "1") = Some (JStr "1"))
    by reflexivity.
  assert (H5 : "A" ∈ ["A"; "B"]) by left.
  assert (H6 : round_seconds 7199000 < computeTTL 0 7200) by (vm_compute; reflexivity).
  assert (H7 : (length (rows_of (tables subscribed.2)
               (Subscriptions.subscriptionsTableName this)) < 50)%nat)
    by (vm_compute; lia).
  exact (conj H1 (conj H2 (conj H3 (conj H4 (conj H5 (conj H6 (conj H7
    (subscriber_delivered_until_lease_ends this w 0 7199000 ["A"; "B"]
       (connection_of "c1") (operation_of "1") "c1" "1" "A"
       H1 H2 H3 H4 H5 H6 H7)))))))).
Defined.

(** X8.  An operation without an [operationId] cannot subscribe: with a
    name to subscribe to, [subscribe] throws the marshalling error and sends
    nothing. *)
Theorem subscribe_without_operationId this w now names connection operation :
  names ≠ [] →
  connection ≠ JNull →
  operation ≠ JNull →
  prop "operationId" operation = None →
  Subscriptions.subscribe this now names connection operation w
  = (Throw MarshallUndefined, w).
Proof.
  intros Hnames Hc Ho Hop.
  unfold Subscriptions.subscribe, bind, lift, member.
  destruct names as [|name names]; [done|].
  destruct connection; try done; destruct operation; try done;
    cbn [prop] in Hop |- *; rewrite ?Hop;
    unfold Subscriptions.ttlField; destruct (Subscriptions.ttl this); reflexivity.
Qed.

(** The theorem above at work: an operation that holds a query and no
    id. *)
Lemma subscribe_without_operationId_witness :
  let this := Subscriptions.default_manager in
  let w := world_of empty_store in
  ["A"] ≠ []
  ∧ connection_of "c1" ≠ JNull
  ∧ JObj [("query", JStr "subscription { x }")] ≠ JNull
  ∧ prop "operationId" (JObj [("query", JStr "subscription { x }")]) = None
  ∧ Subscriptions.subscribe this 0 ["A"] (connection_of "c1")
      (JObj [("query", JStr "subscription { x }")]) w
    = (Throw MarshallUndefined, w).
Proof.
  intros this w.
  assert (H1 : ["A"] ≠ ([] : list string)) by discriminate.
  assert (H2 : connection_of "c1" ≠ JNull) by discriminate.
  assert (H3 : JObj [("query", JStr "subscription { x }")] ≠ JNull) by discriminate.
  assert (H4 : prop "operationId" (JObj [("query", JStr "subscription { x }")]) = None)
    by reflexivity.
  exact (conj H1 (conj H2 (conj H3 (conj H4
    (subscribe_without_operationId this w 0 ["A"] (connection_of "c1")
       (JObj [("query", JStr "subscription { x }")]) H1 H2 H3 H4))))).
Defined.

(** ** [unsubscribe] *)

Lemma unsubscribe_result this w subscriber connection connectionId operationId event :
  indexes_ready this (tables w) →
  in_full (next_fault w) →
  prop "connection" subscriber = Some connection →
  prop "id" connection = Some (JStr connectionId) →
  prop "operationId" subscriber = Some (JStr operationId) →
  prop "event" subscriber = Some (JStr event) →
  let subscriptionId := connectionId +:+ ":" +:+ operationId in
  ∃ w1,
    Subscriptions.unsubscribe this subscriber w = (Ok (), w1)
    ∧ (∀ e s,
         primary_row this (tables w1) e s
         = if decide ((e, s) = (event, subscriptionId)) then None
           else primary_row this (tables w) e s)
    ∧ (∀ e s,
         secondary_row this (tables w1) s e
         = if decide ((e, s) = (event, subscriptionId)) then None
           else secondary_row this (tables w) s e).
Proof.
  intros (Hne & Hs1 & Hs2) Hfull Hconn Hid Hop Hev sid.
  destruct (tables w !! Subscriptions.subscriptionsTableName this) as [t1|] eqn:Ht1;
    [|done].
  destruct (tables w !! Subscriptions.subscriptionOperationsTableName this)
    as [t2|] eqn:Ht2; [|done].
  simpl in Hs1, Hs2. injection Hs1 as Hs1. injection Hs2 as Hs2.
  set (key1 := [("event", AV_S event); ("subscriptionId", AV_S sid)]).
  set (key2 := [("subscriptionId", AV_S sid); ("event", AV_S event)]).
  set (ws := [(Subscriptions.subscriptionsTableName this, [event; sid], None);
              (Subscriptions.subscriptionOperationsTableName this, [sid; event], None)]
             : list Write).
  set (items := [Delete (Subscriptions.subscriptionsTableName this) key1;
                 Delete (Subscriptions.subscriptionOperationsTableName this) key2]).
  assert (Hws : resolve_writes (tables w) (map transact_request items) = Ok ws).
  { unfold resolve_writes, resolve_write. simpl. rewrite Ht1, Ht2, Hs1, Hs2. reflexivity. }
  assert (Hexec : exec (next_fault w) (tables w) (TransactWriteItemsCommand items)
                  = (Ok (), apply_writes (tables w) ws)).
  { destruct (next_fault w); try done; cbn [exec]; by rewrite Hws. }
  assert (Hexists : Forall (λ w0 : Write, is_Some (tables w !! w0.1.1)) ws).
  { repeat constructor; simpl; eauto. }
  eexists. split; [|split].
  - unfold Subscriptions.unsubscribe, bind, lift, member.
    destruct subscriber; try done. rewrite Hconn.
    destruct connection; try done. rewrite Hid, Hop, Hev.
    unfold Subscriptions.generateSubscriptionId. simpl template. fold sid.
    simpl marshall. fold key1 key2. unfold send. unfold items in Hexec.
    rewrite Hexec. reflexivity.
  - intros e s. cbn [tables]. unfold primary_row.
    rewrite row_at_apply_writes by done.
    simpl. unfold overwrite; simpl.
    rewrite (decide_False (P := _ ∧ [sid; event] = _)) by (by intros [? _]).
    case_decide as H1; case_decide as H2; try done.
    + destruct H2. destruct H1 as [_ [= -> ->]]. done.
    + destruct H1. by injection H2 as -> ->.
  - intros e s. cbn [tables]. unfold secondary_row.
    rewrite row_at_apply_writes by done.
    simpl. unfold overwrite; simpl.
    rewrite (decide_False (P := _ ∧ [event; sid] = _)) by (by intros [? _]).
    case_decide as H1; case_decide as H2; try done.
    + destruct H2. destruct H1 as [_ [= -> ->]]. done.
    + destruct H1. by injection H2 as -> ->.
Qed.

Lemma unsubscribe_outcome this w subscriber connection connectionId operationId event :
  indexes_ready this (tables w) →
  prop "connection" subscriber = Some connection →
  prop "id" connection = Some (JStr connectionId) →
  prop "operationId" subscriber = Some (JStr operationId) →
  prop "event" subscriber = Some (JStr event) →
  let subscriptionId := connectionId +:+ ":" +:+ operationId in
  let r := Subscriptions.unsubscribe this subscriber w in
  tables r.2 = tables w
  ∨ ((∀ e s,
        primary_row this (tables r.2) e s
        = if decide ((e, s) = (event, subscriptionId)) then None
          else primary_row this (tables w) e s)
     ∧ (∀ e s,
          secondary_row this (tables r.2) s e
          = if decide ((e, s) = (event, subscriptionId)) then None
            else secondary_row this (tables w) s e)).
Proof.
  intros Hready Hconn Hid Hop Hev sid r.
  assert (in_full (next_fault w) ∨ ¬ in_full (next_fault w)) as [Hfull|Hfault]
    by (destruct (next_fault w); simpl; tauto).
  - right.
    destruct (unsubscribe_result this w subscriber connection connectionId
                operationId event Hready Hfull Hconn Hid Hop Hev)
      as (w1 & Hr & Hp & Hs).
    subst r. rewrite Hr. done.
  - left. subst r.
    unfold Subscriptions.unsubscribe, bind, lift, member.
    destruct subscriber; try done. rewrite Hconn.
    destruct connection; try done. rewrite Hid, Hop, Hev.
    simpl marshall. unfold send.
    destruct (exec _ _ _) as [[[]|e] ts] eqn:Hexec.
    + destruct (next_fault w); cbn [exec] in Hexec; try done;
        try (by destruct Hfault).
      by destruct (resolve_writes _ _).
    + by apply exec_throws in Hexec as [_ ->].
Qed.

(** X9.  [unsubscribe] undoes [subscribe]: given the subscriber as
    [subscribersByEvent] yields it, that is the row [subscribe] stored,
    unmarshalled, it removes the pair from both indexes and leaves the rows
    of every other pair as [subscribe] left them. *)
Theorem unsubscribe_undoes_subscribe
    this w now names connection operation connectionId operationId name :
  indexes_ready this (tables w) →
  faults w = [] →
  prop "id" connection = Some (JStr connectionId) →
  prop "operationId" operation = Some (JStr operationId) →
  name ∈ names →
  let subscriptionId := connectionId +:+ ":" +:+ operationId in
  let subscribed := Subscriptions.subscribe this now names connection operation w in
  let subscriber :=
    JObj ([("connection", connection); ("operation", operation);
           ("event", JStr name); ("subscriptionId", JStr subscriptionId);
           ("operationId", JStr operationId)]
          ++ match Subscriptions.ttl this with
             | Some seconds => [("ttl", JNum (computeTTL now seconds))]
             | None => []
             end) in
  let r := Subscriptions.unsubscribe this subscriber subscribed.2 in
  (unmarshall <$> primary_row this (tables subscribed.2) name subscriptionId
   = Some subscriber)
  ∧ r.1 = Ok ()
  ∧ primary_row this (tables r.2) name subscriptionId = None
  ∧ secondary_row this (tables r.2) subscriptionId name = None
  ∧ (∀ event subscriptionId',
       (event, subscriptionId') ≠ (name, subscriptionId) →
       primary_row this (tables r.2) event subscriptionId'
       = primary_row this (tables subscribed.2) event subscriptionId'
       ∧ secondary_row this (tables r.2) subscriptionId' event
         = secondary_row this (tables subscribed.2) subscriptionId' event)
  ∧ (∀ event subscriptionId',
       ¬ (event ∈ names ∧ subscriptionId' = subscriptionId) →
       primary_row this (tables r.2) event subscriptionId'
       = primary_row this (tables w) event subscriptionId'
       ∧ secondary_row this (tables r.2) subscriptionId' event
         = secondary_row this (tables w) subscriptionId' event).
Proof.
  intros Hready Hfaults Hid Hop Hname sid subscribed subscriber r.
  destruct (subscribe_result this w now names connection operation
              connectionId operationId Hready)
    as (w1 & Hr & Hf1 & _ & _ & Hprimary & Hsecondary & _ & Hready1);
    [by unfold next_fault; rewrite Hfaults|done|done|].
  rewrite Hfaults in Hf1. cbn in Hf1.
  assert (Hsub : unmarshall (subscription_item this now connection operation name
                               sid operationId) = subscriber).
  { unfold subscriber, subscription_item, ttl_attribute, unmarshall.
    destruct (Subscriptions.ttl this); cbn; by rewrite !convert_roundtrip. }
  destruct (unsubscribe_result this w1 subscriber connection connectionId
              operationId name Hready1)
    as (w2 & Hr2 & Hprimary2 & Hsecondary2);
    [by unfold next_fault; rewrite Hf1|done|done|done|done|].
  subst r subscribed. rewrite Hr. cbn [snd]. rewrite Hr2. cbn [fst snd].
  split; [|split; [done|split; [|split; [|split]]]].
  - rewrite Hprimary, decide_True by done. by rewrite <-Hsub.
  - by rewrite Hprimary2, decide_True.
  - by rewrite Hsecondary2, decide_True.
  - intros e s Hes. by rewrite Hprimary2, Hsecondary2, !decide_False.
  - intros e s Hes.
    assert ((e, s) ≠ (name, sid)) as Hne.
    { intros [= -> ->]. by apply Hes. }
    by rewrite Hprimary2, Hsecondary2, Hprimary, Hsecondary, !decide_False.
Qed.

(** The theorem above at work: [c1] subscribes its operation 1 to A, and
    unsubscribes. *)
Lemma unsubscribe_undoes_subscribe_witness :
  let this := Subscriptions.default_manager in
  let w := world_of empty_store in
  let subscribed := Subscriptions.subscribe this 0 ["A"]
                      (connection_of "c1") (operation_of "1") w in
  let subscriber :=
    JObj [("connection", connection_of "c1"); ("operation", operation_of "1");
          ("event", JStr "A"); ("subscriptionId", JStr "c1:1");
          ("operationId", JStr "1"); ("ttl", JNum 7200)] in
  let r := Subscriptions.unsubscribe this subscriber subscribed.2 in
  indexes_ready this (tables w)
  ∧ faults w = []
  ∧ prop "id" (connection_of "c1") = Some (JStr "c1")
  ∧ prop "operationId" (operation_of "1") = Some (JStr "1")
  ∧ "A" ∈ ["A"]
  ∧ r.1 = Ok ()
  ∧ primary_row this (tables r.2) "A" "c1:1" = None
  ∧ secondary_row this (tables r.2) "c1:1" "A" = None.
Proof.
  intros this w subscribed subscriber r.
  assert (H1 : indexes_ready this (tables w)).
  { split; [vm_compute; discriminate|]. split; vm_compute; reflexivity. }
  assert (H2 : faults w = []) by reflexivity.
  assert (H3 : prop "id" (connection_of "c1") = Some (JStr "c1")) by reflexivity.
  assert (H4 : prop "operationId" (operation_of "1") = Some (JStr "1"))
    by reflexivity.
  assert (H5 : "A" ∈ ["A"]) by left.
  destruct (unsubscribe_undoes_subscribe this w 0 ["A"]
              (connection_of "c1") (operation_of "1") "c1" "1" "A" H1 H2 H3 H4 H5)
    as (_ & Hok & Hp & Hs & _).
  exact (conj H1 (conj H2 (conj H3 (conj H4 (conj H5 (conj Hok (conj Hp Hs))))))).
Defined.

(** X10.  [unsubscribe] keeps the two indexes consistent whatever happens
    at the store: a pair is in both or in neither, with one ttl, after the
    call as before it. *)
Theorem unsubscribe_keeps_indexes_consistent
    this w subscriber connection connectionId operationId event :
  indexes_ready this (tables w) →
  prop "connection" subscriber = Some connection →
  prop "id" connection = Some (JStr connectionId) →
  prop "operationId" subscriber = Some (JStr operationId) →
  prop "event" subscriber = Some (JStr event) →
  index_consistent this (tables w) →
  index_consistent this (tables (Subscriptions.unsubscribe this subscriber w).2).
Proof.
  intros Hready Hconn Hid Hop Hev Hinv.
  destruct (unsubscribe_outcome this w subscriber connection connectionId
              operationId event Hready Hconn Hid Hop Hev) as [->|[Hp Hs]]; [done|].
  intros e s. rewrite Hp, Hs. case_decide; [done|apply Hinv].
Qed.

(** The theorem above at work: [c1], subscribed to A, unsubscribes while the
    store is unavailable. *)
Lemma unsubscribe_keeps_indexes_consistent_witness :
  let this := Subscriptions.default_manager in
  let subscribed :=
    Subscriptions.subscribe this 0 ["A"] (connection_of "c1") (operation_of "1")
      (world_of empty_store) in
  let w := {| tables := tables subscribed.2; faults := [Unavailable];
              gateway := []; apiGatewayManager := None; trace := [] |} in
  let subscriber :=
    JObj [("connection", connection_of "c1"); ("event", JStr "A");
          ("operationId", JStr "1")] in
  indexes_ready this (tables w)
  ∧ prop "connection" subscriber = Some (connection_of "c1")
  ∧ prop "id" (connection_of "c1") = Some (JStr "c1")
  ∧ prop "operationId" subscriber = Some (JStr "1")
  ∧ prop "event" subscriber = Some (JStr "A")
  ∧ index_consistent this (tables w)
  ∧ index_consistent this (tables (Subscriptions.unsubscribe this subscriber w).2).
Proof.
  intros this subscribed w subscriber.
  assert (H1 : indexes_ready this (tables w)).
  { split; [vm_compute; discriminate|]. split; vm_compute; reflexivity. }
  assert (H2 : prop "connection" subscriber = Some (connection_of "c1"))
    by reflexivity.
  assert (H3 : prop "id" (connection_of "c1") = Some (JStr "c1")) by reflexivity.
  assert (H4 : prop "operationId" subscriber = Some (JStr "1")) by reflexivity.
  assert (H5 : prop "event" subscriber = Some (JStr "A")) by reflexivity.
  assert (H6 : index_consistent this (tables w)).
  { assert (H0 : indexes_ready this (tables (world_of empty_store))).
    { split; [vm_compute; discriminate|]. split; vm_compute; reflexivity. }
    destruct (subscribe_result this (world_of empty_store) 0 ["A"]
                (connection_of "c1") (operation_of "1") "c1" "1" H0 I
                eq_refl eq_refl) as (w1 & Hr & _ & _ & _ & Hp & Hs & _).
    intros event subscriptionId. cbn [tables w]. unfold subscribed.
    rewrite Hr. cbn [snd]. rewrite Hp, Hs.
    case_decide; [reflexivity|]. vm_compute. exact I. }
  exact (conj H1 (conj H2 (conj H3 (conj H4 (conj H5 (conj H6
    (unsubscribe_keeps_indexes_consistent this w subscriber (connection_of "c1")
       "c1" "1" "A" H1 H2 H3 H4 H5 H6))))))).
Defined.

(** ** Subscription ids, and the bulk deletes *)

Lemma append_colon_inj c1 c2 o1 o2 :
  colon_free c1 = true → colon_free c2 = true →
  c1 +:+ ":" +:+ o1 = c2 +:+ ":" +:+ o2 → c1 = c2 ∧ o1 = o2.
Proof.
  assert (Hcons : ∀ a s x, String a s +:+ x = String a (s +:+ x)) by done.
  assert (Hnil : ∀ x, "" +:+ x = x) by done.
  revert c2. induction c1 as [|a c1 IH]; intros [|b c2];
    rewrite ?Hcons, ?Hnil; cbn [colon_free].
  - intros _ _ H. by injection H as ->.
  - intros _ [Hb _]%andb_true_iff H. injection H as <- _. done.
  - intros [Ha _]%andb_true_iff _ H. injection H as -> _. done.
  - intros [_ H1]%andb_true_iff [_ H2]%andb_true_iff H. injection H as -> Heq.
    destruct (IH _ H1 H2 Heq) as [-> ->]. done.
Qed.

Lemma prefix_append c x : String.prefix c (c +:+ x) = true.
Proof.
  induction c as [|a c IH]; [by destruct x|].
  change (String a c +:+ x) with (String a (c +:+ x)). cbn [String.prefix].
  by destruct (Ascii.ascii_dec a a).
Qed.

(** X11.  Subscription ids tell subscriptions apart when connection ids hold
    no colon: two different pairs of a connection id and an operation id
    never get one subscription id. *)
Theorem generateSubscriptionId_injective c1 o1 c2 o2 :
  colon_free c1 = true →
  colon_free c2 = true →
  (c1, o1) ≠ (c2, o2) →
  Subscriptions.generateSubscriptionId (str c1) (str o1)
  ≠ Subscriptions.generateSubscriptionId (str c2) (str o2).
Proof.
  intros H1 H2 Hne Heq. apply Hne.
  unfold Subscriptions.generateSubscriptionId in Heq. cbn [template str toString] in Heq.
  by destruct (append_colon_inj c1 c2 o1 o2 H1 H2 Heq) as [-> ->].
Qed.

(** The theorem above at work: two connections, the id of one beginning
    with the id of the other. *)
Lemma generateSubscriptionId_injective_witness :
  colon_free "a1" = true
  ∧ colon_free "a10" = true
  ∧ ("a1", "01") ≠ ("a10", "1")
  ∧ Subscriptions.generateSubscriptionId (str "a1") (str "01")
    ≠ Subscriptions.generateSubscriptionId (str "a10") (str "1").
Proof.
  assert (H1 : colon_free "a1" = true) by reflexivity.
  assert (H2 : colon_free "a10" = true) by reflexivity.
  assert (H3 : ("a1", "01") ≠ ("a10", "1")) by discriminate.
  exact (conj H1 (conj H2 (conj H3
    (generateSubscriptionId_injective "a1" "01" "a10" "1" H1 H2 H3)))).
Defined.

(** With a colon in a connection id, two pairs can share a subscription
    id. *)
Example generateSubscriptionId_colon_in_connection_id :
  Subscriptions.generateSubscriptionId (str "a") (str "b:c")
  = Subscriptions.generateSubscriptionId (str "a:b") (str "c").
Proof. reflexivity. Qed.

(** X12.  The filter of the scan [unsubscribeAllByConnectionId] sends for a
    connection selects every primary row [subscribe] wrote for that
    connection. *)
Theorem cleanup_filter_selects_subscribed_rows
    this w now names connection operation connectionId operationId name :
  indexes_ready this (tables w) →
  in_full (next_fault w) →
  prop "id" connection = Some (JStr connectionId) →
  prop "operationId" operation = Some (JStr operationId) →
  name ∈ names →
  let r := Subscriptions.subscribe this now names connection operation w in
  ∃ row,
    primary_row this (tables r.2) name
      (Subscriptions.generateSubscriptionId (str connectionId) (str operationId))
    = Some row
    ∧ holds [] [(":connection_id", AV_S connectionId)] row
        (begins_with (Path "subscriptionId") (Value ":connection_id")) = true.
Proof.
  intros Hready Hfull Hid Hop Hname r.
  destruct (subscribe_result this w now names connection operation
              connectionId operationId Hready Hfull Hid Hop)
    as (w1 & Hr & _ & _ & _ & Hprimary & _).
  subst r. rewrite Hr. cbn [snd]. eexists. split.
  - unfold Subscriptions.generateSubscriptionId. simpl template.
    rewrite Hprimary. by rewrite decide_True.
  - erewrite scan_filter_begins_with; [apply prefix_append|].
    unfold subscription_item. reflexivity.
Qed.

(** The theorem above at work: the row of [c1]'s operation 1 under A. *)
Lemma cleanup_filter_selects_subscribed_rows_witness :
  let this := Subscriptions.default_manager in
  let w := world_of empty_store in
  let r := Subscriptions.subscribe this 0 ["A"]
             (connection_of "c1") (operation_of "1") w in
  indexes_ready this (tables w)
  ∧ in_full (next_fault w)
  ∧ prop "id" (connection_of "c1") = Some (JStr "c1")
  ∧ prop "operationId" (operation_of "1") = Some (JStr "1")
  ∧ "A" ∈ ["A"]
  ∧ ∃ row,
      primary_row this (tables r.2) "A"
        (Subscriptions.generateSubscriptionId (str "c1") (str "1")) = Some row
      ∧ holds [] [(":connection_id", AV_S "c1")] row
          (begins_with (Path "subscriptionId") (Value ":connection_id")) = true.
Proof.
  intros this w r.
  assert (H1 : indexes_ready this (tables w)).
  { split; [vm_compute; discriminate|]. split; vm_compute; reflexivity. }
  assert (H2 : in_full (next_fault w)) by (vm_compute; exact I).
  assert (H3 : prop "id" (connection_of "c1") = Some (JStr "c1")) by reflexivity.
  assert (H4 : prop "operationId" (operation_of "1") = Some (JStr "1"))
    by reflexivity.
  assert (H5 : "A" ∈ ["A"]) by left.
  exact (conj H1 (conj H2 (conj H3 (conj H4 (conj H5
    (cleanup_filter_selects_subscribed_rows this w 0 ["A"]
       (connection_of "c1") (operation_of "1") "c1" "1" "A" H1 H2 H3 H4 H5)))))).
Defined.

(** X13.  [unsubscribeOperation] changes no row, of either index or of any
    other table, and pushes nothing, whatever the store holds and whatever
    the ids: the keys of its deletes are built from items still marshalled,
    and the store refuses them. *)
Theorem unsubscribeOperation_changes_no_row this connectionId operationId w :
  let r := Subscriptions.unsubscribeOperation this connectionId operationId w in
  tables r.2 = tables w
  ∧ (∀ event subscriptionId,
       primary_row this (tables r.2) event subscriptionId
       = primary_row this (tables w) event subscriptionId
       ∧ secondary_row this (tables r.2) subscriptionId event
         = secondary_row this (tables w) subscriptionId event)
  ∧ pushes (trace r.2) = pushes (trace w).
Proof.
  intros r.
  pose proof (unsubscribeOperation_keeps_tables this connectionId operationId w) as Ht.
  fold r in Ht. split; [done|]. split.
  - intros event subscriptionId. unfold primary_row, secondary_row. by rewrite Ht.
  - subst r. clear Ht.
    unfold Subscriptions.unsubscribeOperation, bind, lift. cbn [marshall str].
    unfold send at 1.
    destruct (exec _ _ (QueryCommand _)) as [[operation|e] ts]; [|done].
    destruct (Items operation) as [items|]; [|done].
    destruct (Subscriptions.delete_requests _ _ _) as [[requests|e] w'] eqn:Hreq;
      pose proof (delete_requests_world _ _ _ _ _ Hreq) as ->; [|done].
    unfold send. by destruct (exec _ _ _).
Qed.

(** ** The constructor *)

(** X14.  A manager the constructor builds has its ttl off, because [false]
    was given, or a lease of a positive number of seconds, the one given or
    the default of two hours, so that a row it writes has not expired at the
    clock reading it was written at; its table names are the strings given,
    or the defaults, and its extractor the one given, or [event.event]. *)
Theorem new_manager_is_checked options this :
  Subscriptions.new options = Subscriptions.Built this →
  match Subscriptions.ttl this with
  | Some seconds =>
      0 < seconds
      ∧ default (JNum Subscriptions.DEFAULT_TTL) (Subscriptions.Options.ttl options)
        = JNum seconds
      ∧ ∀ now, round_seconds now < computeTTL now seconds
  | None => Subscriptions.Options.ttl options = Some (JBool false)
  end
  ∧ JStr (Subscriptions.subscriptionsTableName this)
    = default (JStr "Subscriptions")
        (Subscriptions.Options.subscriptionsTableName options)
  ∧ JStr (Subscriptions.subscriptionOperationsTableName this)
    = default (JStr "SubscriptionOperations")
        (Subscriptions.Options.subscriptionOperationsTableName options)
  ∧ Subscriptions.getSubscriptionNameFromEvent this
    = default (λ event, member (Some event) "event")
        (Subscriptions.Options.getSubscriptionNameFromEvent options).
Proof.
  unfold Subscriptions.new. intros H.
  destruct (default (JStr "SubscriptionOperations") _) as [| | |operations| |];
    try done.
  destruct (default (JStr "Subscriptions") _) as [| | |subscriptions| |];
    try done.
  destruct (Subscriptions.Options.ttl options) as [[|[]|seconds| | |]|];
    cbn [default] in H |- *; try done.
  - destruct (Subscriptions.Options.dynamoDbClient options) as [[]|];
      cbn in H; simplify_eq; cbn; repeat split; try done.
  - cbn in H. destruct (0 <? seconds) eqn:Hpos; [|done]. apply Z.ltb_lt in Hpos.
    assert (∀ now, round_seconds now < computeTTL now seconds)
      by (intros; unfold computeTTL; lia).
    destruct (Subscriptions.Options.dynamoDbClient options) as [[]|];
      cbn in H; simplify_eq; cbn; repeat split; try done.
  - assert (∀ now, round_seconds now < computeTTL now Subscriptions.DEFAULT_TTL)
      by (intros; unfold computeTTL, Subscriptions.DEFAULT_TTL; lia).
    destruct (Subscriptions.Options.dynamoDbClient options) as [[]|];
      cbn in H; simplify_eq; cbn; repeat split; try done.
Qed.

(** The theorem above at work: no option given. *)
Lemma new_manager_is_checked_witness :
  Subscriptions.new Subscriptions.no_options
  = Subscriptions.Built Subscriptions.default_manager
  ∧ 0 < 7200
  ∧ JStr (Subscriptions.subscriptionsTableName Subscriptions.default_manager)
    = JStr "Subscriptions".
Proof.
  assert (H1 : Subscriptions.new Subscriptions.no_options
               = Subscriptions.Built Subscriptions.default_manager) by reflexivity.
  destruct (new_manager_is_checked Subscriptions.no_options
              Subscriptions.default_manager H1) as ((Hpos & _) & Hname & _).
  exact (conj H1 (conj Hpos Hname)).
Defined.

(* ===================================================================== *)
(** * Further properties of DynamoDBConnectionManager *)
(* ===================================================================== *)

(** ** [hydrateConnection] *)

Lemma exec_get_keeps_tables f ts table key r ts' :
  exec f ts (GetItemCommand table key) = (r, ts') → ts' = ts.
Proof. destruct f; cbn [exec]; repeat case_match; by intros [= _ <-]. Qed.

Lemma lookups_reads_only this rounds connectionId timeout w :
  let r := Connections.lookups this rounds connectionId timeout w in
  tables r.2 = tables w
  ∧ gateway r.2 = gateway w
  ∧ apiGatewayManager r.2 = apiGatewayManager w
  ∧ pushes (trace r.2) = pushes (trace w).
Proof.
  revert w. induction rounds as [|rounds IH]; intros w r; [done|].
  enough (∀ o w', r = (o, w') →
            tables w' = tables w ∧ gateway w' = gateway w
            ∧ apiGatewayManager w' = apiGatewayManager w
            ∧ pushes (trace w') = pushes (trace w)) as H.
  { destruct r as [o w'] eqn:E. by apply (H o). }
  intros o w'. subst r. cbn [Connections.lookups]. unfold bind at 1, lift.
  destruct (marshall [("id", connectionId)]) as [key|e]; [|by intros [= <- <-]].
  unfold bind at 1, send at 1.
  destruct (exec _ _ _) as [[[item|]|e] ts] eqn:Hexec;
    apply exec_get_keeps_tables in Hexec as ->;
    try (by intros [= <- <-]).
  unfold bind, effect. cbn [fst snd tables faults gateway apiGatewayManager trace].
  set (w1 := {| tables := tables w; faults := tail (faults w);
                gateway := gateway w; apiGatewayManager := apiGatewayManager w;
                trace := Waited timeout :: Sent (Req (GetItemCommand
                           (Connections.connectionsTable this) key)) :: trace w |}).
  specialize (IH w1). cbn zeta in IH.
  destruct (Connections.lookups this rounds connectionId timeout w1) as [o1 w2].
  cbn [fst snd] in IH. destruct IH as (H1 & H2 & H3 & H4). intros [= <- <-].
  rewrite H1, H2, H3, H4. done.
Qed.

(** X15.  [hydrateConnection] only reads: whatever the store holds and
    whatever goes wrong, the tables are as they were, and nothing is pushed
    or asked of the gateway. *)
Theorem hydrateConnection_reads_only this now connectionId options w :
  let r := Connections.hydrateConnection this now connectionId options w in
  tables r.2 = tables w
  ∧ gateway r.2 = gateway w
  ∧ pushes (trace r.2) = pushes (trace w).
Proof.
  intros r.
  pose proof (lookups_reads_only this
    (Z.to_nat (default 0 (options ≫= Connections.retryCount) + 1)) connectionId
    (default 50 (options ≫= Connections.timeout)) w) as H.
  cbn zeta in H. subst r. unfold Connections.hydrateConnection, bind.
  destruct (Connections.lookups _ _ _ _ _) as [[[c|]|e] w']; cbn [fst snd] in *;
    destruct H as (H1 & H2 & _ & H4); unfold throw, ret;
    try destruct (isTTLExpired _ _); done.
Qed.

Lemma lookups_unavailable this rounds timeout connectionId w i :
  connections_ready this (tables w) →
  (i < rounds)%nat →
  (∀ j, (j < i)%nat →
     faults w !! j ≠ Some Unavailable
     ∧ lookup_answer this w connectionId j = None) →
  faults w !! i = Some Unavailable →
  let r := Connections.lookups this rounds (str connectionId) timeout w in
  r.1 = Throw ServiceUnavailable
  ∧ trace r.2
    = Sent (Req (GetItemCommand (Connections.connectionsTable this)
                   [("id", AV_S connectionId)]))
      :: rev (flat_map (lookup_effects this w connectionId timeout) (seq 0 i))
      ++ trace w.
Proof.
  revert w rounds. induction i as [|i IH]; intros w rounds Hready Hi Hbefore Hfail r.
  - destruct rounds as [|rounds]; [lia|]. subst r.
    cbn [Connections.lookups]. unfold bind, lift, str. cbn [marshall convertToAttr].
    unfold send, next_fault. rewrite head_lookup, Hfail. done.
  - destruct rounds as [|rounds]; [lia|]. subst r.
    destruct (Hbefore 0%nat ltac:(lia)) as [Hf0 Ha0].
    rewrite lookups_step; [|done|]; cycle 1.
    { unfold next_fault. rewrite head_lookup. intros Hf. apply Hf0.
      destruct (faults w !! 0%nat) as [f|]; simpl in Hf; by subst. }
    rewrite Ha0.
    set (w2 := after_lookup this connectionId [Waited timeout] w).
    assert (Hshift : ∀ j, lookup_answer this w2 connectionId j
                          = lookup_answer this w connectionId (S j)).
    { intros j. unfold lookup_answer, w2, after_lookup. cbn [faults tables].
      by rewrite lookup_tail. }
    destruct (IH w2 rounds) as [Hr Htrace].
    { exact Hready. }
    { lia. }
    { intros j Hj. destruct (Hbefore (S j) ltac:(lia)) as [Hfj Haj].
      split; [|by rewrite Hshift].
      unfold w2, after_lookup. cbn [faults]. by rewrite lookup_tail. }
    { unfold w2, after_lookup. cbn [faults]. by rewrite lookup_tail. }
    split; [done|]. rewrite Htrace. f_equal.
    cbn [seq flat_map]. rewrite <-fmap_S_seq, flat_map_fmap.
    rewrite (flat_map_ext (lookup_effects this w2 connectionId timeout)
               (λ j, lookup_effects this w connectionId timeout (S j))); cycle 1.
    { intros j. unfold lookup_effects. by rewrite Hshift. }
    unfold lookup_effects at 2. rewrite Ha0.
    unfold w2, after_lookup. cbn [trace].
    rewrite rev_app_distr. cbn [rev app]. by rewrite <-!app_assoc.
Qed.

(** X16.  [hydrateConnection] retries a lookup that found no row, never one
    that failed: when the store is unavailable at a lookup, the lookups
    before it having found nothing, the failure goes to the caller at once,
    with no wait and no further lookup. *)
Theorem hydrateConnection_store_failure this w now connectionId options i :
  connections_ready this (tables w) →
  let attempts := Z.to_nat (default 0 (options ≫= Connections.retryCount) + 1) in
  let timeout := default 50 (options ≫= Connections.timeout) in
  (i < attempts)%nat →
  (∀ j, (j < i)%nat →
     faults w !! j ≠ Some Unavailable
     ∧ lookup_answer this w connectionId j = None) →
  faults w !! i = Some Unavailable →
  let r := Connections.hydrateConnection this now (str connectionId) options w in
  r.1 = Throw ServiceUnavailable
  ∧ trace r.2
    = Sent (Req (GetItemCommand (Connections.connectionsTable this)
                   [("id", AV_S connectionId)]))
      :: rev (flat_map (lookup_effects this w connectionId timeout) (seq 0 i))
      ++ trace w.
Proof.
  intros Hready attempts timeout Hi Hbefore Hfail r.
  destruct (lookups_unavailable this attempts timeout connectionId w i
              Hready Hi Hbefore Hfail) as [Hr Htrace].
  subst r. rewrite hydrateConnection_result. cbn zeta. cbn [fst snd].
  fold attempts timeout. by rewrite Hr.
Qed.

(** The theorem above at work: five retries allowed, the first read stale,
    the store unavailable at the second. *)
Lemma hydrateConnection_store_failure_witness :
  let this := connection_manager in
  let w := {| tables := tables lagging_world; faults := [Stale None; Unavailable];
              gateway := []; apiGatewayManager := None; trace := [] |} in
  let options := Some {| Connections.retryCount := Some 5;
                         Connections.timeout := None |} in
  let r := Connections.hydrateConnection this 1000 (str "c1") options w in
  connections_ready this (tables w)
  ∧ (1 < Z.to_nat (default 0 (options ≫= Connections.retryCount) + 1)%Z)%nat
  ∧ (faults w !! 0%nat ≠ Some Unavailable
     ∧ lookup_answer this w "c1" 0 = None)
  ∧ faults w !! 1%nat = Some Unavailable
  ∧ r.1 = Throw ServiceUnavailable
  ∧ length (trace r.2) = 3%nat.
Proof.
  intros this w options r.
  assert (H1 : connections_ready this (tables w)) by (vm_compute; reflexivity).
  assert (H2 : (1 < Z.to_nat (default 0 (options ≫= Connections.retryCount) + 1)%Z)%nat)
    by (vm_compute; lia).
  assert (H3 : faults w !! 0%nat ≠ Some Unavailable
               ∧ lookup_answer this w "c1" 0 = None)
    by (split; [discriminate|vm_compute; reflexivity]).
  assert (H4 : faults w !! 1%nat = Some Unavailable) by reflexivity.
  destruct (hydrateConnection_store_failure this w 1000 "c1" options 1 H1 H2)
    as [Hr Htrace].
  { intros [|j] Hj; [exact H3|lia]. }
  { exact H4. }
  refine (conj H1 (conj H2 (conj H3 (conj H4 (conj Hr _))))).
  fold r in Htrace. rewrite Htrace. vm_compute. reflexivity.
Defined.

(** X17.  With a negative [retryCount] the loop body never runs:
    [hydrateConnection] throws [ConnectionNotFoundError] without a lookup,
    whatever the store holds. *)
Theorem hydrateConnection_negative_retryCount this now connectionId options count w :
  options ≫= Connections.retryCount = Some count →
  count < 0 →
  Connections.hydrateConnection this now connectionId options w
  = (Throw (ConnectionNotFoundError
              ("Connection " +:+ template connectionId +:+ " not found")), w).
Proof.
  intros Hcount Hneg. unfold Connections.hydrateConnection. rewrite Hcount.
  cbn [default from_option id]. replace (Z.to_nat (count + 1)) with 0%nat by lia.
  reflexivity.
Qed.

(** The theorem above at work: [retryCount] is -1 and the row of [c1] is
    stored. *)
Lemma hydrateConnection_negative_retryCount_witness :
  let this := connection_manager in
  let options := Some {| Connections.retryCount := Some (-1);
                         Connections.timeout := None |} in
  options ≫= Connections.retryCount = Some (-1)
  ∧ -1 < 0
  ∧ Connections.hydrateConnection this 1000 (str "c1") options lagging_world
    = (Throw (ConnectionNotFoundError "Connection c1 not found"), lagging_world).
Proof.
  intros this options.
  assert (H1 : options ≫= Connections.retryCount = Some (-1)) by reflexivity.
  assert (H2 : -1 < 0) by lia.
  exact (conj H1 (conj H2
    (hydrateConnection_negative_retryCount this 1000 (str "c1") options (-1)
       lagging_world H1 H2))).
Defined.

(** ** [registerConnection] and [setConnectionData] *)

(** X18.  [registerConnection] overwrites: after it the row under the id is
    the one it built, whatever row was there before, while the rows of other
    connections and the other tables are as they were. *)
Theorem registerConnection_overwrites this w now createdAt connectionId endpoint :
  connections_ready this (tables w) →
  in_full (next_fault w) →
  let r := Connections.registerConnection this now createdAt connectionId endpoint w in
  row_at (tables r.2) (Connections.connectionsTable this) [connectionId]
  = Some (stored_connection this now createdAt connectionId endpoint)
  ∧ (∀ id, id ≠ connectionId →
       row_at (tables r.2) (Connections.connectionsTable this) [id]
       = row_at (tables w) (Connections.connectionsTable this) [id])
  ∧ (∀ table, table ≠ Connections.connectionsTable this →
       tables r.2 !! table = tables w !! table).
Proof.
  intros Hready Hfull r.
  destruct (registerConnection_result this w now createdAt connectionId endpoint)
    as (w1 & Hreg & Ht1 & _); [done|done|].
  subst r. rewrite Hreg. cbn [snd]. rewrite Ht1.
  assert (is_Some (tables w !! Connections.connectionsTable this)) as Hsome.
  { unfold connections_ready in Hready.
    by destruct (tables w !! Connections.connectionsTable this). }
  split; [|split].
  - rewrite row_at_apply_write by done. unfold overwrite. cbn.
    by rewrite decide_True.
  - intros id Hid. rewrite row_at_apply_write by done. unfold overwrite. cbn.
    rewrite decide_False; [done|]. intros [_ [= ->]]. done.
  - intros table Hne. by apply apply_write_lookup_ne.
Qed.

(** The theorem above at work: [c1], registered at time 0, registers again
    with another endpoint. *)
Lemma registerConnection_overwrites_witness :
  let this := connection_manager in
  let w := lagging_world in
  let r := Connections.registerConnection this 5000000
             "Thu Jan 01 1970 01:23:20 GMT+0000" "c1" "https://other.test/dev" w in
  connections_ready this (tables w)
  ∧ in_full (next_fault w)
  ∧ row_at (tables r.2) (Connections.connectionsTable this) ["c1"]
    = Some (stored_connection this 5000000 "Thu Jan 01 1970 01:23:20 GMT+0000"
              "c1" "https://other.test/dev").
Proof.
  intros this w r.
  assert (H1 : connections_ready this (tables w)) by (vm_compute; reflexivity).
  assert (H2 : in_full (next_fault w)) by (vm_compute; exact I).
  exact (conj H1 (conj H2
    (proj1 (registerConnection_overwrites this w 5000000
              "Thu Jan 01 1970 01:23:20 GMT+0000" "c1" "https://other.test/dev"
              H1 H2)))).
Defined.

Lemma assoc_fmap {A B} (f : A → B) k (l : list (string * A)) :
  assoc k (map (λ kv, (kv.1, f kv.2)) l) = f <$> assoc k l.
Proof.
  induction l as [|[k' v] l IH]; simpl; [done|]. by destruct (String.eqb k' k).
Qed.

Lemma assoc_assign1 {A} k k' (v : A) l :
  assoc k (assign1 l k' v) = if String.eqb k' k then Some v else assoc k l.
Proof.
  induction l as [|[k0 v0] l IH]; simpl; [done|].
  destruct (String.eqb k0 k') eqn:E0; simpl.
  - apply String.eqb_eq in E0 as ->. by destruct (String.eqb k' k).
  - rewrite IH. destruct (String.eqb k0 k) eqn:E1; [|done].
    apply String.eqb_eq in E1 as ->. by rewrite String.eqb_sym, E0.
Qed.

Lemma setConnectionData_result this w data connection id :
  connections_ready this (tables w) →
  next_fault w ≠ Unavailable →
  prop "id" connection = Some (JStr id) →
  Connections.setConnectionData this (Some data) connection w
  = (Ok (),
     {| tables :=
          apply_write (tables w)
            (Connections.connectionsTable this, [id],
             Some (assign1
                     (default [("id", AV_S id)]
                        (row_at (tables w) (Connections.connectionsTable this) [id]))
                     "data" (convertToAttr data)));
        faults := tail (faults w); gateway := gateway w;
        apiGatewayManager := apiGatewayManager w; trace := trace w |}).
Proof.
  intros Hready Hf Hid. unfold connections_ready in Hready.
  destruct (tables w !! Connections.connectionsTable this) as [t|] eqn:Ht; [|done].
  cbn in Hready. injection Hready as Hs.
  unfold Connections.setConnectionData, bind, lift.
  rewrite (member_prop _ _ _ Hid). cbn [marshall convertToAttr].
  unfold send_update, row_at. rewrite Ht. cbn [mbind option_bind].
  assert (∀ f, f ≠ Unavailable →
            exec_update f (tables w)
              {| Update.TableName := Connections.connectionsTable this;
                 Update.Key := [("id", AV_S id)];
                 Update.UpdateExpression := Update.SET "#data" ":data";
                 Update.ExpressionAttributeValues := [(":data", convertToAttr data)];
                 Update.ExpressionAttributeNames := [("#data", "data")] |}
            = (Ok (),
               apply_write (tables w)
                 (Connections.connectionsTable this, [id],
                  Some (assign1 (default [("id", AV_S id)] (rows_get [id] (TableRows t)))
                          "data" (convertToAttr data))))) as Hexec.
  { intros f Hne. destruct f; try done; unfold exec_update;
      cbn [Update.TableName Update.Key Update.UpdateExpression
           Update.ExpressionAttributeValues Update.ExpressionAttributeNames];
      rewrite Ht, Hs; reflexivity. }
  by rewrite Hexec.
Qed.

(** X19.  [setConnectionData] on a stored connection replaces its [data]
    and nothing else: every other attribute of the row, the ttl among them,
    is as it was, and so are the rows of other connections and the other
    tables. *)
Theorem setConnectionData_replaces_data this w data connection id row :
  connections_ready this (tables w) →
  next_fault w ≠ Unavailable →
  prop "id" connection = Some (JStr id) →
  row_at (tables w) (Connections.connectionsTable this) [id] = Some row →
  let r := Connections.setConnectionData this (Some data) connection w in
  r.1 = Ok ()
  ∧ (∃ row',
       row_at (tables r.2) (Connections.connectionsTable this) [id] = Some row'
       ∧ prop "data" (unmarshall row') = Some data
       ∧ ∀ name, name ≠ "data" → assoc name row' = assoc name row)
  ∧ (∀ id', id' ≠ id →
       row_at (tables r.2) (Connections.connectionsTable this) [id']
       = row_at (tables w) (Connections.connectionsTable this) [id'])
  ∧ (∀ table, table ≠ Connections.connectionsTable this →
       tables r.2 !! table = tables w !! table).
Proof.
  intros Hready Hf Hid Hrow r. subst r.
  rewrite (setConnectionData_result this w data connection id Hready Hf Hid).
  rewrite Hrow. cbn [fst snd tables default].
  assert (is_Some (tables w !! Connections.connectionsTable this)) as Hsome.
  { unfold connections_ready in Hready.
    by destruct (tables w !! Connections.connectionsTable this). }
  split; [done|]. split; [|split].
  - eexists. split; [|split].
    + rewrite row_at_apply_write by done. unfold overwrite. cbn.
      by rewrite decide_True.
    + rewrite prop_unmarshall, assoc_assign1, String.eqb_refl. cbn.
      by rewrite convert_roundtrip.
    + intros name Hname. rewrite assoc_assign1.
      destruct (String.eqb "data" name) eqn:E; [|done].
      by apply String.eqb_eq in E.
  - intros id' Hid'. rewrite row_at_apply_write by done. unfold overwrite. cbn.
    rewrite decide_False; [done|]. intros [_ [= ->]]. done.
  - intros table Hne. by apply apply_write_lookup_ne.
Qed.

(** The theorem above at work: the context of [c1] is set after it
    registered. *)
Lemma setConnectionData_replaces_data_witness :
  let this := connection_manager in
  let w := world_of (tables lagging_world) in
  let data := JObj [("endpoint", JStr "https://example.test/dev");
                    ("context", JObj [("user", JStr "u1")]);
                    ("isInitialized", JBool true)] in
  let row := stored_connection this 0 "Thu Jan 01 1970 00:00:00 GMT+0000" "c1"
               "https://example.test/dev" in
  let r := Connections.setConnectionData this (Some data) (connection_of "c1") w in
  connections_ready this (tables w)
  ∧ next_fault w ≠ Unavailable
  ∧ prop "id" (connection_of "c1") = Some (JStr "c1")
  ∧ row_at (tables w) (Connections.connectionsTable this) ["c1"] = Some row
  ∧ r.1 = Ok ()
  ∧ ∃ row',
      row_at (tables r.2) (Connections.connectionsTable this) ["c1"] = Some row'
      ∧ prop "data" (unmarshall row') = Some data
      ∧ ∀ name, name ≠ "data" → assoc name row' = assoc name row.
Proof.
  intros this w data row r.
  assert (H1 : connections_ready this (tables w)) by (vm_compute; reflexivity).
  assert (H2 : next_fault w ≠ Unavailable) by discriminate.
  assert (H3 : prop "id" (connection_of "c1") = Some (JStr "c1")) by reflexivity.
  assert (H4 : row_at (tables w) (Connections.connectionsTable this) ["c1"] = Some row)
    by (vm_compute; reflexivity).
  destruct (setConnectionData_replaces_data this w data (connection_of "c1") "c1" row
              H1 H2 H3 H4) as (Hok & Hrow & _).
  exact (conj H1 (conj H2 (conj H3 (conj H4 (conj Hok Hrow))))).
Defined.

(** X20.  [setConnectionData] on an id with no row creates one, of the id
    and the data and without a ttl: from then on [hydrateConnection] finds
    the connection at every clock reading. *)
Theorem setConnectionData_creates_missing_row
    this w data connection id later options :
  connections_ready this (tables w) →
  faults w = [] →
  prop "id" connection = Some (JStr id) →
  row_at (tables w) (Connections.connectionsTable this) [id] = None →
  0 ≤ default 0 (options ≫= Connections.retryCount) →
  let r := Connections.setConnectionData this (Some data) connection w in
  let hydrated := Connections.hydrateConnection this later (str id) options r.2 in
  r.1 = Ok ()
  ∧ row_at (tables r.2) (Connections.connectionsTable this) [id]
    = Some [("id", AV_S id); ("data", convertToAttr data)]
  ∧ hydrated.1 = Ok (JObj [("id", JStr id); ("data", data)]).
Proof.
  intros Hready Hfaults Hid Hrow Hretry r hydrated. subst hydrated r.
  rewrite (setConnectionData_result this w data connection id Hready);
    [|by unfold next_fault; rewrite Hfaults|done].
  rewrite Hrow, Hfaults. cbn [fst snd default tail].
  set (item := [("id", AV_S id); ("data", convertToAttr data)]).
  assert (assign1 [("id", AV_S id)] "data" (convertToAttr data) = item) as ->
    by reflexivity.
  set (w1 := {| tables := apply_write (tables w)
                            (Connections.connectionsTable this, [id], Some item) |}).
  assert (is_Some (tables w !! Connections.connectionsTable this)) as Hsome.
  { unfold connections_ready in Hready.
    by destruct (tables w !! Connections.connectionsTable this). }
  assert (Hnew : row_at (tables w1) (Connections.connectionsTable this) [id]
                 = Some item).
  { cbn [tables w1]. rewrite row_at_apply_write by done. unfold overwrite. cbn.
    by rewrite decide_True. }
  split; [done|]. split; [exact Hnew|].
  rewrite hydrateConnection_result. cbn zeta.
  destruct (Z.to_nat (default 0 (options ≫= Connections.retryCount) + 1))
    as [|rounds] eqn:Hrounds; [lia|].
  rewrite lookups_step; cycle 1.
  { unfold connections_ready. cbn [tables w1]. by rewrite apply_write_schema. }
  { done. }
  assert (lookup_answer this w1 id 0 = Some item) as ->.
  { unfold lookup_answer. cbn [faults w1 lookup default]. exact Hnew. }
  cbn [fst]. unfold item, unmarshall. cbn. by rewrite convert_roundtrip.
Qed.

(** The theorem above at work: data is set for [c1] in an empty store. *)
Lemma setConnectionData_creates_missing_row_witness :
  let this := connection_manager in
  let w := world_of empty_store in
  let data := JObj [("endpoint", JStr "https://example.test/dev");
                    ("context", JObj []); ("isInitialized", JBool true)] in
  let r := Connections.setConnectionData this (Some data) (connection_of "c1") w in
  let hydrated := Connections.hydrateConnection this 9000000000 (str "c1") None r.2 in
  connections_ready this (tables w)
  ∧ faults w = []
  ∧ prop "id" (connection_of "c1") = Some (JStr "c1")
  ∧ row_at (tables w) (Connections.connectionsTable this) ["c1"] = None
  ∧ 0 ≤ default 0 (None ≫= Connections.retryCount)
  ∧ r.1 = Ok ()
  ∧ row_at (tables r.2) (Connections.connectionsTable this) ["c1"]
    = Some [("id", AV_S "c1"); ("data", convertToAttr data)]
  ∧ hydrated.1 = Ok (JObj [("id", JStr "c1"); ("data", data)]).
Proof.
  intros this w data r hydrated.
  assert (H1 : connections_ready this (tables w)) by (vm_compute; reflexivity).
  assert (H2 : faults w = []) by reflexivity.
  assert (H3 : prop "id" (connection_of "c1") = Some (JStr "c1")) by reflexivity.
  assert (H4 : row_at (tables w) (Connections.connectionsTable this) ["c1"] = None)
    by (vm_compute; reflexivity).
  assert (H5 : 0 ≤ default 0 (None ≫= Connections.retryCount)) by (cbn; lia).
  exact (conj H1 (conj H2 (conj H3 (conj H4 (conj H5
    (setConnectionData_creates_missing_row this w data (connection_of "c1") "c1"
       9000000000 None H1 H2 H3 H4 H5)))))).
Defined.

(** ** [sendToConnection], [unregisterConnection] and [closeConnection] *)

Lemma store_step_refl w : store_step w w.
Proof. repeat split. by exists 0%nat. Qed.

Lemma store_step_trans w1 w2 w3 : store_step w1 w2 → store_step w2 w3 → store_step w1 w3.
Proof.
  intros (? & ? & ? & n & Hn) (? & ? & ? & m & Hm).
  split; [congruence|]. split; [congruence|]. split; [congruence|].
  exists (n + m)%nat. by rewrite Hm, Hn, drop_drop.
Qed.

Lemma send_store_step {O} (c : Command O) w : store_step w (send c w).2.
Proof.
  unfold send. destruct (exec _ _ _). repeat split. exists 1%nat.
  cbn [snd faults]. by destruct (faults w).
Qed.

Lemma unsubscribeAll_loop_store_step this steps connectionId cursor w :
  store_step w (Subscriptions.unsubscribeAll_loop this steps connectionId cursor w).2.
Proof.
  revert cursor w. induction steps as [|steps IH]; intros cursor w;
    [apply store_step_refl|].
  cbn [Subscriptions.unsubscribeAll_loop]. unfold bind at 1, lift.
  destruct (marshall [(":connection_id", connectionId)]) as [values|e];
    [|apply store_step_refl].
  unfold bind at 1.
  pose proof (send_store_step (ScanCommand {|
      TableName := Subscriptions.subscriptionsTableName this;
      ExclusiveStartKey := cursor;
      FilterExpression :=
        Some (begins_with (Path "subscriptionId") (Value ":connection_id"));
      ExpressionAttributeValues := values;
      Limit := Some 12%nat;
      KeyConditionExpression := None;
      ExpressionAttributeNames := [] |}) w) as Hscan.
  destruct (send (ScanCommand _) w) as [[page|e] w1]; cbn [snd] in Hscan; [|done].
  destruct (Items page) as [[|item items]|]; try done.
  unfold bind at 1.
  destruct (Subscriptions.delete_requests _ _ _) as [[requests|e] w1'] eqn:Hreq;
    pose proof (delete_requests_world _ _ _ _ _ Hreq) as ->; [|done].
  unfold bind at 1.
  pose proof (send_store_step (BatchWriteItemCommand requests) w1) as Hbatch.
  destruct (send (BatchWriteItemCommand requests) w1) as [[[]|e] w2];
    cbn [snd] in Hbatch.
  - destruct (LastEvaluatedKey page) as [cursor'|].
    + eapply store_step_trans; [|apply IH].
      by eapply store_step_trans.
    + by eapply store_step_trans.
  - by eapply store_step_trans.
Qed.

Lemma sendToConnection_push this connection payload w data :
  prop "data" connection = Some data →
  data ≠ JNull →
  let client := default (ClientFor (prop "endpoint" data)) (apiGatewayManager w) in
  let w1 := {| tables := tables w; faults := faults w;
               gateway := tail (gateway w);
               apiGatewayManager := Some client;
               trace := Posted client (prop "id" connection) payload
                        :: Logged "debug" "=== sendToConnection"
                             (prop "endpoint" data) :: trace w |} in
  Connections.sendToConnection this connection payload w
  = match head (gateway w) with
    | Some (Some e) =>
        if Connections.gone (TransportFailure e)
        then Connections.unregisterConnection this connection w1
        else effect (LoggedError "warn" "=== error in sendToConnection"
                       (TransportFailure e)) w1
    | _ => (Ok (), w1)
    end.
Proof.
  intros Hdata Hnull client w1. subst w1 client.
  unfold Connections.sendToConnection, try_catch, bind, lift, member.
  destruct connection; try done. rewrite Hdata.
  destruct data; try done;
    unfold effect, Connections.createApiGatewayManager, Connections.post;
    cbn [tables faults gateway apiGatewayManager trace];
    destruct (apiGatewayManager w) as [client|];
    cbn [tables faults gateway apiGatewayManager trace default];
    destruct (head (gateway w)) as [[e|]|]; try reflexivity;
    destruct (Connections.gone (TransportFailure e)); reflexivity.
Qed.

(** What [Promise.all] of two promises settles with: it fulfils when both
    do, and rejects with the failure of one that failed.  When both fail,
    the caller gets the failure that came first in time, which may be
    either. *)
Lemma Promise_all_settles (p1 p2 : Eff unit) w :
  let first := p1 w in
  let second := p2 first.2 in
  let r := Connections.Promise_all p1 p2 w in
  r.2 = second.2
  ∧ match first.1, second.1 with
    | Ok _, Ok _ => r.1 = Ok ()
    | Throw e, Ok _ | Ok _, Throw e => r.1 = Throw e
    | Throw e1, Throw e2 => r.1 = Throw e1 ∨ r.1 = Throw e2
    end.
Proof.
  unfold Connections.Promise_all.
  destruct (p1 w) as [[[]|e1] w1]; cbn [fst snd];
    destruct (p2 w1) as [[[]|e2] w2]; cbn [fst snd]; auto.
Qed.

Section Cleanup.
Context (connectionsTable : string) (sm : Subscriptions.Manager)
        (ttl : option Z) (debug : bool).
Let this : Connections.Manager :=
  {| Connections.connectionsTable := connectionsTable;
     Connections.subscriptions := Subscriptions.as_ISubscriptionManager sm;
     Connections.ttl := ttl;
     Connections.debug := debug |}.

Lemma unregisterConnection_store_step connection w :
  store_step w (Connections.unregisterConnection this connection w).2.
Proof.
  unfold Connections.unregisterConnection, bind, lift.
  destruct (member (Some connection) "id") as [id|e]; [|apply store_step_refl].
  destruct (marshall [("id", id)]) as [key|e]; [|apply store_step_refl].
  unfold Connections.Promise_all.
  pose proof (send_store_step
                (DeleteItemCommand (Connections.connectionsTable this) key) w) as H1.
  destruct (send (DeleteItemCommand _ key) w) as [r1 w1]. cbn [snd] in H1.
  cbn [Connections.subscriptions this
       ISubscriptionManager_unsubscribeAllByConnectionId
       Subscriptions.as_ISubscriptionManager].
  pose proof (unsubscribeAll_loop_store_step sm (Subscriptions.rounds sm w1) id None w1)
    as H2.
  unfold Subscriptions.unsubscribeAllByConnectionId.
  destruct (Subscriptions.unsubscribeAll_loop sm _ id None w1) as [r2 w2].
  cbn [snd] in H2.
  assert (store_step w w2) by by eapply store_step_trans.
  by destruct r1, r2.
Qed.

Lemma sendToConnection_posts connection payload w data :
  prop "data" connection = Some data →
  data ≠ JNull →
  let client := default (ClientFor (prop "endpoint" data)) (apiGatewayManager w) in
  let r := Connections.sendToConnection this connection payload w in
  apiGatewayManager r.2 = Some client
  ∧ posts (trace r.2) = Posted client (prop "id" connection) payload :: posts (trace w).
Proof.
  intros Hdata Hnull client r. subst r.
  rewrite (sendToConnection_push this connection payload w data Hdata Hnull).
  cbn zeta. fold client.
  set (w1 := {| tables := tables w; faults := faults w;
               gateway := tail (gateway w);
               apiGatewayManager := Some client;
               trace := Posted client (prop "id" connection) payload
                        :: Logged "debug" "=== sendToConnection"
                             (prop "endpoint" data) :: trace w |}).
  destruct (head (gateway w)) as [[e|]|]; try done.
  destruct (Connections.gone _); [|done].
  destruct (unregisterConnection_store_step connection w1) as (_ & -> & -> & _).
  done.
Qed.

(** X21.  A connection manager that was given no client sends every push
    through the client it built for the first endpoint it pushed to: a push
    to a connection with another endpoint goes through that same client. *)
Theorem sendToConnection_reuses_first_client
    w connection1 payload1 data1 connection2 payload2 data2 :
  apiGatewayManager w = None →
  prop "data" connection1 = Some data1 → data1 ≠ JNull →
  prop "data" connection2 = Some data2 → data2 ≠ JNull →
  let first := Connections.sendToConnection this connection1 payload1 w in
  let second := Connections.sendToConnection this connection2 payload2 first.2 in
  let client := ClientFor (prop "endpoint" data1) in
  apiGatewayManager first.2 = Some client
  ∧ apiGatewayManager second.2 = Some client
  ∧ posts (trace second.2)
    = Posted client (prop "id" connection2) payload2
      :: Posted client (prop "id" connection1) payload1
      :: posts (trace w).
Proof.
  intros Hnone Hdata1 Hnull1 Hdata2 Hnull2 first second client.
  destruct (sendToConnection_posts connection1 payload1 w data1 Hdata1 Hnull1)
    as [Hclient1 Hposts1].
  fold first in Hclient1, Hposts1. rewrite Hnone in Hclient1, Hposts1.
  cbn [default] in Hclient1, Hposts1. fold client in Hclient1, Hposts1.
  destruct (sendToConnection_posts connection2 payload2 first.2 data2 Hdata2 Hnull2)
    as [Hclient2 Hposts2].
  fold second in Hclient2, Hposts2. rewrite Hclient1 in Hclient2, Hposts2.
  cbn [default] in Hclient2, Hposts2.
  split; [done|]. split; [done|]. by rewrite Hposts2, Hposts1.
Qed.

(** X22.  A failure of the store inside the clean-up is handed to the
    caller: when a push fails with status 410 and the store is unavailable
    for the delete of the connection row, [sendToConnection] throws and the
    tables are as they were.  What it throws is the failure of the delete,
    or, where the clean-up of the subscriptions fails as well, one of the
    two failures. *)
Theorem sendToConnection_store_failure_escapes w connection payload data id e :
  prop "data" connection = Some data → data ≠ JNull →
  prop "id" connection = Some (JStr id) →
  head (gateway w) = Some (Some e) →
  status_410 e →
  next_fault w = Unavailable →
  let r := Connections.sendToConnection this connection payload w in
  let client := default (ClientFor (prop "endpoint" data)) (apiGatewayManager w) in
  let cleanup :=
    Subscriptions.unsubscribeAllByConnectionId sm (str id)
      {| tables := tables w; faults := tail (faults w);
         gateway := tail (gateway w); apiGatewayManager := Some client;
         trace := Sent (Req (DeleteItemCommand connectionsTable
                               [("id", AV_S id)]))
                  :: Posted client (prop "id" connection) payload
                  :: Logged "debug" "=== sendToConnection"
                       (prop "endpoint" data)
                  :: trace w |} in
  (r.1 = Throw ServiceUnavailable
   ∨ ∃ failure, cleanup.1 = Throw failure ∧ r.1 = Throw failure)
  ∧ (cleanup.1 = Ok () → r.1 = Throw ServiceUnavailable)
  ∧ tables r.2 = tables w.
Proof.
  intros Hdata Hnull Hid Hgw Hgone Hf r client cleanup.
  apply gone_status_410 in Hgone.
  assert (Hr : r = Connections.Promise_all
                     (send (DeleteItemCommand connectionsTable [("id", AV_S id)]))
                     (Subscriptions.unsubscribeAllByConnectionId sm (str id))
                     {| tables := tables w; faults := faults w;
                        gateway := tail (gateway w);
                        apiGatewayManager := Some client;
                        trace := Posted client (prop "id" connection) payload
                                 :: Logged "debug" "=== sendToConnection"
                                      (prop "endpoint" data)
                                 :: trace w |}).
  { subst r.
    rewrite (sendToConnection_push this connection payload w data Hdata Hnull).
    cbn zeta. rewrite Hgw, Hgone.
    unfold Connections.unregisterConnection, bind, lift.
    rewrite (member_prop _ _ _ Hid). reflexivity. }
  pose proof (Promise_all_settles
                (send (DeleteItemCommand connectionsTable [("id", AV_S id)]))
                (Subscriptions.unsubscribeAllByConnectionId sm (str id))
                {| tables := tables w; faults := faults w;
                   gateway := tail (gateway w);
                   apiGatewayManager := Some client;
                   trace := Posted client (prop "id" connection) payload
                            :: Logged "debug" "=== sendToConnection"
                                 (prop "endpoint" data)
                            :: trace w |}) as Hall.
  cbn zeta in Hall. rewrite <-Hr in Hall.
  assert (Hdelete :
    send (DeleteItemCommand connectionsTable [("id", AV_S id)])
      {| tables := tables w; faults := faults w;
         gateway := tail (gateway w);
         apiGatewayManager := Some client;
         trace := Posted client (prop "id" connection) payload
                  :: Logged "debug" "=== sendToConnection"
                       (prop "endpoint" data)
                  :: trace w |}
    = (Throw ServiceUnavailable,
       {| tables := tables w; faults := tail (faults w);
          gateway := tail (gateway w); apiGatewayManager := Some client;
          trace := Sent (Req (DeleteItemCommand connectionsTable
                                [("id", AV_S id)]))
                   :: Posted client (prop "id" connection) payload
                   :: Logged "debug" "=== sendToConnection"
                        (prop "endpoint" data)
                   :: trace w |})).
  { unfold send, next_fault. cbn [faults tables gateway apiGatewayManager trace].
    fold (next_fault w). by rewrite Hf. }
  rewrite Hdelete in Hall. cbn [fst snd] in Hall. fold cleanup in Hall.
  destruct Hall as [Hworld Houtcome].
  destruct (unsubscribeAllByConnectionId_quiet sm (str id)
              {| tables := tables w; faults := tail (faults w);
                 gateway := tail (gateway w); apiGatewayManager := Some client;
                 trace := Sent (Req (DeleteItemCommand connectionsTable
                                       [("id", AV_S id)]))
                          :: Posted client (prop "id" connection) payload
                          :: Logged "debug" "=== sendToConnection"
                               (prop "endpoint" data)
                          :: trace w |}) as (Ht & _ & _).
  fold cleanup in Ht. cbn [tables] in Ht.
  split; [|split].
  - destruct (cleanup.1) as [[]|failure]; [by left|].
    destruct Houtcome as [->| ->]; [by left|]. right. eauto.
  - intros Hok. by rewrite Hok in Houtcome.
  - by rewrite Hworld.
Qed.

Lemma page_of_no_match t table connectionId :
  Forall (λ row : Key * Item,
            holds [] [(":connection_id", AV_S connectionId)] row.2
              (begins_with (Path "subscriptionId") (Value ":connection_id"))
            = false) (TableRows t) →
  Items (page_of t (cleanup_scan table connectionId None) None) = Some [].
Proof.
  intros Hnone. unfold page_of. cbn [Items Limit cleanup_scan]. f_equal.
  apply filter_none. apply Forall_fmap.
  apply Forall_take. apply Forall_List_filter.
  eapply Forall_impl; [exact Hnone|]. intros row Hrow. exact Hrow.
Qed.

(** X23.  For a connection that has no subscription, [unregisterConnection]
    deletes the connection row and returns: one delete and one scan are
    sent, the rows of other connections and the other tables stay as they
    were. *)
Theorem unregisterConnection_without_subscriptions w connection id :
  prop "id" connection = Some (JStr id) →
  connections_ready this (tables w) →
  faults w = [] →
  connectionsTable ≠ Subscriptions.subscriptionsTableName sm →
  is_Some (tables w !! Subscriptions.subscriptionsTableName sm) →
  no_subscription (tables w) (Subscriptions.subscriptionsTableName sm) id →
  let r := Connections.unregisterConnection this connection w in
  r.1 = Ok ()
  ∧ row_at (tables r.2) connectionsTable [id] = None
  ∧ (∀ id', id' ≠ id →
       row_at (tables r.2) connectionsTable [id']
       = row_at (tables w) connectionsTable [id'])
  ∧ (∀ table, table ≠ connectionsTable → tables r.2 !! table = tables w !! table)
  ∧ trace r.2
    = Sent (Req (ScanCommand
        (cleanup_scan (Subscriptions.subscriptionsTableName sm) id None)))
      :: Sent (Req (DeleteItemCommand connectionsTable [("id", AV_S id)]))
      :: trace w.
Proof.
  intros Hid Hready Hfaults Hne [t Ht] Hnone r.
  unfold connections_ready in Hready. cbn [this Connections.connectionsTable] in Hready.
  destruct (tables w !! connectionsTable) as [tc|] eqn:Htc; [|done].
  cbn in Hready. injection Hready as Hs.
  set (ts1 := apply_write (tables w) (connectionsTable, [id], None)).
  set (w1 := {| tables := ts1; faults := []; gateway := gateway w;
                apiGatewayManager := apiGatewayManager w;
                trace := Sent (Req (DeleteItemCommand connectionsTable
                                      [("id", AV_S id)])) :: trace w |}).
  set (w2 := {| tables := ts1; faults := []; gateway := gateway w;
                apiGatewayManager := apiGatewayManager w;
                trace := Sent (Req (ScanCommand (cleanup_scan
                           (Subscriptions.subscriptionsTableName sm) id None)))
                         :: trace w1 |}).
  assert (Hts1 : ts1 !! Subscriptions.subscriptionsTableName sm = Some t).
  { unfold ts1. rewrite apply_write_lookup_ne by done. done. }
  assert (Hr : r = (Ok (), w2)).
  { subst r. unfold Connections.unregisterConnection, bind, lift.
    rewrite (member_prop _ _ _ Hid). cbn [marshall convertToAttr].
    unfold Connections.Promise_all.
    assert (send (DeleteItemCommand (Connections.connectionsTable this)
                    [("id", AV_S id)]) w = (Ok (), w1)) as ->.
    { unfold send, next_fault. rewrite Hfaults. cbn [head default exec tail].
      unfold resolve_write. cbn [this Connections.connectionsTable].
      rewrite Htc, Hs. reflexivity. }
    cbn [Connections.subscriptions this
         ISubscriptionManager_unsubscribeAllByConnectionId
         Subscriptions.as_ISubscriptionManager].
    assert (Subscriptions.unsubscribeAllByConnectionId sm (Some (JStr id)) w1
            = (Ok (), w2)) as ->; [|done].
    unfold Subscriptions.unsubscribeAllByConnectionId, Subscriptions.rounds.
    cbn [tables w1]. rewrite Hts1.
    cbn [Subscriptions.unsubscribeAll_loop]. unfold bind at 1, lift.
    cbn [marshall convertToAttr]. unfold bind at 1.
    fold (cleanup_scan (Subscriptions.subscriptionsTableName sm) id None).
    unfold send, next_fault. cbn [faults w1 head default exec tables].
    unfold read_page. cbn [TableName cleanup_scan ExclusiveStartKey].
    rewrite Hts1. rewrite page_of_no_match; [done|].
    unfold no_subscription, rows_of in Hnone. by rewrite Ht in Hnone. }
  rewrite Hr. cbn [fst snd tables w2 trace].
  assert (is_Some (tables w !! connectionsTable)) as Hsome by eauto.
  split; [done|]. split; [|split; [|split]].
  - unfold ts1. rewrite row_at_apply_write by done. unfold overwrite. cbn.
    by rewrite decide_True.
  - intros id' Hid'. unfold ts1. rewrite row_at_apply_write by done.
    unfold overwrite. cbn. rewrite decide_False; [done|]. intros [_ [= ->]]. done.
  - intros table Hne'. unfold ts1. by apply apply_write_lookup_ne.
  - done.
Qed.

(** Where the store answers in full, [unregisterConnection] leaves no row
    under the connection's id, whatever becomes of the clean-up of its
    subscriptions. *)
Lemma unregisterConnection_row connection id w :
  prop "id" connection = Some (JStr id) →
  connections_ready this (tables w) →
  in_full (next_fault w) →
  let r := Connections.unregisterConnection this connection w in
  row_at (tables r.2) connectionsTable [id] = None
  ∧ connections_ready this (tables r.2).
Proof.
  intros Hid Hready Hfull r. subst r.
  unfold Connections.unregisterConnection, bind, lift.
  rewrite (member_prop _ _ _ Hid). cbn [marshall convertToAttr].
  unfold Connections.Promise_all.
  unfold connections_ready in Hready. cbn [this Connections.connectionsTable] in Hready.
  destruct (tables w !! connectionsTable) as [t|] eqn:Htab; [|done].
  cbn in Hready. injection Hready as Hs.
  assert (send (DeleteItemCommand (Connections.connectionsTable this)
                  [("id", AV_S id)]) w
          = (Ok (),
             {| tables := apply_write (tables w) (connectionsTable, [id], None);
                faults := tail (faults w); gateway := gateway w;
                apiGatewayManager := apiGatewayManager w;
                trace := Sent (Req (DeleteItemCommand connectionsTable
                                      [("id", AV_S id)])) :: trace w |})) as ->.
  { unfold send. cbn [this Connections.connectionsTable].
    assert (exec (next_fault w) (tables w)
              (DeleteItemCommand connectionsTable [("id", AV_S id)])
            = (Ok (), apply_write (tables w) (connectionsTable, [id], None))) as ->.
    { destruct (next_fault w); try done; cbn [exec];
        unfold resolve_write; rewrite Htab, Hs; reflexivity. }
    done. }
  cbn [Connections.subscriptions this
       ISubscriptionManager_unsubscribeAllByConnectionId
       Subscriptions.as_ISubscriptionManager].
  match goal with
  | |- context [Subscriptions.unsubscribeAllByConnectionId sm ?i ?w2] =>
      destruct (unsubscribeAllByConnectionId_quiet sm i w2) as (Ht & _ & _);
      destruct (Subscriptions.unsubscribeAllByConnectionId sm i w2) as [r2 w3]
  end.
  cbn [fst snd tables] in Ht.
  assert (tables (match r2 with
                  | Ok _ => (Ok (), w3)
                  | Throw e => (Throw e, w3)
                  end).2 = tables w3) as -> by by destruct r2.
  rewrite Ht. split.
  - rewrite row_at_apply_write by (cbn; eauto). unfold overwrite. cbn.
    by rewrite decide_True.
  - unfold connections_ready. cbn [this Connections.connectionsTable].
    rewrite apply_write_schema, Htab. cbn. by rewrite Hs.
Qed.

(** X26.  [sendToConnection] forgets a connection the gateway reports gone.
    When the push fails with status 410 and the store answers every command
    in full, the connection's row is no longer in the table afterwards,
    whether or not the clean-up of its subscriptions went through, and every
    later [hydrateConnection] of that id, whatever its retry options, throws
    [ConnectionNotFoundError]. *)
Theorem sendToConnection_forgets_gone_connection w connection payload data id e :
  prop "data" connection = Some data → data ≠ JNull →
  prop "id" connection = Some (JStr id) →
  head (gateway w) = Some (Some e) →
  Connections.gone (TransportFailure e) = true →
  connections_ready this (tables w) →
  faults w = [] →
  let r := Connections.sendToConnection this connection payload w in
  row_at (tables r.2) connectionsTable [id] = None
  ∧ ∀ now options,
      (Connections.hydrateConnection this now (str id) options r.2).1
      = Throw (ConnectionNotFoundError ("Connection " +:+ id +:+ " not found")).
Proof.
  intros Hdata Hnull Hid Hgw Hgone Hready Hfaults r.
  assert (Hr : ∃ w1, tables w1 = tables w ∧ faults w1 = []
                     ∧ r = Connections.unregisterConnection this connection w1).
  { subst r.
    rewrite (sendToConnection_push this connection payload w data Hdata Hnull).
    cbn zeta. rewrite Hgw, Hgone. eexists. split; [|split; [|reflexivity]]; done. }
  destruct Hr as (w1 & Ht1 & Hf1 & Hr).
  destruct (unregisterConnection_row connection id w1 Hid) as [Hrow Hready'].
  { unfold connections_ready. by rewrite Ht1. }
  { unfold next_fault. by rewrite Hf1. }
  destruct (unregisterConnection_store_step connection w1) as (_ & _ & _ & met & Hmet).
  rewrite <-Hr in Hrow, Hready', Hmet.
  rewrite Hf1, drop_nil in Hmet.
  split; [exact Hrow|]. intros now options.
  rewrite hydrateConnection_result. cbn zeta. cbn [fst].
  destruct (lookups_outcome this
              (Z.to_nat (default 0 (options ≫= Connections.retryCount) + 1))
              (default 50 (options ≫= Connections.timeout)) id r.2)
    as (made & _ & _ & _ & _ & Hcase).
  { exact Hready'. }
  { intros i _. by rewrite Hmet. }
  destruct Hcase as [(_ & _ & ->)|(i & item & _ & Hi & _)]; [done|].
  unfold lookup_answer in Hi. rewrite Hmet in Hi. cbn in Hi.
  cbn [this Connections.connectionsTable] in Hi. by rewrite Hrow in Hi.
Qed.

End Cleanup.

(** The theorem on the client at work: a push to [c1], then one to [c2],
    whose endpoint is another. *)
Lemma sendToConnection_reuses_first_client_witness :
  let w := world_of empty_store in
  let connection2 :=
    JObj [("id", JStr "c2");
          ("data", JObj [("endpoint", JStr "https://other.test/prod");
                         ("context", JObj []); ("isInitialized", JBool true)])] in
  let first := Connections.sendToConnection connection_manager (connection_of "c1")
                 (JStr "one") w in
  let second := Connections.sendToConnection connection_manager connection2
                  (JStr "two") first.2 in
  apiGatewayManager w = None
  ∧ (∃ data1, prop "data" (connection_of "c1") = Some data1 ∧ data1 ≠ JNull)
  ∧ (∃ data2, prop "data" connection2 = Some data2 ∧ data2 ≠ JNull)
  ∧ posts (trace second.2)
    = [Posted (ClientFor (Some (JStr "https://example.test/dev")))
         (Some (JStr "c2")) (JStr "two");
       Posted (ClientFor (Some (JStr "https://example.test/dev")))
         (Some (JStr "c1")) (JStr "one")].
Proof.
  intros w connection2 first second.
  assert (H1 : apiGatewayManager w = None) by reflexivity.
  set (data1 := JObj [("endpoint", JStr "https://example.test/dev");
                      ("context", JObj []); ("isInitialized", JBool true)]).
  set (data2 := JObj [("endpoint", JStr "https://other.test/prod");
                      ("context", JObj []); ("isInitialized", JBool true)]).
  assert (H2 : prop "data" (connection_of "c1") = Some data1) by reflexivity.
  assert (H3 : data1 ≠ JNull) by discriminate.
  assert (H4 : prop "data" connection2 = Some data2) by reflexivity.
  assert (H5 : data2 ≠ JNull) by discriminate.
  destruct (sendToConnection_reuses_first_client "Connections"
              Subscriptions.default_manager (Some 7200) false w
              (connection_of "c1") (JStr "one") data1 connection2 (JStr "two") data2
              H1 H2 H3 H4 H5) as (_ & _ & Hposts).
  exact (conj H1 (conj (ex_intro _ data1 (conj H2 H3))
           (conj (ex_intro _ data2 (conj H4 H5)) Hposts))).
Defined.

(** The theorem on the store's failure at work: the push to [c1] fails with
    status 410 while the store is unavailable; [c1] has no subscription, so
    the clean-up of subscriptions succeeds and the failure the caller gets
    is that of the delete. *)
Lemma sendToConnection_store_failure_escapes_witness :
  let gone := JObj [("statusCode", JNum 410)] in
  let w := {| tables := tables lagging_world; faults := [Unavailable];
              gateway := [Some gone];
              apiGatewayManager := None; trace := [] |} in
  let data := JObj [("endpoint", JStr "https://example.test/dev");
                    ("context", JObj []); ("isInitialized", JBool true)] in
  let r := Connections.sendToConnection connection_manager (connection_of "c1")
             (JStr "payload") w in
  prop "data" (connection_of "c1") = Some data
  ∧ data ≠ JNull
  ∧ prop "id" (connection_of "c1") = Some (JStr "c1")
  ∧ head (gateway w) = Some (Some gone)
  ∧ status_410 gone
  ∧ next_fault w = Unavailable
  ∧ r.1 = Throw ServiceUnavailable
  ∧ tables r.2 = tables w.
Proof.
  intros gone w data r.
  assert (H1 : prop "data" (connection_of "c1") = Some data) by reflexivity.
  assert (H2 : data ≠ JNull) by discriminate.
  assert (H3 : prop "id" (connection_of "c1") = Some (JStr "c1")) by reflexivity.
  assert (H4 : head (gateway w) = Some (Some gone)) by reflexivity.
  assert (H5 : status_410 gone) by (eexists; split; reflexivity).
  assert (H6 : next_fault w = Unavailable) by reflexivity.
  destruct (sendToConnection_store_failure_escapes "Connections"
              Subscriptions.default_manager (Some 7200) false w
              (connection_of "c1") (JStr "payload") data "c1" gone
              H1 H2 H3 H4 H5 H6) as (_ & Hdelete & Htables).
  assert (Hthrown : r.1 = Throw ServiceUnavailable)
    by (apply Hdelete; vm_compute; reflexivity).
  exact (conj H1 (conj H2 (conj H3 (conj H4 (conj H5 (conj H6
    (conj Hthrown Htables))))))).
Defined.

(** The theorem on [unregisterConnection] at work: [c1] is registered and
    has no subscription, thirteen other connections have one each. *)
Lemma unregisterConnection_without_subscriptions_witness :
  let w := busy_world in
  let r := Connections.unregisterConnection connection_manager (connection_of "c1") w in
  prop "id" (connection_of "c1") = Some (JStr "c1")
  ∧ connections_ready connection_manager (tables w)
  ∧ faults w = []
  ∧ "Connections" ≠ Subscriptions.subscriptionsTableName Subscriptions.default_manager
  ∧ is_Some (tables w !! Subscriptions.subscriptionsTableName Subscriptions.default_manager)
  ∧ no_subscription (tables w)
      (Subscriptions.subscriptionsTableName Subscriptions.default_manager) "c1"
  ∧ r.1 = Ok ()
  ∧ row_at (tables r.2) "Connections" ["c1"] = None.
Proof.
  intros w r.
  assert (H1 : prop "id" (connection_of "c1") = Some (JStr "c1")) by reflexivity.
  assert (H2 : connections_ready connection_manager (tables w))
    by (vm_compute; reflexivity).
  assert (H3 : faults w = []) by reflexivity.
  assert (H4 : "Connections"
               ≠ Subscriptions.subscriptionsTableName Subscriptions.default_manager)
    by discriminate.
  assert (H5 : is_Some (tables w
                 !! Subscriptions.subscriptionsTableName Subscriptions.default_manager))
    by (vm_compute; eauto).
  assert (H6 : no_subscription (tables w)
      (Subscriptions.subscriptionsTableName Subscriptions.default_manager) "c1")
    by (vm_compute; repeat constructor).
  destruct (unregisterConnection_without_subscriptions "Connections"
              Subscriptions.default_manager (Some 7200) false w
              (connection_of "c1") "c1" H1 H2 H3 H4 H5 H6) as (Hok & Hrow & _).
  exact (conj H1 (conj H2 (conj H3 (conj H4 (conj H5 (conj H6 (conj Hok Hrow))))))).
Defined.

(** The theorem on the gone connection at work: [c1] is registered and its
    operation 1 is subscribed to event A when the push fails with status
    410. *)
Lemma sendToConnection_forgets_gone_connection_witness :
  let w := {| tables :=
                tables (Subscriptions.subscribe Subscriptions.default_manager 0
                          ["A"] (connection_of "c1") (operation_of "1")
                          (world_of (tables lagging_world))).2;
              faults := [];
              gateway := [Some (JObj [("statusCode", JNum 410)])];
              apiGatewayManager := None; trace := [] |} in
  let data := JObj [("endpoint", JStr "https://example.test/dev");
                    ("context", JObj []); ("isInitialized", JBool true)] in
  let r := Connections.sendToConnection connection_manager (connection_of "c1")
             (JStr "payload") w in
  prop "data" (connection_of "c1") = Some data
  ∧ data ≠ JNull
  ∧ prop "id" (connection_of "c1") = Some (JStr "c1")
  ∧ head (gateway w) = Some (Some (JObj [("statusCode", JNum 410)]))
  ∧ Connections.gone (TransportFailure (JObj [("statusCode", JNum 410)])) = true
  ∧ connections_ready connection_manager (tables w)
  ∧ faults w = []
  ∧ is_Some (row_at (tables w) "Connections" ["c1"])
  ∧ row_at (tables r.2) "Connections" ["c1"] = None
  ∧ (Connections.hydrateConnection connection_manager 1000 (str "c1") None r.2).1
    = Throw (ConnectionNotFoundError "Connection c1 not found").
Proof.
  intros w data r.
  assert (H1 : prop "data" (connection_of "c1") = Some data) by reflexivity.
  assert (H2 : data ≠ JNull) by discriminate.
  assert (H3 : prop "id" (connection_of "c1") = Some (JStr "c1")) by reflexivity.
  assert (H4 : head (gateway w) = Some (Some (JObj [("statusCode", JNum 410)])))
    by reflexivity.
  assert (H5 : Connections.gone (TransportFailure (JObj [("statusCode", JNum 410)]))
               = true) by reflexivity.
  assert (H6 : connections_ready connection_manager (tables w))
    by (vm_compute; reflexivity).
  assert (H7 : faults w = []) by reflexivity.
  assert (H8 : is_Some (row_at (tables w) "Connections" ["c1"]))
    by (vm_compute; eauto).
  destruct (sendToConnection_forgets_gone_connection "Connections"
              Subscriptions.default_manager (Some 7200) false w
              (connection_of "c1") (JStr "payload") data "c1" _
              H1 H2 H3 H4 H5 H6 H7) as [Hrow Hhydrate].
  exact (conj H1 (conj H2 (conj H3 (conj H4 (conj H5 (conj H6 (conj H7 (conj H8
    (conj Hrow (Hhydrate 1000 None)))))))))).
Defined.

(** X24.  [closeConnection] leaves the store alone: no table changes and no
    command is sent.  What the gateway answers goes to the caller as it is,
    a failure with status 410 too, through the client [sendToConnection]
    uses; a connection without readable [data] gets a [TypeError] before
    the gateway is asked. *)
Theorem closeConnection_leaves_store this connection w :
  let r := Connections.closeConnection this connection w in
  tables r.2 = tables w
  ∧ faults r.2 = faults w
  ∧ (trace r.2 = trace w
     ∨ ∃ id, trace r.2 = Logged "log" "Disconnected " id :: trace w)
  ∧ (∀ data,
       prop "data" connection = Some data → data ≠ JNull →
       r.1 = match head (gateway w) with
             | Some (Some e) => Throw (TransportFailure e)
             | _ => Ok ()
             end
       ∧ gateway r.2 = tail (gateway w)
       ∧ apiGatewayManager r.2
         = Some (default (ClientFor (prop "endpoint" data)) (apiGatewayManager w)))
  ∧ (prop "data" connection = None ∨ prop "data" connection = Some JNull →
       (∃ what, r.1 = Throw (TypeError what)) ∧ gateway r.2 = gateway w).
Proof.
  intros r.
  enough (∀ o w', r = (o, w') →
    tables w' = tables w ∧ faults w' = faults w
    ∧ (trace w' = trace w
       ∨ ∃ id, trace w' = Logged "log" "Disconnected " id :: trace w)
    ∧ (∀ data,
         prop "data" connection = Some data → data ≠ JNull →
         o = match head (gateway w) with
             | Some (Some e) => Throw (TransportFailure e)
             | _ => Ok ()
             end
         ∧ gateway w' = tail (gateway w)
         ∧ apiGatewayManager w'
           = Some (default (ClientFor (prop "endpoint" data)) (apiGatewayManager w)))
    ∧ (prop "data" connection = None ∨ prop "data" connection = Some JNull →
         (∃ what, o = Throw (TypeError what)) ∧ gateway w' = gateway w)) as H.
  { destruct r as [o w'] eqn:E. by apply H. }
  intros o w'. subst r.
  unfold Connections.closeConnection, bind, lift, member.
  destruct (prop "data" connection) as [data|] eqn:Hdata.
  - destruct connection as [| | | | |props]; try done. cbv beta iota. rewrite ?Hdata.
    destruct (Connections.debug this);
      unfold effect, ret, Connections.createApiGatewayManager,
        Connections.delete_connection;
      cbn [tables faults gateway apiGatewayManager trace];
      destruct data;
      destruct (apiGatewayManager w) as [client|] eqn:Hagm;
      cbn [tables faults gateway apiGatewayManager trace default];
      destruct (head (gateway w)) as [[e|]|];
      intros [= <- <-]; cbn [tables faults gateway apiGatewayManager trace];
      (split; [done|]); (split; [done|]); (split; [first [by left|right; eexists; reflexivity]|]);
      (split; [intros ? ? Hn; simplify_eq; rewrite ?Hagm; first [by destruct Hn|done]
              |intros [?|?]; simplify_eq; eauto]).
  - destruct connection; cbv beta iota; rewrite ?Hdata;
      destruct (Connections.debug this); unfold effect, ret;
      intros [= <- <-]; cbn [tables faults gateway apiGatewayManager trace];
      (split; [done|]); (split; [done|]); (split; [first [by left|right; eexists; reflexivity]|]);
      (split; [done|intros _; eauto]).
Qed.

(* ===================================================================== *)
(** * Properties of DynamoDBEventStore *)
(* ===================================================================== *)

Lemma assoc_not_elem {A} k (l : list (string * A)) :
  k ∉ map fst l → assoc k l = None.
Proof.
  induction l as [|[k' v] l IH]; simpl; [done|].
  intros Hk. destruct (String.eqb k' k) eqn:E.
  - apply String.eqb_eq in E as ->. destruct Hk. left.
  - apply IH. intros ?. apply Hk. by right.
Qed.

Lemma assoc_Object_assign {A} k (target source : list (string * A)) :
  NoDup (map fst source) →
  assoc k (Object_assign target source)
  = match assoc k source with
    | Some v => Some v
    | None => assoc k target
    end.
Proof.
  unfold Object_assign. revert target.
  induction source as [|[k' v] source IH]; intros target Hnd; simpl; [done|].
  apply NoDup_cons in Hnd as [Hk' Hnd]. rewrite IH by done.
  rewrite assoc_assign1. destruct (String.eqb k' k) eqn:E; [|done].
  apply String.eqb_eq in E as ->. by rewrite assoc_not_elem.
Qed.

Lemma assign1_defined (l : list (string * JsVal)) k v :
  assign1 (map (λ kv, (kv.1, Some kv.2)) l) k (Some v)
  = map (λ kv, (kv.1, Some kv.2)) (assign1 l k v).
Proof.
  induction l as [|[k0 v0] l IH]; simpl; [done|].
  destruct (String.eqb k0 k); simpl; [done|]. by rewrite IH.
Qed.

Lemma Object_assign_defined (target source : list (string * JsVal)) :
  Object_assign (map (λ kv, (kv.1, Some kv.2)) target)
    (map (λ kv, (kv.1, Some kv.2)) source)
  = map (λ kv, (kv.1, Some kv.2)) (Object_assign target source).
Proof.
  unfold Object_assign. revert target.
  induction source as [|[k v] source IH]; intros target; simpl; [done|].
  by rewrite assign1_defined, IH.
Qed.

Lemma marshall_defined (l : list (string * JsVal)) :
  marshall (map (λ kv, (kv.1, Some kv.2)) l)
  = Ok (map (λ kv, (kv.1, convertToAttr kv.2)) l).
Proof. induction l as [|[k v] l IH]; simpl; [done|]. by rewrite IH. Qed.

(** X25.  [publish] puts one item made of the event's own fields, with two
    exceptions: the [ttl] is the lease computed at the call whenever ttl is
    on, whatever [ttl] the event carries, and the [id] is the generated one
    only when the event has no [id] of its own. *)
Theorem publish_puts_event this now id event w :
  NoDup (map fst event) →
  let r := Events.publish this now id event w in
  ∃ item,
    r = send (PutItemCommand (Events.tableName this) item) w
    ∧ assoc "id" item = Some (convertToAttr (default (JStr id) (assoc "id" event)))
    ∧ assoc "ttl" item
      = match Events.ttl this with
        | Some seconds => Some (AV_N (computeTTL now seconds))
        | None => convertToAttr <$> assoc "ttl" event
        end
    ∧ ∀ k, k ≠ "id" → k ≠ "ttl" → assoc k item = convertToAttr <$> assoc k event.
Proof.
  intros Hnd r.
  set (lease := match Events.ttl this with
                | Some seconds => [("ttl", JNum (computeTTL now seconds))]
                | None => []
                end).
  set (object := Object_assign (Object_assign [("id", JStr id)] event) lease).
  assert (Hr : r = send (PutItemCommand (Events.tableName this)
                     (map (λ kv, (kv.1, convertToAttr kv.2)) object)) w).
  { subst r. unfold Events.publish, bind, lift.
    assert (marshall (Object_assign
              (Object_assign [("id", str id)] (map (λ kv, (kv.1, Some kv.2)) event))
              match Events.ttl this with
              | None => []
              | Some seconds => [("ttl", Some (JNum (computeTTL now seconds)))]
              end)
            = Ok (map (λ kv, (kv.1, convertToAttr kv.2)) object)) as ->; [|done].
    change [("id", str id)] with (map (λ kv : string * JsVal, (kv.1, Some kv.2))
                                    [("id", JStr id)]).
    rewrite Object_assign_defined.
    replace (match Events.ttl this with
             | None => []
             | Some seconds => [("ttl", Some (JNum (computeTTL now seconds)))]
             end) with (map (λ kv : string * JsVal, (kv.1, Some kv.2)) lease)
      by (unfold lease; by destruct (Events.ttl this)).
    by rewrite Object_assign_defined, marshall_defined. }
  assert (Hlease : NoDup (map fst lease)).
  { unfold lease. destruct (Events.ttl this); simpl; [|constructor].
    apply NoDup_singleton. }
  assert (Hassoc : ∀ k,
    assoc k object
    = match assoc k lease with
      | Some v => Some v
      | None => match assoc k event with
                | Some v => Some v
                | None => if String.eqb "id" k then Some (JStr id) else None
                end
      end).
  { intros k. unfold object. by rewrite !assoc_Object_assign. }
  eexists. split; [exact Hr|]. rewrite !assoc_fmap.
  split; [|split].
  - rewrite Hassoc.
    assert (assoc "id" lease = None) as ->
      by (unfold lease; by destruct (Events.ttl this)).
    by destruct (assoc "id" event).
  - rewrite Hassoc. unfold lease. destruct (Events.ttl this); [done|]. cbn.
    by destruct (assoc "ttl" event).
  - intros k Hid Httl. rewrite assoc_fmap, Hassoc.
    assert (assoc k lease = None) as ->.
    { unfold lease. destruct (Events.ttl this); [|done]. cbn [assoc].
      destruct (String.eqb "ttl" k) eqn:E; [|done].
      by apply String.eqb_eq in E. }
    destruct (assoc k event); [done|].
    destruct (String.eqb "id" k) eqn:E; [|done]. by apply String.eqb_eq in E.
Qed.

(** The theorem above at work: an event that carries an [id] and a [ttl] of
    its own. *)
Lemma publish_puts_event_witness :
  let this := {| Events.tableName := "Events"; Events.ttl := Some 7200 |} in
  let event := [("event", JStr "chat:room1"); ("payload", JStr "hi");
                ("ttl", JNum 1); ("id", JStr "mine")] in
  let r := Events.publish this 0 "01ARZ3NDEKTSV4RRFFQ69G5FAV" event
             (world_of empty_store) in
  NoDup (map fst event)
  ∧ ∃ item,
      r = send (PutItemCommand "Events" item) (world_of empty_store)
      ∧ assoc "id" item = Some (AV_S "mine")
      ∧ assoc "ttl" item = Some (AV_N 7200).
Proof.
  intros this event r.
  assert (H1 : NoDup (map fst event)).
  { cbn. repeat (apply NoDup_cons; split; [by repeat (apply not_elem_of_cons; split; [done|]);
      apply not_elem_of_nil|]). constructor. }
  destruct (publish_puts_event this 0 "01ARZ3NDEKTSV4RRFFQ69G5FAV" event
              (world_of empty_store) H1) as (item & Hr & Hid & Httl & _).
  exact (conj H1 (ex_intro _ item (conj Hr (conj Hid Httl)))).
Defined.
